(** * iCloudAndroidSuite backend: synchronisation engine

    A shallow embedding of the three services of [backend-service/src/services]
    that carry the algorithmic content of the backend:

    - [DataSynchronizer.ts]: batching and retrying dispatcher,
    - [ConflictResolutionService.ts]: last-write-wins, merge and manual
      reconciliation strategies,
    - [LivePhotoService.ts]: splicing of a still image and a clip into one
      motion-photo file and the reverse split.

    JavaScript promises are modelled by a state-and-exception monad: an
    [await]ed call is a monadic bind, a rejected promise is a [Throw], and
    the effects performed before a rejection are kept (a [catch] handler sees
    the state as the failed computation left it).

    The file has the models first, one module per source file, then the
    vocabulary of the statements and the concrete inputs of the runs, then
    the proofs: the dispatcher, the conflict resolution strategies, the
    motion-photo splice.  The collaborators the services do not implement --
    the remote endpoint, [JSON.stringify], the date parser, the metadata
    converter, [ffmpeg] -- are section variables of the models. *)

From Stdlib Require Import List ZArith String Ascii Bool Arith Lia.
From Stdlib Require Import Strings.Byte.
From Stdlib Require Import DecimalString Decimal.
Import ListNotations.

Local Open Scope string_scope.
Local Open Scope list_scope.

(** ** JavaScript exceptions and the promise monad *)

Module Js.

(** What a [throw] (or a rejected promise) carries.  [AppError] is the class
    of [errorHandler.ts]: it extends [Error], so it has a [message], and adds
    an HTTP-like [status]. *)
Inductive thrown : Type :=
| JsError (name message : string)
| AppError (message : string) (status : Z)
| NonError (description : string).

Definition instanceofError (e : thrown) : bool :=
  match e with
  | JsError _ _ | AppError _ _ => true
  | NonError _ => false
  end.

Definition instanceofAppError (e : thrown) : bool :=
  match e with
  | AppError _ _ => true
  | _ => false
  end.

Definition message (e : thrown) : string :=
  match e with
  | JsError _ m => m
  | AppError m _ => m
  | NonError _ => EmptyString
  end.

Definition errorName (e : thrown) : string :=
  match e with
  | JsError n _ => n
  | AppError _ _ => "Error"
  | NonError _ => EmptyString
  end.

Definition TypeError (m : string) : thrown := JsError "TypeError" m.
Definition Error (m : string) : thrown := JsError "Error" m.

(** Outcome of running a computation: a value or an exception. *)
Inductive completion (A : Type) : Type :=
| Return (a : A)
| Throw (e : thrown).
Arguments Return {A} a.
Arguments Throw {A} e.

(** A computation over a state [S]. *)
Definition M (S A : Type) : Type := S -> completion A * S.

Definition ret {S A} (a : A) : M S A := fun s => (Return a, s).

Definition throw {S A} (e : thrown) : M S A := fun s => (Throw e, s).

Definition bind {S A B} (c : M S A) (k : A -> M S B) : M S B :=
  fun s =>
    match c s with
    | (Return a, s') => k a s'
    | (Throw e, s') => (Throw e, s')
    end.

(** [try { c } catch (e) { h e }] *)
Definition tryCatch {S A} (c : M S A) (h : thrown -> M S A) : M S A :=
  fun s =>
    match c s with
    | (Return a, s') => (Return a, s')
    | (Throw e, s') => h e s'
    end.

(** Runs [c] and hands its completion to the continuation without throwing:
    the shape of a [try]/[catch] whose two arms continue differently. *)
Definition attempt {S A} (c : M S A) : M S (completion A) :=
  fun s => let (r, s') := c s in (Return r, s').

Definition lift {S A} (r : completion A) : M S A := fun s => (r, s).

Definition gets {S A} (f : S -> A) : M S A := fun s => (Return (f s), s).

Definition modify {S} (f : S -> S) : M S unit := fun s => (Return tt, f s).

(** [items.map(f)] where [f] may throw: the elements are visited in order and
    the first exception aborts the traversal. *)
Fixpoint mapM {S A B} (f : A -> M S B) (l : list A) : M S (list B) :=
  match l with
  | [] => ret []
  | x :: tl => bind (f x) (fun y => bind (mapM f tl) (fun ys => ret (y :: ys)))
  end.

(** [await Promise.all(tasks)]: every task is started and runs to its end;
    the result is the list of values, or the first rejection in source
    order when some task rejects. *)
Fixpoint promiseAll {S A} (tasks : list (M S A)) : M S (list A) :=
  match tasks with
  | [] => ret []
  | t :: tl =>
      fun s =>
        let (r, s1) := t s in
        let (rs, s2) := promiseAll tl s1 in
        match r, rs with
        | Return a, Return l => (Return (a :: l), s2)
        | Throw e, _ => (Throw e, s2)
        | Return _, Throw e => (Throw e, s2)
        end
  end.

End Js.

Declare Scope js_scope.
Delimit Scope js_scope with js.
Notation "x <- c ;; k" := (Js.bind c (fun x => k))
  (at level 61, c at next level, right associativity) : js_scope.
Notation "c ;;; k" := (Js.bind c (fun _ => k))
  (at level 61, right associativity) : js_scope.

(** Decimal rendering of a number inside a template literal. *)
Definition decimal (n : nat) : string := NilZero.string_of_uint (Nat.to_uint n).
Definition decimalN (n : N) : string := NilZero.string_of_uint (N.to_uint n).

(** ** DataSynchronizer.ts *)

Module DataSynchronizer.
Import Js.
Local Open Scope js_scope.

(** Records, request payloads and response bodies are plain JavaScript data.
    The dispatcher only reads them, so they are modelled as trees. *)
#[warnings="-register-all"]
Inductive jsval : Type :=
| JUndefined
| JNull
| JBool (b : bool)
| JNum (n : Z)
| JStr (s : string)
| JArr (elems : list jsval)
| JObj (props : list (string * jsval)).

Fixpoint lookup (k : string) (props : list (string * jsval)) : jsval :=
  match props with
  | [] => JUndefined
  | (k', v) :: tl => if String.eqb k k' then v else lookup k tl
  end.

(** [v.k] for a property name that is not built in: reading a property of
    [null] or [undefined] throws a [TypeError]; a primitive or an array has no
    such property. *)
Definition getProp {S} (v : jsval) (k : string) : M S jsval :=
  match v with
  | JUndefined =>
      throw (TypeError ("Cannot read properties of undefined (reading '" ++ k ++ "')"))
  | JNull =>
      throw (TypeError ("Cannot read properties of null (reading '" ++ k ++ "')"))
  | JObj props => ret (lookup k props)
  | _ => ret JUndefined
  end.

Definition truthy (v : jsval) : bool :=
  match v with
  | JUndefined | JNull => false
  | JBool b => b
  | JNum n => negb (n =? 0)%Z
  | JStr s => negb (String.eqb s EmptyString)
  | JArr _ | JObj _ => true
  end.

Definition isArray (v : jsval) : bool :=
  match v with
  | JArr _ => true
  | _ => false
  end.

(** [Array.isArray(result) ? result : [result]] *)
Definition asArray (v : jsval) : list jsval :=
  match v with
  | JArr elems => elems
  | _ => [v]
  end.

(** [data.slice(i, j)] for [0 <= i <= j]. *)
Definition slice {A} (l : list A) (i j : nat) : list A := firstn (j - i) (skipn i l).

Record request : Type := {
  url : string;
  method : string;
  headers : list (string * string);
  body : option string
}.

Record response : Type := {
  ok : bool;
  status : Z;
  statusText : string;
  json : completion jsval   (* what [response.json()] settles to *)
}.

(** What one network call settles to. *)
Inductive fetched : Type :=
| Rejected (e : thrown)
| Responded (r : response).

(** [SyncResult<T>] *)
Record SyncError : Type := { id : jsval; error : string }.
Record SyncResult : Type := { results : list jsval; errors : list SyncError }.

(** The observable world of the dispatcher: the network calls made so far
    (oldest first), the back-off delays slept, and the metadata documents
    written by [AppleMetadataService.saveMetadata]. *)
Record world : Type := {
  requests : list request;
  sleeps : list Z;
  savedMetadata : list (jsval * jsval)
}.

Definition emptyWorld : world :=
  {| requests := []; sleeps := []; savedMetadata := [] |}.

Definition BASE_URL : string := "https://api.icloud.com".
Definition MAX_RETRIES : nat := 5.
Definition BATCH_SIZE : nat := 100.
Definition INITIAL_BACKOFF : Z := 1000.

Section Dispatcher.

(** Constructor argument and collaborators. *)
Variable accessToken : string.
(** [JSON.stringify] on record data; it returns [undefined], here [None],
    when given [undefined]. *)
Variable JSON_stringify : jsval -> option string.
(** The remote endpoint: given the calls already made and the current one,
    what [fetch] settles to. *)
Variable server : list request -> request -> fetched.
(** [AppleMetadataService.convertToAppleMetadata]. *)
Variable convertToAppleMetadata : jsval -> completion jsval.
(** Whether [fs.mkdir]/[fs.writeFile] fail for the document of a file id. *)
Variable writeFails : jsval -> bool.

Definition fetch (req : request) : M world response :=
  fun w =>
    let w' := {| requests := requests w ++ [req];
                 sleeps := sleeps w;
                 savedMetadata := savedMetadata w |} in
    match server (requests w) req with
    | Rejected e => (Throw e, w')
    | Responded r => (Return r, w')
    end.

(** [fetchWithTimeout.ts]: an abort is reported as a timeout, anything else
    is rethrown. *)
Definition fetchWithTimeout (req : request) : M world response :=
  tryCatch (fetch req)
    (fun e =>
       if instanceofError e && String.eqb (errorName e) "AbortError"
       then throw (Error "Request timed out")
       else throw e).

(** [await new Promise((resolve) => setTimeout(resolve, delay))] *)
Definition sleep (delay : Z) : M world unit :=
  modify (fun w => {| requests := requests w;
                      sleeps := sleeps w ++ [delay];
                      savedMetadata := savedMetadata w |}).

(** [retryOperation]: the loop [for (let i = 0; i < retries; i++)], written by
    recursion on the number [remaining] of iterations still to run, so that
    [i = retries - remaining]. *)
Fixpoint retryFrom {A} (operation : M world A) (retries remaining : nat) : M world A :=
  match remaining with
  | 0 => throw (AppError "Max retries reached" 500)
  | S remaining' =>
      let i := retries - remaining in
      tryCatch operation
        (fun e =>
           if (i =? retries - 1)%nat then throw e
           else
             sleep (INITIAL_BACKOFF * 2 ^ Z.of_nat i) ;;;
             retryFrom operation retries remaining')
  end.

Definition retryOperation {A} (operation : M world A) (retries : nat) : M world A :=
  retryFrom operation retries retries.

(** [AppleMetadataService.saveMetadata] *)
Definition saveMetadata (fileId metadata : jsval) : M world unit :=
  if writeFails fileId
  then throw (AppError "Failed to save Apple-specific metadata" 500)
  else modify (fun w => {| requests := requests w;
                           sleeps := sleeps w;
                           savedMetadata := savedMetadata w ++ [(fileId, metadata)] |}).

(** The body shared by the two metadata branches of [singleSync]:
    [if (item.metadata) { convert; save under item.id }]. *)
Definition persistMetadata (item : jsval) : M world unit :=
  metadata <- getProp item "metadata" ;;
  if truthy metadata then
    appleMetadata <- lift (convertToAppleMetadata metadata) ;;
    fileId <- getProp item "id" ;;
    saveMetadata fileId appleMetadata
  else ret tt.

Definition mkRequest (endpoint : string) (data : jsval) (method : string) : request :=
  {| url := (BASE_URL ++ "/" ++ endpoint)%string;
     method := method;
     headers := [("Authorization", ("Bearer " ++ accessToken)%string);
                 ("Content-Type", "application/json")];
     body := if negb (String.eqb method "GET") then JSON_stringify data else None |}.

Definition singleSync (endpoint : string) (data : jsval) (method : string) : M world jsval :=
  tryCatch
    (response <- retryOperation (fetchWithTimeout (mkRequest endpoint data method)) MAX_RETRIES ;;
     if negb (ok response)
     then throw (AppError ("Failed to sync data: " ++ statusText response)%string
                       (status response))
     else
       responseData <- lift (json response) ;;
       match data with
       | JArr items => promiseAll (map persistMetadata items) ;;; ret tt
       | _ => persistMetadata data
       end ;;;
       ret responseData)
    (fun _ => throw (AppError "Failed to sync data" 500)).

(** The entry pushed for one record of a failed batch. *)
Definition failureOf (e : thrown) (item : jsval) : M world SyncError :=
  itemId <- getProp item "id" ;;
  ret {| id := itemId;
         error := if instanceofError e then message e
                  else "Unknown error while syncing batch" |}.

(** The loop of [batchSync], [for (let i = 0; i < data.length; i += BATCH_SIZE)].
    [fuel] bounds the number of iterations; [batchSync] passes [length data],
    which the loop never exhausts since [i] grows by [BATCH_SIZE] each turn. *)
Fixpoint batchLoop (fuel : nat) (endpoint : string) (data : list jsval) (method : string)
    (i : nat) (acc : SyncResult) : M world SyncResult :=
  match fuel with
  | 0 => ret acc
  | S fuel' =>
      if (i <? List.length data)%nat then
        let batch := slice data i (i + BATCH_SIZE) in
        outcome <- attempt (retryOperation (singleSync endpoint (JArr batch) method)
                                           MAX_RETRIES) ;;
        match outcome with
        | Return result =>
            batchLoop fuel' endpoint data method (i + BATCH_SIZE)
              {| results := results acc ++ asArray result; errors := errors acc |}
        | Throw e =>
            failures <- mapM (failureOf e) batch ;;
            batchLoop fuel' endpoint data method (i + BATCH_SIZE)
              {| results := results acc; errors := errors acc ++ failures |}
        end
      else ret acc
  end.

Definition batchSync (endpoint : string) (data : list jsval) (method : string)
    : M world SyncResult :=
  batchLoop (List.length data) endpoint data method 0 {| results := []; errors := [] |}.

Definition syncData (endpoint : string) (data : jsval) (method : string) : M world SyncResult :=
  match data with
  | JArr items =>
      if (BATCH_SIZE <? List.length items)%nat then batchSync endpoint items method
      else
        result <- singleSync endpoint data method ;;
        ret {| results := asArray result; errors := [] |}
  | _ =>
      result <- singleSync endpoint data method ;;
      ret {| results := asArray result; errors := [] |}
  end.

End Dispatcher.

End DataSynchronizer.

(** ** ConflictResolutionService.ts *)

Module ConflictResolution.
Import Js.
Local Open Scope js_scope.

(** The merge strategy creates objects, writes their fields and keys a
    [WeakMap] by object identity, and its inputs may be cyclic: records are
    therefore modelled in a heap.  A [VRef] is the identity of an object or of
    an array; every other value is a primitive. *)
Inductive value : Type :=
| VUndefined
| VNull
| VBool (b : bool)
| VNum (n : Z)
| VStr (s : string)
| VRef (a : nat).

Inductive cell : Type :=
| HObj (props : list (string * value))   (* own properties, in insertion order *)
| HArr (elems : list value).

Definition heap : Type := list cell.

(** [SameValueZero], the equality of [Set]. *)
Definition sameValueZero (x y : value) : bool :=
  match x, y with
  | VUndefined, VUndefined => true
  | VNull, VNull => true
  | VBool a, VBool b => Bool.eqb a b
  | VNum a, VNum b => (a =? b)%Z
  | VStr a, VStr b => String.eqb a b
  | VRef a, VRef b => (a =? b)%nat
  | _, _ => false
  end.

Fixpoint getOwn (k : string) (props : list (string * value)) : option value :=
  match props with
  | [] => None
  | (k', v) :: tl => if String.eqb k k' then Some v else getOwn k tl
  end.

(** [obj[k] = v] on the own properties: an existing key keeps its place. *)
Fixpoint setOwn (k : string) (v : value) (props : list (string * value))
    : list (string * value) :=
  match props with
  | [] => [(k, v)]
  | (k', v') :: tl =>
      if String.eqb k k' then (k, v) :: tl else (k', v') :: setOwn k v tl
  end.

Fixpoint update {A} (l : list A) (i : nat) (x : A) : list A :=
  match l, i with
  | [], _ => []
  | _ :: tl, 0 => x :: tl
  | y :: tl, S i' => y :: update tl i' x
  end.

(** [Array.from(new Set(l))]: first occurrences, in order. *)
Fixpoint dedupeInto (seenSoFar l : list value) : list value :=
  match l with
  | [] => []
  | x :: tl =>
      if existsb (sameValueZero x) seenSoFar then dedupeInto seenSoFar tl
      else x :: dedupeInto (x :: seenSoFar) tl
  end.

Definition arrayFromSet (l : list value) : list value := dedupeInto [] l.

(** The index keys ["0"], ["1"], ... of an array-like spread into an object. *)
Fixpoint indexedFrom (i : nat) (l : list value) : list (string * value) :=
  match l with
  | [] => []
  | x :: tl => (decimal i, x) :: indexedFrom (S i) tl
  end.

Fixpoint chars (s : string) : list value :=
  match s with
  | EmptyString => []
  | String c tl => VStr (String c EmptyString) :: chars tl
  end.

(** [function isObject(item)]: truthy, of type object, not an array. *)
Definition isObject (h : heap) (v : value) : bool :=
  match v with
  | VRef a => match nth_error h a with Some (HObj _) => true | _ => false end
  | _ => false
  end.

Definition isArray (h : heap) (v : value) : bool :=
  match v with
  | VRef a => match nth_error h a with Some (HArr _) => true | _ => false end
  | _ => false
  end.

(** The own enumerable properties copied by [{ ...v }]. *)
Definition spreadProps (h : heap) (v : value) : list (string * value) :=
  match v with
  | VRef a =>
      match nth_error h a with
      | Some (HObj props) => props
      | Some (HArr elems) => indexedFrom 0 elems
      | None => []
      end
  | VStr s => indexedFrom 0 (chars s)
  | _ => []
  end.

(** [v[k]] for an object [v]. *)
Definition getField (h : heap) (v : value) (k : string) : value :=
  match v with
  | VRef a =>
      match nth_error h a with
      | Some (HObj props) => match getOwn k props with Some x => x | None => VUndefined end
      | _ => VUndefined
      end
  | _ => VUndefined
  end.

(** [k in v] for an object [v]; the properties every object inherits from
    [Object.prototype] are left out. *)
Definition hasField (h : heap) (v : value) (k : string) : bool :=
  match v with
  | VRef a =>
      match nth_error h a with
      | Some (HObj props) => match getOwn k props with Some _ => true | None => false end
      | _ => false
      end
  | _ => false
  end.

(** [Object.keys(v)], in insertion order (the keys of the records are not
    integer indices, which JavaScript would list first). *)
Definition keysOf (h : heap) (v : value) : list string :=
  match v with
  | VRef a => match nth_error h a with Some (HObj props) => map fst props | _ => [] end
  | _ => []
  end.

(** The state of one [MergeStrategy.resolve] call: the heap and the [WeakMap]
    [seen], which is created once and shared by the whole recursion. *)
Record store : Type := { cells : heap; seen : list (nat * value) }.

Fixpoint seenGet (a : nat) (m : list (nat * value)) : option value :=
  match m with
  | [] => None
  | (a', v) :: tl => if (a =? a')%nat then Some v else seenGet a tl
  end.

Definition readHeap {A} (f : heap -> A) : M store A := gets (fun s => f (cells s)).

Definition alloc (c : cell) : M store nat :=
  fun s => (Return (List.length (cells s)), {| cells := cells s ++ [c]; seen := seen s |}).

(** [output[k] = v] *)
Definition setField (a : nat) (k : string) (v : value) : M store unit :=
  modify (fun s =>
    {| cells := match nth_error (cells s) a with
                | Some (HObj props) => update (cells s) a (HObj (setOwn k v props))
                | _ => cells s
                end;
       seen := seen s |}).

(** [seen.has(source)]/[seen.get(source)]: a primitive is never a key. *)
Definition seenLookup (source : value) : M store (option value) :=
  gets (fun s => match source with VRef a => seenGet a (seen s) | _ => None end).

(** [seen.set(source, output)]: a [WeakMap] key must be an object. *)
Definition seenSet (source output : value) : M store unit :=
  match source with
  | VRef a => modify (fun s => {| cells := cells s; seen := (a, output) :: seen s |})
  | _ => throw (TypeError "Invalid value used as weak map key")
  end.

(** [...v] inside an array literal: arrays and strings are iterable. *)
Definition iterate (v : value) : M store (list value) :=
  match v with
  | VRef a =>
      cellOpt <- readHeap (fun h => nth_error h a) ;;
      match cellOpt with
      | Some (HArr elems) => ret elems
      | _ => throw (TypeError "object is not iterable")
      end
  | VStr s => ret (chars s)
  | _ => throw (TypeError "value is not iterable")
  end.

Fixpoint forEach {A} (l : list A) (f : A -> M store unit) : M store unit :=
  match l with
  | [] => ret tt
  | x :: tl => f x ;;; forEach tl f
  end.

(** The callback [deepMerge] passes to [Object.keys(source).forEach], with the
    recursive call as [recur]. *)
Definition mergeKey (recur : value -> value -> M store value) (output : nat)
    (target source : value) (key : string) : M store unit :=
  sourceValue <- readHeap (fun h => getField h source key) ;;
  sourceIsArray <- readHeap (fun h => isArray h sourceValue) ;;
  if sourceIsArray then
    targetValue <- readHeap (fun h => getField h target key) ;;
    fromTarget <- iterate targetValue ;;
    fromSource <- iterate sourceValue ;;
    merged <- alloc (HArr (arrayFromSet (fromTarget ++ fromSource))) ;;
    setField output key (VRef merged)
  else
    sourceIsObject <- readHeap (fun h => isObject h sourceValue) ;;
    if sourceIsObject then
      inTarget <- readHeap (fun h => hasField h target key) ;;
      if negb inTarget then setField output key sourceValue
      else
        targetValue <- readHeap (fun h => getField h target key) ;;
        nested <- recur targetValue sourceValue ;;
        setField output key nested
    else setField output key sourceValue.

(** [MergeStrategy.deepMerge].  [fuel] is the depth the call stack allows;
    running out of it is the engine's [RangeError]. *)
Fixpoint deepMerge (fuel : nat) (target source : value) : M store value :=
  match fuel with
  | 0 => throw (JsError "RangeError" "Maximum call stack size exceeded")
  | S fuel' =>
      known <- seenLookup source ;;
      match known with
      | Some cached => ret cached
      | None =>
          copied <- readHeap (fun h => spreadProps h target) ;;
          output <- alloc (HObj copied) ;;
          seenSet source (VRef output) ;;;
          bothObjects <- readHeap (fun h => isObject h target && isObject h source) ;;
          (if bothObjects then
             keys <- readHeap (fun h => keysOf h source) ;;
             forEach keys (mergeKey (deepMerge fuel') output target source)
           else ret tt) ;;;
          ret (VRef output)
      end
  end.

Section Strategies.

(** [new Date(text).getTime()]: the time value in milliseconds, or [None] for
    the [NaN] of an invalid date. *)
Variable parseDate : string -> option Z.
(** [JSON.stringify] of an object literal whose fields are the given values;
    it throws on a cyclic structure. *)
Variable JSON_stringify : heap -> list (string * value) -> completion string.

(** [data.modificationDate || ''], the field being declared
    [modificationDate?: string]. *)
Definition modificationDate (h : heap) (data : value) : string :=
  match getField h data "modificationDate" with
  | VStr s => s
  | _ => EmptyString
  end.

Definition isNaN (t : option Z) : bool :=
  match t with
  | None => true
  | Some _ => false
  end.

(** [a >= b] on two dates: a comparison with [NaN] is false. *)
Definition dateGe (a b : option Z) : bool :=
  match a, b with
  | Some x, Some y => (x >=? y)%Z
  | _, _ => false
  end.

(** [LastWriteWinsStrategy.resolve] *)
Definition lastWriteWins (localData cloudData : value) : M heap value :=
  localDate <- gets (fun h => parseDate (modificationDate h localData)) ;;
  cloudDate <- gets (fun h => parseDate (modificationDate h cloudData)) ;;
  if isNaN localDate && isNaN cloudDate then ret localData
  else if isNaN localDate then ret cloudData
  else if isNaN cloudDate then ret localData
  else ret (if dateGe localDate cloudDate then localData else cloudData).

(** [MergeStrategy.resolve]: [deepMerge(cloudData, localData, new WeakMap())].
    The recursion enters a fresh source object at each level, so a stack of
    one frame per heap cell, plus one, is never exhausted by a heap without
    dangling references. *)
Definition merge (localData cloudData : value) : M heap value :=
  fun h =>
    let (r, s) := deepMerge (S (List.length h)) cloudData localData
                    {| cells := h; seen := [] |} in
    (r, cells s).

(** [ManualResolutionStrategy.resolve] *)
Definition manual (localData cloudData : value) : M heap value :=
  text <- (fun h => (JSON_stringify h [("localData", localData); ("cloudData", cloudData)], h)) ;;
  throw (AppError ("Manual resolution required: " ++ text)%string 409).

(** The [strategies] map filled by the constructor. *)
Definition strategies (name : string) : option (value -> value -> M heap value) :=
  if String.eqb name "lastWriteWins" then Some lastWriteWins
  else if String.eqb name "merge" then Some merge
  else if String.eqb name "manual" then Some manual
  else None.

(** [ConflictResolutionService.resolveConflict] *)
Definition resolveConflict (localData cloudData : value) (strategyName : string)
    : M heap value :=
  match strategies strategyName with
  | None => throw (AppError "Invalid conflict resolution strategy" 400)
  | Some strategy =>
      tryCatch (strategy localData cloudData)
        (fun e =>
           if instanceofAppError e then throw e
           else throw (AppError "Failed to resolve conflict" 500))
  end.

End Strategies.

End ConflictResolution.

(** ** LivePhotoService.ts *)

Module LivePhoto.
Import Js.
Local Open Scope js_scope.

Definition Buffer : Type := list byte.

Fixpoint startsWith (needle buf : Buffer) : bool :=
  match needle, buf with
  | [], _ => true
  | _ :: _, [] => false
  | n :: needle', b :: buf' => Byte.eqb n b && startsWith needle' buf'
  end.

Fixpoint indexOfFrom (needle buf : Buffer) (pos : nat) : Z :=
  if startsWith needle buf then Z.of_nat pos
  else match buf with
       | [] => (-1)%Z
       | _ :: buf' => indexOfFrom needle buf' (S pos)
       end.

(** [buf.indexOf(needle)]: offset of the first occurrence, or [-1]. *)
Definition indexOf (buf needle : Buffer) : Z := indexOfFrom needle buf 0.

(** How [Buffer.slice] reads an offset: a negative one counts from the end,
    and the result is clamped to the buffer. *)
Definition clampOffset (len i : Z) : Z :=
  if (i <? 0)%Z then Z.max (len + i) 0 else Z.min i len.

(** [buf.slice(start, stop)] *)
Definition slice (buf : Buffer) (start stop : Z) : Buffer :=
  let len := Z.of_nat (List.length buf) in
  let s := clampOffset len start in
  let e := clampOffset len stop in
  firstn (Z.to_nat (e - s)) (skipn (Z.to_nat s) buf).

(** [buf.slice(start)] *)
Definition sliceFrom (buf : Buffer) (start : Z) : Buffer :=
  slice buf start (Z.of_nat (List.length buf)).

Definition bytesOf (s : string) : Buffer := list_byte_of_string s.

Definition quote : string := String (ascii_of_nat 34) EmptyString.
Definition newline : string := String (ascii_of_nat 10) EmptyString.
(** U+FEFF in UTF-8, the character between the quotes of [begin=]. *)
Definition byteOrderMark : string :=
  String (ascii_of_nat 239) (String (ascii_of_nat 187) (String (ascii_of_nat 191) EmptyString)).

(** The template literal of [embedMp4IntoJpeg], with the indentation it has in
    the source file, encoded as UTF-8. *)
Definition xmpMetadata : Buffer :=
  bytesOf (String.concat newline
    [ ("<?xpacket begin=" ++ quote ++ byteOrderMark ++ quote ++ " id=" ++ quote
         ++ "W5M0MpCehiHzreSzNTczkc9d" ++ quote ++ "?>")%string;
      ("            <x:xmpmeta xmlns:x=" ++ quote ++ "adobe:ns:meta/" ++ quote ++ ">")%string;
      ("              <rdf:RDF xmlns:rdf=" ++ quote
         ++ "http://www.w3.org/1999/02/22-rdf-syntax-ns#" ++ quote ++ ">")%string;
      ("                <rdf:Description rdf:about=" ++ quote ++ quote)%string;
      ("                    xmlns:GCamera=" ++ quote
         ++ "http://ns.google.com/photos/1.0/camera/" ++ quote ++ ">")%string;
      "                  <GCamera:MotionPhoto>1</GCamera:MotionPhoto>";
      "                  <GCamera:MotionPhotoVersion>1</GCamera:MotionPhotoVersion>";
      "                  <GCamera:MotionPhotoPresentationTimestampUs>0</GCamera:MotionPhotoPresentationTimestampUs>";
      "                </rdf:Description>";
      "              </rdf:RDF>";
      "            </x:xmpmeta>";
      ("            <?xpacket end=" ++ quote ++ "w" ++ quote ++ "?>")%string ]).

(** The JPEG markers the service searches for. *)
Definition APP1 : Buffer := [xff; xe1].
Definition EOI : Buffer := [xff; xd9].

(** [embedMp4IntoJpeg] *)
Definition embedMp4IntoJpeg (jpegBuffer mp4Buffer : Buffer) : Buffer :=
  let exifEnd := (indexOf jpegBuffer APP1 + 2)%Z in
  slice jpegBuffer 0 exifEnd ++ xmpMetadata ++ sliceFrom jpegBuffer exifEnd ++ mp4Buffer.

(** The files the service can see, and the clock read by [Date.now()]. *)
Record disk : Type := { files : list (string * Buffer); clock : N }.

Fixpoint lookupFile (path : string) (fs : list (string * Buffer)) : option Buffer :=
  match fs with
  | [] => None
  | (p, b) :: tl => if String.eqb path p then Some b else lookupFile path tl
  end.

Fixpoint storeFile (path : string) (b : Buffer) (fs : list (string * Buffer))
    : list (string * Buffer) :=
  match fs with
  | [] => [(path, b)]
  | (p, b') :: tl => if String.eqb path p then (p, b) :: tl else (p, b') :: storeFile path b tl
  end.

Fixpoint removeFile (path : string) (fs : list (string * Buffer)) : list (string * Buffer) :=
  match fs with
  | [] => []
  | (p, b) :: tl => if String.eqb path p then tl else (p, b) :: removeFile path tl
  end.

Definition noSuchFile (call path : string) : thrown :=
  Error ("ENOENT: no such file or directory, " ++ call ++ " '" ++ path ++ "'").

(** [fs.readFile], [fs.writeFile], [fs.unlink] *)
Definition readFile (path : string) : M disk Buffer :=
  fun d =>
    match lookupFile path (files d) with
    | Some b => (Return b, d)
    | None => (Throw (noSuchFile "open" path), d)
    end.

Definition writeFile (path : string) (b : Buffer) : M disk unit :=
  modify (fun d => {| files := storeFile path b (files d); clock := clock d |}).

Definition unlink (path : string) : M disk unit :=
  fun d =>
    match lookupFile path (files d) with
    | Some _ => (Return tt, {| files := removeFile path (files d); clock := clock d |})
    | None => (Throw (noSuchFile "unlink" path), d)
    end.

(** [path.join(dir, name)] for a directory name without a trailing slash. *)
Definition join (dir name : string) : string := (dir ++ "/" ++ name)%string.

Section Service.

(** Constructor argument. *)
Variable tempDir : string.
(** The two [ffmpeg] runs, as functions of the input file's bytes; a [Throw]
    is the tool's [error] event. *)
Variable movToMp4 : Buffer -> completion Buffer.
Variable mp4ToMov : Buffer -> completion Buffer.

(** [ffmpeg(input)...output(output).run()] awaited until [end] or [error]. *)
Definition runFfmpeg (codec : Buffer -> completion Buffer) (input output : string)
    : M disk unit :=
  source <- readFile input ;;
  encoded <- lift (codec source) ;;
  writeFile output encoded.

Definition convertMovToMp4 (input output : string) : M disk unit :=
  runFfmpeg movToMp4 input output.

Definition convertMp4ToMov (input output : string) : M disk unit :=
  runFfmpeg mp4ToMov input output.

(** [extractJpegAndMp4] *)
Definition extractJpegAndMp4 (input jpegOutput mp4Output : string) : M disk unit :=
  buffer <- readFile input ;;
  let jpegEnd := (indexOf buffer EOI + 2)%Z in
  promiseAll [ writeFile jpegOutput (slice buffer 0 jpegEnd);
               writeFile mp4Output (sliceFrom buffer jpegEnd) ] ;;;
  ret tt.

(** [convertToAndroidMotionPhoto] *)
Definition convertToAndroidMotionPhoto (jpegPath movPath : string) : M disk Buffer :=
  tryCatch
    (now <- gets clock ;;
     let mp4Path := join tempDir ("temp_" ++ decimalN now ++ ".mp4") in
     convertMovToMp4 movPath mp4Path ;;;
     jpegBuffer <- readFile jpegPath ;;
     mp4Buffer <- readFile mp4Path ;;
     let motionPhoto := embedMp4IntoJpeg jpegBuffer mp4Buffer in
     unlink mp4Path ;;;
     ret motionPhoto)
    (fun _ => throw (AppError "Failed to convert Live Photo" 500)).

(** [convertToAppleLivePhoto]; the result is the pair [{ jpeg, mov }]. *)
Definition convertToAppleLivePhoto (motionPhotoPath : string) : M disk (Buffer * Buffer) :=
  tryCatch
    (timestamp <- gets clock ;;
     let jpegPath := join tempDir ("temp_" ++ decimalN timestamp ++ ".jpg") in
     let mp4Path := join tempDir ("temp_" ++ decimalN timestamp ++ ".mp4") in
     let movPath := join tempDir ("temp_" ++ decimalN timestamp ++ ".mov") in
     extractJpegAndMp4 motionPhotoPath jpegPath mp4Path ;;;
     convertMp4ToMov mp4Path movPath ;;;
     jpeg <- readFile jpegPath ;;
     mov <- readFile movPath ;;
     promiseAll [unlink jpegPath; unlink mp4Path; unlink movPath] ;;;
     ret (jpeg, mov))
    (fun _ => throw (AppError "Failed to convert Motion Photo" 500)).

End Service.

End LivePhoto.

(** ** Vocabulary of the statements about the dispatcher *)

Module SyncSpec.
Import Js DataSynchronizer.

(** Number of network calls made so far. *)
Definition calls (w : world) : nat := List.length (requests w).

(** The inputs [syncData] sends in one piece: a single record, or a
    collection of at most [BATCH_SIZE]. *)
Definition nonBatched (data : jsval) : bool :=
  match data with
  | JArr items => (List.length items <=? BATCH_SIZE)%nat
  | _ => true
  end.


(** A value whose properties can be read. *)
Definition readable (v : jsval) : bool :=
  match v with
  | JUndefined | JNull => false
  | _ => true
  end.

(** [item.id] for a readable item. *)
Definition idOf (item : jsval) : jsval :=
  match item with
  | JObj props => lookup "id" props
  | _ => JUndefined
  end.

(** The slices [data.slice(i, i + BATCH_SIZE)] visited for [i], [i + BATCH_SIZE],
    ... while [i < data.length]; [fuel] bounds their number. *)
Fixpoint batchesFrom (fuel : nat) (data : list jsval) (i : nat) : list (list jsval) :=
  match fuel with
  | 0 => []
  | S fuel' =>
      if (i <? List.length data)%nat
      then slice data i (i + BATCH_SIZE) :: batchesFrom fuel' data (i + BATCH_SIZE)
      else []
  end.

Definition batchesOf (data : list jsval) : list (list jsval) :=
  batchesFrom (List.length data) data 0.

(** What a batch adds to the outcome, given how its dispatch ended: its
    response payload on success, one entry per record on failure. *)
Definition contribution (batch : list jsval) (verdict : completion jsval) : SyncResult :=
  match verdict with
  | Return payload => {| results := asArray payload; errors := [] |}
  | Throw e =>
      {| results := [];
         errors := map (fun item =>
                          {| id := idOf item;
                             error := if instanceofError e then message e
                                      else "Unknown error while syncing batch" |}) batch |}
  end.

Fixpoint contributions (batches : list (list jsval)) (verdicts : list (completion jsval))
    : list SyncResult :=
  match batches, verdicts with
  | b :: bs, v :: vs => contribution b v :: contributions bs vs
  | _, _ => []
  end.


(** The error every failed [singleSync] ends with. *)
Definition syncFailure : thrown := AppError "Failed to sync data" 500.

End SyncSpec.

(** ** Concrete inputs *)

Module Scenario.
Import Js DataSynchronizer.

Definition dquote : string := String (ascii_of_nat 34) EmptyString.

(** The text of a value, as the serializer of the concrete runs writes it. *)
Fixpoint render (v : jsval) : string :=
  match v with
  | JUndefined => "undefined"
  | JNull => "null"
  | JBool b => if b then "true" else "false"
  | JNum n => NilZero.string_of_int (Z.to_int n)
  | JStr s => dquote ++ s ++ dquote
  | JArr elems =>
      "[" ++ (fix go (l : list jsval) : string :=
                match l with
                | [] => EmptyString
                | [x] => render x
                | x :: tl => render x ++ "," ++ go tl
                end) elems ++ "]"
  | JObj props =>
      "{" ++ (fix go (l : list (string * jsval)) : string :=
                match l with
                | [] => EmptyString
                | [(k, x)] => dquote ++ k ++ dquote ++ ":" ++ render x
                | (k, x) :: tl => dquote ++ k ++ dquote ++ ":" ++ render x ++ "," ++ go tl
                end) props ++ "}"
  end%string.

(** A serializer standing for [JSON.stringify] in the concrete runs. *)
Definition stringify (v : jsval) : option string :=
  match v with
  | JUndefined => None
  | _ => Some (render v)
  end.

(** The data set of the batching tests: [{ id: `item-${i}`, data: `test-${i}` }]. *)
Definition item (i : nat) : jsval :=
  JObj [("id", JStr ("item-" ++ decimal i)); ("data", JStr ("test-" ++ decimal i))].

Definition dataset (n : nat) : list jsval := map item (seq 0 n).

Definition largeDataset : list jsval := dataset 250.

Definition accepted : response :=
  {| ok := true; status := 200; statusText := "OK";
     json := Return (JObj [("success", JBool true)]) |}.

Definition sameBody (a b : option string) : bool :=
  match a, b with
  | Some x, Some y => String.eqb x y
  | None, None => true
  | _, _ => false
  end.

(** An endpoint that answers every call. *)
Definition healthy (_ : list request) (_ : request) : fetched := Responded accepted.

(** An endpoint whose every call fails at the transport level. *)
Definition unreachable (_ : list request) (_ : request) : fetched :=
  Rejected (Error "Network error").

(** An endpoint that is down for the records 100..199 of [largeDataset] and
    answers every other call. *)
Definition secondBatchDown (_ : list request) (req : request) : fetched :=
  if sameBody (body req) (stringify (JArr (slice largeDataset 100 200)))
  then Rejected (Error "Network error")
  else Responded accepted.

Definition keepMetadata (v : jsval) : completion jsval := Return v.
Definition diskHealthy (_ : jsval) : bool := false.

End Scenario.

(** ** Vocabulary of the statements about the merge *)

Module MergeSpec.
Import Js ConflictResolution.

(** A reference below [n] or a primitive. *)
Definition closedValue (n : nat) (v : value) : bool :=
  match v with
  | VRef a => (a <? n)%nat
  | _ => true
  end.

Definition cellValues (c : cell) : list value :=
  match c with
  | HObj props => map snd props
  | HArr elems => elems
  end.

(** A heap without dangling references, as every heap of a running program is. *)
Definition closedHeap (h : heap) : bool :=
  forallb (fun c => forallb (closedValue (List.length h)) (cellValues c)) h.

Definition isObjectCell (c : cell) : bool :=
  match c with
  | HObj _ => true
  | HArr _ => false
  end.

(** A heap of objects only; its object graph may have any cycle. *)
Definition objectsOnly (h : heap) : bool := forallb isObjectCell h.

(** What the recursion of [deepMerge] keeps true of its state, [h0] being the
    heap the merge started from: the cells of [h0] are untouched, and [seen]
    has one entry per source object entered, all of them cells of [h0]. *)
Definition invariant (h0 : heap) (s : store) : Prop :=
  firstn (List.length h0) (cells s) = h0 /\
  NoDup (map fst (seen s)) /\
  (forall a, In a (map fst (seen s)) -> a < List.length h0).

(** How a step of the merge started in state [s] may end: with a value, the
    invariant kept, [seen] not smaller and no array created among objects;
    or with a [TypeError], which takes an array in the heap. *)
Definition admissible {A} (h0 : heap) (s : store) (res : completion A * store) : Prop :=
  match res with
  | (Return _, s') =>
      invariant h0 s' /\
      List.length (seen s) <= List.length (seen s') /\
      (objectsOnly (cells s) = true -> objectsOnly (cells s') = true)
  | (Throw e, _) => errorName e = "TypeError" /\ objectsOnly (cells s) = false
  end.

(** From [s] to [s'] the heap only grew, and the cells it had are as they
    were, except possibly the one at [except]. *)
Definition preserved (except : option nat) (s s' : store) : Prop :=
  List.length (cells s) <= List.length (cells s') /\
  (forall i, i < List.length (cells s) -> except <> Some i ->
             nth_error (cells s') i = nth_error (cells s) i).

(** The cells of the heap [h0] the merge started from are in [s] as they were. *)
Definition agrees (h0 : heap) (s : store) : Prop :=
  forall i, i < List.length h0 -> nth_error (cells s) i = nth_error h0 i.

(** A primitive value, which the merge copies as it is. *)
Definition isPrimitive (v : value) : bool :=
  match v with
  | VRef _ => false
  | _ => true
  end.

End MergeSpec.

Module ConflictScenario.
Import Js ConflictResolution.

Definition digit (c : ascii) : option Z :=
  let n := nat_of_ascii c in
  if ((48 <=? n) && (n <=? 57))%nat then Some (Z.of_nat (n - 48)) else None.

(** The number written by a run of decimal digits. *)
Fixpoint number (acc : Z) (s : string) : option Z :=
  match s with
  | EmptyString => Some acc
  | String c tl =>
      match digit c with
      | Some d => number (10 * acc + d) tl
      | None => None
      end
  end.

(** Days from 1970-01-01 to a date of the proleptic Gregorian calendar. *)
Definition daysFromCivil (y m d : Z) : Z :=
  let y' := if (m <=? 2)%Z then (y - 1)%Z else y in
  let era := (y' / 400)%Z in
  let yoe := (y' - era * 400)%Z in
  let doy := ((153 * (if (2 <? m)%Z then m - 3 else m + 9) + 2) / 5 + d - 1)%Z in
  let doe := (yoe * 365 + yoe / 4 - yoe / 100 + doy)%Z in
  (era * 146097 + doe - 719468)%Z.

(** A date parser standing for [new Date(text).getTime()] in the concrete
    runs: it reads the format [YYYY-MM-DDTHH:MM:SSZ] used by the records of
    the test-suite and takes anything else for an invalid date. *)
Definition parseUtc (text : string) : option Z :=
  if negb (String.length text =? 20)%nat then None
  else if negb (String.eqb (substring 4 1 text) "-" && String.eqb (substring 7 1 text) "-"
                && String.eqb (substring 10 1 text) "T" && String.eqb (substring 13 1 text) ":"
                && String.eqb (substring 16 1 text) ":" && String.eqb (substring 19 1 text) "Z")
  then None
  else
    match number 0 (substring 0 4 text), number 0 (substring 5 2 text),
          number 0 (substring 8 2 text), number 0 (substring 11 2 text),
          number 0 (substring 14 2 text), number 0 (substring 17 2 text) with
    | Some y, Some m, Some d, Some hh, Some mm, Some ss =>
        if ((1 <=? m) && (m <=? 12) && (1 <=? d) && (d <=? 31)
            && (hh <=? 23) && (mm <=? 59) && (ss <=? 59))%Z
        then Some ((((daysFromCivil y m d * 24 + hh) * 60 + mm) * 60 + ss) * 1000)%Z
        else None
    | _, _, _, _, _, _ => None
    end.

(** No record of the concrete runs is printed. *)
Definition noPrinter (_ : heap) (_ : list (string * value)) : completion string :=
  Return EmptyString.

(** Two versions of a note, as in the last-write-wins tests: the local one at
    address 0, the cloud one at address 1. *)
Definition notes (localDate cloudDate : value) : heap :=
  [ HObj [("id", VStr "1"); ("content", VStr "local"); ("modificationDate", localDate)];
    HObj [("id", VStr "1"); ("content", VStr "cloud"); ("modificationDate", cloudDate)] ].

(** Local [{ a: 1, b: 2 }] at address 0, cloud [{ b: 3, c: 4 }] at address 1. *)
Definition flatRecords : heap :=
  [ HObj [("a", VNum 1); ("b", VNum 2)];
    HObj [("b", VNum 3); ("c", VNum 4)] ].

(** Local [{ id: "1", array: [1, 2, 3] }] at address 0, cloud
    [{ id: "1", array: [3, 4, 5] }] at address 2. *)
Definition arrayRecords : heap :=
  [ HObj [("id", VStr "1"); ("array", VRef 1)];
    HArr [VNum 1; VNum 2; VNum 3];
    HObj [("id", VStr "1"); ("array", VRef 3)];
    HArr [VNum 3; VNum 4; VNum 5] ].

(** Local [{ id: "1", nested: { a: 1, b: 2 } }] at address 0, cloud
    [{ id: "1", nested: { b: 3, c: 4 } }] at address 2. *)
Definition nestedRecords : heap :=
  [ HObj [("id", VStr "1"); ("nested", VRef 1)];
    HObj [("a", VNum 1); ("b", VNum 2)];
    HObj [("id", VStr "1"); ("nested", VRef 3)];
    HObj [("b", VNum 3); ("c", VNum 4)] ].

(** The circular record of the test-suite: [localData.self = localData] at
    address 0, cloud [{ id: "1", content: "cloud" }] at address 1. *)
Definition selfReferential : heap :=
  [ HObj [("id", VStr "1"); ("self", VRef 0)];
    HObj [("id", VStr "1"); ("content", VStr "cloud")] ].

(** Both records circular: each one is its own [self]. *)
Definition bothSelfReferential : heap :=
  [ HObj [("id", VStr "1"); ("self", VRef 0)];
    HObj [("id", VStr "1"); ("self", VRef 1)] ].

End ConflictScenario.

(** ** Vocabulary of the statements about motion photos *)

Module PhotoSpec.
Import Js LivePhoto.




End PhotoSpec.

Module PhotoScenario.
Import Js LivePhoto.

(** A transcoder that returns its input unchanged. *)
Definition lossless (b : Buffer) : completion Buffer := Return b.

(** A minimal still: start of image, an empty APP1 segment, end of image. *)
Definition still : Buffer := [xff; xd8; xff; xe1; x00; x02; xff; xd9].

Definition clip : Buffer := bytesOf "fake-mov".

Definition camera : disk :=
  {| files := [("photo.jpg", still); ("photo.mov", clip)]; clock := 1700000000000%N |}.

(** The file of the extraction test that has no end-of-image marker. *)
Definition invalidContent : Buffer := bytesOf "invalid-content".

Definition download : disk :=
  {| files := [("test.jpg", invalidContent)]; clock := 1700000000000%N |}.

End PhotoScenario.
(** ** The other services *)

(** [String.prototype.split] and [Array.prototype.join] on a one-character
    separator. *)
Module Text.

Fixpoint split (sep : ascii) (s : string) : list string :=
  match s with
  | EmptyString => [EmptyString]
  | String c rest =>
      if Ascii.eqb c sep then EmptyString :: split sep rest
      else match split sep rest with
           | [] => [String c EmptyString]
           | word :: words => String c word :: words
           end
  end.

Definition join (sep : ascii) (words : list string) : string :=
  String.concat (String sep EmptyString) words.

Fixpoint contains (sep : ascii) (s : string) : bool :=
  match s with
  | EmptyString => false
  | String c rest => Ascii.eqb c sep || contains sep rest
  end.

End Text.

(** A computation on a part of the state, run on the whole state. *)
Module Lens.
Import Js.

Definition zoom {S T A} (get : S -> T) (set : T -> S -> S) (c : M T A) : M S A :=
  fun s => let (r, t) := c (get s) in (r, set t s).

(** A computation that has no state of its own. *)
Definition pure {A} (c : M unit A) : completion A := fst (c tt).

End Lens.

(** ** AppleMetadataService.ts *)

Module AppleMetadataService.
Import Js DataSynchronizer.
Local Open Scope js_scope.

(** A [Buffer] inside plain data, in the form its [toJSON] gives it. *)
Definition bufferValue (b : LivePhoto.Buffer) : jsval :=
  JObj [("type", JStr "Buffer");
        ("data", JArr (map (fun x => JNum (Z.of_N (Byte.to_N x))) b))].

(** [interface AppleMetadata] *)
Record AppleMetadata : Type := {
  creationDate : string;
  modificationDate : string;
  label : string;
  tags : list string;
  uti : string;
  quarantineAttribute : string;
  customIcon : LivePhoto.Buffer;
  finderFlags : Z;
  acl : list string;
  spotlightComments : string;
  contentCreationDate : string;
  customMetadata : jsval
}.

(** An [AppleMetadata] as the object it is. *)
Definition appleValue (m : AppleMetadata) : jsval :=
  JObj [("creationDate", JStr (creationDate m));
        ("modificationDate", JStr (modificationDate m));
        ("label", JStr (label m));
        ("tags", JArr (map JStr (tags m)));
        ("uti", JStr (uti m));
        ("quarantineAttribute", JStr (quarantineAttribute m));
        ("customIcon", bufferValue (customIcon m));
        ("finderFlags", JNum (finderFlags m));
        ("acl", JArr (map JStr (acl m)));
        ("spotlightComments", JStr (spotlightComments m));
        ("contentCreationDate", JStr (contentCreationDate m));
        ("customMetadata", customMetadata m)].

(** The object [convertToAndroidMetadata] builds.  A time is [None] when it
    is [NaN]; a serialized field is [None] when [JSON.stringify] gave
    [undefined]. *)
Module Android.

Record t : Type := {
  dateCreated : option Z;
  dateModified : option Z;
  label : string;
  tags : string;
  customMetadata : option string;
  uti : string;
  quarantineAttribute : string;
  finderFlags : Z;
  acl : option string;
  spotlightComments : string;
  contentCreationDate : option Z
}.

Definition optional (text : option string) : jsval :=
  match text with
  | Some s => JStr s
  | None => JUndefined
  end.

(** The object as plain data, when its three times are numbers ([jsval] has
    no [NaN]). *)
Definition value (a : t) : option jsval :=
  match dateCreated a, dateModified a, contentCreationDate a with
  | Some created, Some modified, Some content =>
      Some (JObj [("dateCreated", JNum created);
                  ("dateModified", JNum modified);
                  ("label", JStr (label a));
                  ("tags", JStr (tags a));
                  ("customMetadata", optional (customMetadata a));
                  ("uti", JStr (uti a));
                  ("quarantineAttribute", JStr (quarantineAttribute a));
                  ("finderFlags", JNum (finderFlags a));
                  ("acl", optional (acl a));
                  ("spotlightComments", JStr (spotlightComments a));
                  ("contentCreationDate", JNum content)])
  | _, _, _ => None
  end.

End Android.

Section Converters.

(** [new Date(v).getTime()]: the time value in milliseconds, [None] for
    [NaN]. *)
Variable dateTime : jsval -> option Z.
(** [toISOString] of a valid date, from its time value. *)
Variable isoString : Z -> string.
(** [JSON.stringify(v)] and [JSON.parse(v)]. *)
Variable JSON_stringify : jsval -> option string.
Variable JSON_parse : jsval -> completion jsval.

(** [convertToAndroidMetadata] *)
Definition convertToAndroidMetadata (appleMetadata : AppleMetadata) : Android.t :=
  {| Android.dateCreated := dateTime (JStr (creationDate appleMetadata));
     Android.dateModified := dateTime (JStr (modificationDate appleMetadata));
     Android.label := label appleMetadata;
     Android.tags := Text.join "," (tags appleMetadata);
     Android.customMetadata := JSON_stringify (customMetadata appleMetadata);
     Android.uti := uti appleMetadata;
     Android.quarantineAttribute := quarantineAttribute appleMetadata;
     Android.finderFlags := finderFlags appleMetadata;
     Android.acl := JSON_stringify (JArr (map JStr (acl appleMetadata)));
     Android.spotlightComments := spotlightComments appleMetadata;
     Android.contentCreationDate := dateTime (JStr (contentCreationDate appleMetadata)) |}.

(** [date.toISOString()], which throws on an invalid date. *)
Definition toISOString {S} (time : option Z) : M S jsval :=
  match time with
  | Some ms => ret (JStr (isoString ms))
  | None => throw (JsError "RangeError" "Invalid time value")
  end.

(** [v || fallback] *)
Definition orElse (v fallback : jsval) : jsval := if truthy v then v else fallback.

(** [tags.split(',')] for a truthy [tags]: only a string has the method. *)
Definition splitTags {S} (tags : jsval) : M S jsval :=
  match tags with
  | JStr s => ret (JArr (map JStr (Text.split "," s)))
  | _ => throw (TypeError "androidMetadata.tags.split is not a function")
  end.

(** The fields of the object literal of [convertToAppleMetadata], evaluated in
    source order. *)
Definition convertToAppleMetadataM {S} (androidMetadata : jsval) : M S jsval :=
  dateCreated <- getProp androidMetadata "dateCreated" ;;
  creationDate <- toISOString (dateTime dateCreated) ;;
  dateModified <- getProp androidMetadata "dateModified" ;;
  modificationDate <- toISOString (dateTime dateModified) ;;
  label <- getProp androidMetadata "label" ;;
  tags <- getProp androidMetadata "tags" ;;
  tagList <- (if truthy tags then splitTags tags else ret (JArr [])) ;;
  uti <- getProp androidMetadata "uti" ;;
  quarantineAttribute <- getProp androidMetadata "quarantineAttribute" ;;
  finderFlags <- getProp androidMetadata "finderFlags" ;;
  acl <- getProp androidMetadata "acl" ;;
  aclList <- (if truthy acl then lift (JSON_parse acl) else ret (JArr [])) ;;
  spotlightComments <- getProp androidMetadata "spotlightComments" ;;
  contentCreated <- getProp androidMetadata "contentCreationDate" ;;
  contentCreationDate <-
    (if truthy contentCreated then toISOString (dateTime contentCreated)
     else toISOString (dateTime dateCreated)) ;;
  custom <- getProp androidMetadata "customMetadata" ;;
  customMetadata <- (if truthy custom then lift (JSON_parse custom) else ret (JObj [])) ;;
  ret (JObj [("creationDate", creationDate);
             ("modificationDate", modificationDate);
             ("label", orElse label (JStr EmptyString));
             ("tags", tagList);
             ("uti", orElse uti (JStr EmptyString));
             ("quarantineAttribute", orElse quarantineAttribute (JStr EmptyString));
             ("customIcon", bufferValue []);
             ("finderFlags", orElse finderFlags (JNum 0));
             ("acl", aclList);
             ("spotlightComments", orElse spotlightComments (JStr EmptyString));
             ("contentCreationDate", contentCreationDate);
             ("customMetadata", customMetadata)]).

(** [convertToAppleMetadata]: what its promise settles to. *)
Definition convertToAppleMetadata (androidMetadata : jsval) : completion jsval :=
  Lens.pure (convertToAppleMetadataM androidMetadata).

End Converters.

(** The index keys of an array-like spread into an object. *)
Fixpoint indexedFrom (i : nat) (l : list jsval) : list (string * jsval) :=
  match l with
  | [] => []
  | x :: tl => (decimal i, x) :: indexedFrom (S i) tl
  end.

Fixpoint chars (s : string) : list jsval :=
  match s with
  | EmptyString => []
  | String c tl => JStr (String c EmptyString) :: chars tl
  end.

(** The own enumerable properties that [{ ...v }] copies. *)
Definition ownProps (v : jsval) : list (string * jsval) :=
  match v with
  | JObj props => props
  | JArr elems => indexedFrom 0 elems
  | JStr s => indexedFrom 0 (chars s)
  | _ => []
  end.

(** [obj[k] = v]: an existing key keeps its place, a new one goes last. *)
Fixpoint setProp (k : string) (v : jsval) (props : list (string * jsval))
    : list (string * jsval) :=
  match props with
  | [] => [(k, v)]
  | (k', v') :: tl =>
      if String.eqb k k' then (k, v) :: tl else (k', v') :: setProp k v tl
  end.

Definition assign (target source : list (string * jsval)) : list (string * jsval) :=
  fold_left (fun acc entry => setProp (fst entry) (snd entry) acc) source target.

(** [{ ...a, ...b }] (the keys of the documents are not integer indices,
    which JavaScript would list first). *)
Definition spread (a b : jsval) : jsval :=
  JObj (assign (assign [] (ownProps a)) (ownProps b)).

Section Storage.

(** Constructor argument and collaborators. *)
Variable storagePath : string.
(** [path.join] *)
Variable pathJoin : string -> string -> string.
(** [JSON.stringify(v, null, 2)] and [JSON.parse(text)]. *)
Variable JSON_pretty : jsval -> option string.
Variable JSON_parse : jsval -> completion jsval.
(** The paths the file system refuses to create or to write. *)
Variable denied : string -> bool.

Definition metadataPath : string := pathJoin storagePath "apple_metadata".

Definition filePathOf (fileId : string) : string :=
  pathJoin metadataPath (fileId ++ ".json")%string.

Definition refused (call path : string) : thrown :=
  Error ("EACCES: permission denied, " ++ call ++ " '" ++ path ++ "'")%string.

(** [fs.mkdir(dir, { recursive: true })]: the directories of the flat [disk]
    are implicit, so a directory that may be created is there. *)
Definition mkdir (dir : string) : M LivePhoto.disk unit :=
  if denied dir then throw (refused "mkdir" dir) else ret tt.

(** [fs.writeFile(path, text)]; [text] is [None] when [JSON.stringify] gave
    [undefined], which [writeFile] rejects. *)
Definition writeText (path : string) (text : option string) : M LivePhoto.disk unit :=
  match text with
  | None =>
      throw (TypeError "The data argument must be of type string or an instance of Buffer")
  | Some s =>
      if denied path then throw (refused "open" path)
      else LivePhoto.writeFile path (LivePhoto.bytesOf s)
  end.

(** [fs.readFile(path, 'utf-8')] *)
Definition readText (path : string) : M LivePhoto.disk string :=
  bytes <- LivePhoto.readFile path ;;
  ret (string_of_list_byte bytes).

(** [saveMetadata] *)
Definition saveMetadata (fileId : string) (metadata : jsval) : M LivePhoto.disk unit :=
  tryCatch
    (mkdir metadataPath ;;;
     writeText (filePathOf fileId) (JSON_pretty metadata))
    (fun _ => throw (AppError "Failed to save Apple-specific metadata" 500)).

(** [getMetadata] *)
Definition getMetadata (fileId : string) : M LivePhoto.disk jsval :=
  tryCatch
    (data <- readText (filePathOf fileId) ;;
     lift (JSON_parse (JStr data)))
    (fun _ => throw (AppError "Failed to retrieve Apple-specific metadata" 500)).

(** [updateMetadata] *)
Definition updateMetadata (fileId : string) (updates : jsval) : M LivePhoto.disk unit :=
  tryCatch
    (currentMetadata <- getMetadata fileId ;;
     saveMetadata fileId (spread currentMetadata updates))
    (fun _ => throw (AppError "Failed to update Apple-specific metadata" 500)).

End Storage.

End AppleMetadataService.

(** ** WebDAVService.ts *)

Module WebDAVService.
Import Js DataSynchronizer.
Local Open Scope js_scope.

(** The calls the service makes on its WebDAV client. *)
Inductive call : Type :=
| GetFileContents (path : string)
| PutFileContents (path : string) (data : LivePhoto.Buffer)
| GetDirectoryContents (path : string)
| CreateDirectory (path : string)
| DeleteFile (path : string)
| MoveFile (fromPath toPath : string)
| CopyFile (fromPath toPath : string)
| Stat (path : string).

(** What a call settles to: a [Buffer], or any other value. *)
Inductive reply : Type :=
| Bytes (b : LivePhoto.Buffer)
| Value (v : jsval).

(** The local files and the calls made so far, oldest first. *)
Record station : Type := { local : LivePhoto.disk; traffic : list call }.

Definition onLocal {A} (c : M LivePhoto.disk A) : M station A :=
  Lens.zoom local (fun d s => {| local := d; traffic := traffic s |}) c.

(** [k in obj] for a key that no prototype defines. *)
Definition hasOwn (k : string) (props : list (string * jsval)) : bool :=
  existsb (fun entry => String.eqb k (fst entry)) props.

(** [isFileStat]: an object, not [null], with a [filename]. *)
Definition isFileStat (value : reply) : bool :=
  match value with
  | Value (JObj props) => hasOwn "filename" props
  | _ => false
  end.

(** [isResponseDataDetailed]: an object, not [null], with a [data]. *)
Definition isResponseDataDetailed (value : reply) : bool :=
  match value with
  | Value (JObj props) => hasOwn "data" props
  | _ => false
  end.

(** [value.data] of a detailed response. *)
Definition dataOf (value : reply) : jsval :=
  match value with
  | Value (JObj props) => lookup "data" props
  | _ => JUndefined
  end.

(** [ensureFileStatArray] *)
Definition ensureFileStatArray {S} (value : reply) : M S jsval :=
  match value with
  | Value (JArr items) => ret (JArr items)
  | _ =>
      if isResponseDataDetailed value then ret (dataOf value)
      else throw (Error "Unexpected result type")
  end.

(** [ensureFileStat] *)
Definition ensureFileStat {S} (value : reply) : M S jsval :=
  match value with
  | Value v =>
      if isFileStat value then ret v
      else if isResponseDataDetailed value then ret (dataOf value)
      else throw (Error "Unexpected result type")
  | Bytes _ => throw (Error "Unexpected result type")
  end.

(** [items.map(item => item.filename)]: only an array has the method. *)
Definition filenames {S} (items : jsval) : M S (list jsval) :=
  match items with
  | JArr elems => mapM (fun item => getProp item "filename") elems
  | JUndefined | JNull =>
      throw (TypeError "Cannot read properties of undefined (reading 'map')")
  | _ => throw (TypeError "items.map is not a function")
  end.

Section Service.

(** The client [createClient] made: given the calls already made and the
    current one, what the call settles to. *)
Variable client : list call -> call -> completion reply.

Definition request (c : call) : M station reply :=
  fun s => (client (traffic s) c, {| local := local s; traffic := traffic s ++ [c] |}).

(** [uploadFile] *)
Definition uploadFile (localPath remotePath : string) : M station unit :=
  tryCatch
    (content <- onLocal (LivePhoto.readFile localPath) ;;
     result <- request (PutFileContents remotePath content) ;;
     match result with
     | Value (JBool _) => ret tt
     | _ => throw (Error "Unexpected result from putFileContents")
     end)
    (fun _ => throw (AppError ("Failed to upload file: " ++ remotePath) 500)).

(** [downloadFile] *)
Definition downloadFile (remotePath localPath : string) : M station unit :=
  tryCatch
    (content <- request (GetFileContents remotePath) ;;
     match content with
     | Bytes b => onLocal (LivePhoto.writeFile localPath b)
     | Value _ => throw (Error "Unexpected content type from getFileContents")
     end)
    (fun _ => throw (AppError ("Failed to download file: " ++ remotePath) 500)).

(** [listDirectory] *)
Definition listDirectory (remotePath : string) : M station (list jsval) :=
  tryCatch
    (directoryItems <- request (GetDirectoryContents remotePath) ;;
     items <- ensureFileStatArray directoryItems ;;
     filenames items)
    (fun _ => throw (AppError ("Failed to list directory: " ++ remotePath) 500)).

(** [createDirectory] *)
Definition createDirectory (remotePath : string) : M station unit :=
  tryCatch
    (request (CreateDirectory remotePath) ;;; ret tt)
    (fun _ => throw (AppError ("Failed to create directory: " ++ remotePath) 500)).

(** [deleteFile] *)
Definition deleteFile (remotePath : string) : M station unit :=
  tryCatch
    (request (DeleteFile remotePath) ;;; ret tt)
    (fun _ => throw (AppError ("Failed to delete file: " ++ remotePath) 500)).

(** [moveFile] *)
Definition moveFile (fromPath toPath : string) : M station unit :=
  tryCatch
    (request (MoveFile fromPath toPath) ;;; ret tt)
    (fun _ => throw (AppError ("Failed to move file: " ++ fromPath ++ " -> " ++ toPath) 500)).

(** [copyFile] *)
Definition copyFile (fromPath toPath : string) : M station unit :=
  tryCatch
    (request (CopyFile fromPath toPath) ;;; ret tt)
    (fun _ => throw (AppError ("Failed to copy file: " ++ fromPath ++ " -> " ++ toPath) 500)).

(** [getFileStats] *)
Definition getFileStats (remotePath : string) : M station jsval :=
  tryCatch
    (stats <- request (Stat remotePath) ;;
     ensureFileStat stats)
    (fun _ => throw (AppError ("Failed to get file stats: " ++ remotePath) 500)).

End Service.

End WebDAVService.

(** ** DataSynchronizer.ts: the methods that delegate to the other services *)

Module Delegation.
Import Js DataSynchronizer.
Local Open Scope js_scope.

(** All that the synchronizer and its services act on. *)
Record site : Type := {
  net : world;
  storage : LivePhoto.disk;
  memory : ConflictResolution.heap;
  traffic : list WebDAVService.call
}.

Definition onNet {A} (c : M world A) : M site A :=
  Lens.zoom net
    (fun w s => {| net := w; storage := storage s; memory := memory s;
                   traffic := traffic s |}) c.

Definition onDisk {A} (c : M LivePhoto.disk A) : M site A :=
  Lens.zoom storage
    (fun d s => {| net := net s; storage := d; memory := memory s;
                   traffic := traffic s |}) c.

Definition onHeap {A} (c : M ConflictResolution.heap A) : M site A :=
  Lens.zoom memory
    (fun h s => {| net := net s; storage := storage s; memory := h;
                   traffic := traffic s |}) c.

Definition onStation {A} (c : M WebDAVService.station A) : M site A :=
  Lens.zoom
    (fun s => {| WebDAVService.local := storage s; WebDAVService.traffic := traffic s |})
    (fun st s => {| net := net s; storage := WebDAVService.local st; memory := memory s;
                    traffic := WebDAVService.traffic st |}) c.

(** [retryOperation], as in the dispatcher, around an operation that acts on
    any part of the site. *)
Fixpoint retryFrom {A} (operation : M site A) (retries remaining : nat) : M site A :=
  match remaining with
  | 0 => throw (AppError "Max retries reached" 500)
  | S remaining' =>
      let i := retries - remaining in
      tryCatch operation
        (fun e =>
           if (i =? retries - 1)%nat then throw e
           else
             onNet (sleep (INITIAL_BACKOFF * 2 ^ Z.of_nat i)) ;;;
             retryFrom operation retries remaining')
  end.

Definition retryOperation {A} (operation : M site A) (retries : nat) : M site A :=
  retryFrom operation retries retries.

(** A path handed over as a value: only a string is one. *)
Definition pathOf (v : jsval) : option string :=
  match v with
  | JStr s => Some s
  | _ => None
  end.

Section Methods.

(** Constructor arguments and collaborators of the services. *)
Variable accessToken : string.
Variable JSON_stringify : jsval -> option string.
Variable server : list request -> request -> fetched.
Variable convertToAppleMetadata : jsval -> completion jsval.
Variable writeFails : jsval -> bool.
Variable tempDir : string.
Variable movToMp4 : LivePhoto.Buffer -> completion LivePhoto.Buffer.
Variable parseDate : string -> option Z.
Variable JSON_print : ConflictResolution.heap -> list (string * ConflictResolution.value)
                      -> completion string.
(** The client behind the [WebDAVService], when the constructor was given one. *)
Variable webDAVService
  : option (list WebDAVService.call -> WebDAVService.call -> completion WebDAVService.reply).

Definition syncData (endpoint : string) (data : jsval) (method : string) : M site SyncResult :=
  onNet (DataSynchronizer.syncData accessToken JSON_stringify server convertToAppleMetadata
           writeFails endpoint data method).

(** [syncLivePhoto] *)
Definition syncLivePhoto (jpegPath movPath : string) : M site SyncResult :=
  retryOperation
    (tryCatch
       (motionPhoto <- onDisk (LivePhoto.convertToAndroidMotionPhoto tempDir movToMp4
                                 jpegPath movPath) ;;
        now <- onDisk (gets LivePhoto.clock) ;;
        syncData "photos.icloud.com/upload"
          (JObj [("id", JStr ("livePhoto_" ++ decimalN now));
                 ("data", AppleMetadataService.bufferValue motionPhoto)])
          "POST")
       (fun _ => throw (AppError "Failed to sync Live Photo" 500)))
    MAX_RETRIES.

(** [livePhotoService.convertToAndroidMotionPhoto] on the two fields of a
    downloaded record, which may hold anything: [ffmpeg] and [fs.readFile]
    reject what is not a path. *)
Definition convertDownloaded (jpeg mov : jsval) : M LivePhoto.disk LivePhoto.Buffer :=
  tryCatch
    (now <- gets LivePhoto.clock ;;
     let mp4Path := LivePhoto.join tempDir ("temp_" ++ decimalN now ++ ".mp4") in
     match pathOf mov with
     | Some movPath => LivePhoto.convertMovToMp4 movToMp4 movPath mp4Path
     | None => throw (Error "Invalid input")
     end ;;;
     jpegBuffer <- match pathOf jpeg with
                   | Some jpegPath => LivePhoto.readFile jpegPath
                   | None => throw (TypeError "The path argument must be of type string")
                   end ;;
     mp4Buffer <- LivePhoto.readFile mp4Path ;;
     let motionPhoto := LivePhoto.embedMp4IntoJpeg jpegBuffer mp4Buffer in
     LivePhoto.unlink mp4Path ;;;
     ret motionPhoto)
    (fun _ => throw (AppError "Failed to convert Live Photo" 500)).

(** [downloadAndConvertLivePhoto] *)
Definition downloadAndConvertLivePhoto (photoId : string) : M site LivePhoto.Buffer :=
  retryOperation
    (tryCatch
       (livePhoto <- syncData ("photos.icloud.com/download/" ++ photoId)
                       (JObj [("id", JStr photoId); ("jpeg", JStr EmptyString);
                              ("mov", JStr EmptyString)])
                       "GET" ;;
        match results livePhoto with
        | [] => throw (AppError "Invalid Live Photo data received" 500)
        | first :: _ =>
            jpeg <- getProp first "jpeg" ;;
            if negb (truthy jpeg) then throw (AppError "Invalid Live Photo data received" 500)
            else
              mov <- getProp first "mov" ;;
              if negb (truthy mov)
              then throw (AppError "Invalid Live Photo data received" 500)
              else onDisk (convertDownloaded jpeg mov)
        end)
       (fun _ => throw (AppError "Failed to download and convert Live Photo" 500)))
    MAX_RETRIES.

(** [resolveConflict] *)
Definition resolveConflict (localData cloudData : ConflictResolution.value)
    (strategyName : string) : M site ConflictResolution.value :=
  retryOperation
    (tryCatch
       (onHeap (ConflictResolution.resolveConflict parseDate JSON_print
                  localData cloudData strategyName))
       (fun _ => throw (AppError "Failed to resolve conflict" 500)))
    MAX_RETRIES.

(** [syncFile] *)
Definition syncFile (localPath remotePath : string) : M site unit :=
  retryOperation
    (tryCatch
       match webDAVService with
       | Some client => onStation (WebDAVService.uploadFile client localPath remotePath)
       | None =>
           throw (TypeError "Cannot read properties of undefined (reading 'uploadFile')")
       end
       (fun _ => throw (AppError ("Failed to sync file: " ++ localPath ++ " -> "
                                  ++ remotePath) 500)))
    MAX_RETRIES.

End Methods.

End Delegation.

(** ** errorHandler.ts *)

Module ErrorHandler.
Import DataSynchronizer.

(** [class AppError extends Error] with all its fields. *)
Record AppError : Type := {
  message : string;
  status : Z;
  isOperational : bool;
  additionalInfo : jsval
}.

(** [new AppError(message, status, additionalInfo?, isOperational = true)]:
    an argument left out is [None]. *)
Definition newAppError (message : string) (status : Z) (additionalInfo : option jsval)
    (isOperational : option bool) : AppError :=
  {| message := message;
     status := status;
     isOperational := match isOperational with Some flag => flag | None => true end;
     additionalInfo := match additionalInfo with Some info => info | None => JUndefined end |}.

(** [res.status(code).json(body)] *)
Record reply : Type := { code : Z; body : jsval }.

(** [errorHandler] *)
Definition errorHandler (err : AppError) : reply :=
  if isOperational err
  then {| code := status err; body := JObj [("message", JStr (message err))] |}
  else {| code := 500;
          body := JObj [("message",
                         JStr "An unexpected error occurred. Please try again later.")] |}.

(** [formatErrorMessage] *)
Definition formatErrorMessage (errorMessage : string) : string :=
  ("Error during operation: " ++ errorMessage)%string.

(** An error as the services throw it: every [new AppError] of the services
    gives the message and the status only. *)
Definition thrownBy (e : Js.thrown) : option AppError :=
  match e with
  | Js.AppError m s => Some (newAppError m s None None)
  | _ => None
  end.

(** The last middleware of [app.ts]. *)
Definition lastMiddleware (err : Js.thrown) : reply :=
  match thrownBy err with
  | Some appError => errorHandler appError
  | None =>
      errorHandler (newAppError "An unexpected error occurred" 500 (Some (JBool false)) None)
  end.

End ErrorHandler.

(** ** authMiddleware.ts *)

Module AuthMiddleware.
Import Js DataSynchronizer.

(** The classes of [jsonwebtoken] that extend [JsonWebTokenError]. *)
Definition isJsonWebTokenError (e : thrown) : bool :=
  match e with
  | JsError name _ =>
      String.eqb name "JsonWebTokenError" || String.eqb name "TokenExpiredError"
      || String.eqb name "NotBeforeError"
  | _ => false
  end.

(** How [validateToken] hands over: [next()] with [req.user] set, or
    [next(error)]. *)
Inductive handover : Type :=
| Next (user : jsval)
| NextError (e : thrown).

Section Middleware.

(** [jwt.verify(token, SECRET_KEY)] as a promise. *)
Variable verifyAsync : string -> completion jsval.

(** [authHeader.split(" ")[1]] *)
Definition tokenOf (authHeader : string) : option string :=
  nth_error (Text.split " " authHeader) 1.

Definition isEmptyText (s : string) : bool := String.eqb s EmptyString.

(** The [try] block of [validateToken]. *)
Definition authenticate (authorization : option string) : completion jsval :=
  match authorization with
  | None => Throw (AppError "Authorization header is missing" 401)
  | Some authHeader =>
      if isEmptyText authHeader then Throw (AppError "Authorization header is missing" 401)
      else
        match tokenOf authHeader with
        | None => Throw (AppError "Token is missing" 401)
        | Some token =>
            if isEmptyText token then Throw (AppError "Token is missing" 401)
            else verifyAsync token
        end
  end.

(** [validateToken], from the [authorization] header of the request. *)
Definition validateToken (authorization : option string) : handover :=
  match authenticate authorization with
  | Return decoded => Next decoded
  | Throw error =>
      if isJsonWebTokenError error then NextError (AppError "Invalid token" 403)
      else if instanceofAppError error then NextError error
      else NextError (AppError "Authentication failed" 500)
  end.

End Middleware.

End AuthMiddleware.

(** ** syncOrchestrator.ts *)

Module SyncOrchestrator.
Import Js DataSynchronizer.
Local Open Scope js_scope.

(** [class SyncQueue] *)
Module SyncQueue.

Definition t : Type := list jsval.

Definition enqueue (item : jsval) (queue : t) : t := queue ++ [item].

(** [queue.shift()]: the first item, [undefined] on an empty queue. *)
Definition dequeue (queue : t) : jsval * t :=
  match queue with
  | [] => (JUndefined, [])
  | item :: rest => (item, rest)
  end.

Definition isEmpty (queue : t) : bool :=
  match queue with
  | [] => true
  | _ => false
  end.

End SyncQueue.

(** [const { accessToken, type, data } = v]: destructuring [null] or
    [undefined] throws. *)
Definition destructure {S} (v : jsval) (first : string) : M S unit :=
  match v with
  | JUndefined | JNull =>
      throw (TypeError ("Cannot destructure property '" ++ first ++ "' of the value"))
  | _ => ret tt
  end.

(** [v.k] once [v] is known to be readable. *)
Definition field (v : jsval) (k : string) : jsval :=
  match v with
  | JObj props => lookup k props
  | _ => JUndefined
  end.

Section Router.

(** The state of the services, and the result type of a synchronization. *)
Variable State : Type.
Variable Result : Type.
(** The text a template literal makes of a value. *)
Variable toText : jsval -> string.
(** [new DataSynchronizer(accessToken, ...).syncData(endpoint, data, method)]
    and [.syncLivePhoto(photo, video)]. *)
Variable syncData : jsval -> string -> jsval -> string -> M State Result.
Variable syncLivePhoto : jsval -> jsval -> jsval -> M State Result.

(** [processTask] *)
Definition processTask (task : jsval) : M State Result :=
  destructure task "accessToken" ;;;
  let accessToken := field task "accessToken" in
  let type := field task "type" in
  let data := field task "data" in
  match type with
  | JStr kind =>
      if String.eqb kind "drive" then
        path <- getProp data "path" ;;
        content <- getProp data "content" ;;
        syncData accessToken ("webdav.icloud.com" ++ toText path) content "PUT"
      else if String.eqb kind "photo" then
        syncData accessToken "photos.icloud.com/upload" data "POST"
      else if String.eqb kind "contact" then
        contactId <- getProp data "id" ;;
        syncData accessToken ("contacts.icloud.com/" ++ toText contactId) data "PUT"
      else if String.eqb kind "live-photo" then
        photo <- getProp data "photo" ;;
        video <- getProp data "video" ;;
        syncLivePhoto accessToken photo video
      else throw (AppError "Unknown sync type" 400)
  | _ => throw (AppError "Unknown sync type" 400)
  end.

(** The queue of the router and the state of the services. *)
Record router : Type := { queue : SyncQueue.t; services : State }.

Definition onServices {A} (c : M State A) : M router A :=
  Lens.zoom services (fun s r => {| queue := queue r; services := s |}) c.

(** An entry of [processingResults]. *)
Inductive processed : Type :=
| Succeeded (task : jsval) (result : Result)
| Failed (task : jsval) (error : string).

(** [res.status(code).json({ success, message, results })] *)
Record reply : Type := {
  code : Z;
  success : bool;
  message : string;
  results : list processed
}.

(** [POST /enqueue] *)
Definition postEnqueue (body : jsval) : M router reply :=
  destructure body "accessToken" ;;;
  let task := JObj [("accessToken", field body "accessToken");
                    ("type", field body "type");
                    ("data", field body "data")] in
  modify (fun r => {| queue := SyncQueue.enqueue task (queue r); services := services r |}) ;;;
  ret {| code := 200; success := true; message := "Sync task enqueued"; results := [] |}.

(** The loop [while (!syncQueue.isEmpty())] of [GET /process-queue]; [fuel]
    bounds its iterations, and the handler passes the length of the queue,
    each iteration taking one task off it. *)
Fixpoint processLoop (fuel : nat) (processingResults : list processed)
    : M router (list processed) :=
  match fuel with
  | 0 => ret processingResults
  | S fuel' =>
      empty <- gets (fun r => SyncQueue.isEmpty (queue r)) ;;
      if empty then ret processingResults
      else
        task <- (fun r => let (item, rest) := SyncQueue.dequeue (queue r) in
                          (Return item, {| queue := rest; services := services r |})) ;;
        outcome <- attempt (onServices (processTask task)) ;;
        match outcome with
        | Return result => processLoop fuel' (processingResults ++ [Succeeded task result])
        | Throw error =>
            processLoop fuel'
              (processingResults
               ++ [Failed task (if instanceofError error then Js.message error
                                else "An unknown error occurred")])
        end
  end.

(** [GET /process-queue] *)
Definition getProcessQueue : M router reply :=
  pending <- gets (fun r => List.length (queue r)) ;;
  processingResults <- processLoop pending [] ;;
  ret {| code := 200; success := true; message := "Queue processed";
         results := processingResults |}.

End Router.

Arguments Succeeded {Result} task result.
Arguments Failed {Result} task error.
Arguments queue {State} r.
Arguments services {State} r.
Arguments code {Result} r.
Arguments success {Result} r.
Arguments message {Result} r.
Arguments results {Result} r.

End SyncOrchestrator.

(** ** iCloudService.ts *)

Module ICloudService.
Import Js DataSynchronizer.
Local Open Scope js_scope.

(** [for (const x of v)]: an array gives its elements, a string its
    characters, nothing else of plain data can be iterated. *)
Definition iterate {S} (v : jsval) : M S (list jsval) :=
  match v with
  | JArr elems => ret elems
  | JStr s => ret (AppleMetadataService.chars s)
  | _ => throw (TypeError "contacts is not iterable")
  end.

Fixpoint forEach {S A} (l : list A) (f : A -> M S unit) : M S unit :=
  match l with
  | [] => ret tt
  | x :: tl => f x ;;; forEach tl f
  end.

(** A [SyncResult] as the plain data it is. *)
Definition resultValue (r : SyncResult) : jsval :=
  JObj [("results", JArr (results r));
        ("errors", JArr (map (fun entry => JObj [("id", id entry); ("error", JStr (error entry))])
                             (errors r)))].

(** What [errorHandler] sends for [new AppError(message, 500)]. *)
Definition failed (message : string) : ErrorHandler.reply :=
  ErrorHandler.errorHandler (ErrorHandler.newAppError message 500 None None).

Section Routes.

Variable State : Type.
Variable toText : jsval -> string.
(** [new DataSynchronizer(accessToken, ...).syncData(endpoint, data, method)] *)
Variable syncData : jsval -> string -> jsval -> string -> M State SyncResult.

(** The body of the loop over the contacts. *)
Definition syncContact (accessToken contact : jsval) : M State unit :=
  contactId <- getProp contact "id" ;;
  syncData accessToken ("contacts.icloud.com/" ++ toText contactId) contact "PUT" ;;;
  ret tt.

(** [POST /contacts/sync] *)
Definition postContactsSync (body : jsval) : M State ErrorHandler.reply :=
  SyncOrchestrator.destructure body "accessToken" ;;;
  let accessToken := SyncOrchestrator.field body "accessToken" in
  let contacts := SyncOrchestrator.field body "contacts" in
  tryCatch
    (items <- iterate contacts ;;
     forEach items (syncContact accessToken) ;;;
     ret {| ErrorHandler.code := 200;
            ErrorHandler.body := JObj [("success", JBool true);
                                       ("message", JStr "Contacts sync initiated")] |})
    (fun _ => ret (failed "Failed to sync contacts to iCloud")).

End Routes.

Section Downloads.

(** The synchronizer of [DataSynchronizer.ts] and the metadata service. *)
Variable JSON_stringify : jsval -> option string.
Variable server : list request -> request -> fetched.
Variable convertToAppleMetadata : jsval -> completion jsval.
Variable writeFails : jsval -> bool.
Variable storagePath : string.
Variable pathJoin : string -> string -> string.
Variable JSON_parse : jsval -> completion jsval.

(** A query parameter: a string when given once, [None] standing for
    anything else. *)
Definition query : Type := option string.

(** [GET /drive/download] *)
Definition getDriveDownload (accessToken filePath : query)
    : M Delegation.site ErrorHandler.reply :=
  match accessToken, filePath with
  | Some token, Some path =>
      tryCatch
        (response <- Delegation.onNet
                       (DataSynchronizer.syncData token JSON_stringify server
                          convertToAppleMetadata writeFails
                          ("webdav.icloud.com" ++ path) JNull "GET") ;;
         (* [response.id]: a [SyncResult] has no such field *)
         metadata <- Delegation.onDisk
                       (AppleMetadataService.getMetadata storagePath pathJoin JSON_parse
                          "undefined") ;;
         ret {| ErrorHandler.code := 200;
                ErrorHandler.body :=
                  AppleMetadataService.spread (resultValue response)
                    (JObj [("metadata", metadata)]) |})
        (fun _ => ret (failed "Failed to download from iCloud Drive"))
  | _, _ =>
      ret (ErrorHandler.errorHandler (ErrorHandler.newAppError "Invalid parameters" 400 None None))
  end.

End Downloads.

End ICloudService.

(** ** Vocabulary of the statements about back-off and batches *)

Module DispatchSpec.
Import Js DataSynchronizer.

(** The delay slept after the failed attempt number [i], counted from 0. *)
Definition backoff (i : nat) : Z := (INITIAL_BACKOFF * 2 ^ Z.of_nat i)%Z.

(** A record with no metadata to persist. *)
Definition plain (item : jsval) : bool :=
  match item with
  | JUndefined | JNull => false
  | JObj props => negb (truthy (lookup "metadata" props))
  | _ => true
  end.

(** An endpoint that answers every call with a success status and a body
    that parses. *)
Definition cooperative (server : list request -> request -> fetched) : Prop :=
  forall history req, exists r payload,
    server history req = Responded r /\ ok r = true /\ json r = Return payload.

(** What a step leaves alone: the network log and the delays slept. *)
Definition quiet {A} (t : M world A) : Prop :=
  forall w, requests (snd (t w)) = requests w /\ sleeps (snd (t w)) = sleeps w.

(** The world after the calls [reqs], with nothing else changed. *)
Definition logged (w : world) (reqs : list request) : world :=
  {| requests := requests w ++ reqs; sleeps := sleeps w; savedMetadata := savedMetadata w |}.

End DispatchSpec.

(** ** Vocabulary of the statements about metadata *)

Module MetadataSpec.
Import Js DataSynchronizer AppleMetadataService.

Section Collaborators.

Variable dateTime : jsval -> option Z.
Variable isoString : Z -> string.
Variable JSON_stringify : jsval -> option string.
Variable JSON_parse : jsval -> completion jsval.

(** A date text in the form [toISOString] writes, with its time value. *)
Definition canonical (text : string) (time : Z) : Prop :=
  dateTime (JStr text) = Some time /\
  dateTime (JNum time) = Some time /\
  isoString time = text.

(** A value that [JSON.parse] reads back from what [JSON.stringify] wrote. *)
Definition survivesJSON (v : jsval) : Prop :=
  exists text,
    JSON_stringify v = Some text /\ text <> EmptyString /\
    JSON_parse (JStr text) = Return v.

End Collaborators.

(** The metadata with its icon emptied. *)
Definition withoutIcon (m : AppleMetadata) : AppleMetadata :=
  {| creationDate := creationDate m;
     modificationDate := modificationDate m;
     label := label m;
     tags := tags m;
     uti := uti m;
     quarantineAttribute := quarantineAttribute m;
     customIcon := [];
     finderFlags := finderFlags m;
     acl := acl m;
     spotlightComments := spotlightComments m;
     contentCreationDate := contentCreationDate m;
     customMetadata := customMetadata m |}.

(** [k in obj] on the own properties. *)
Definition hasKey (k : string) (props : list (string * jsval)) : bool :=
  existsb (fun entry => String.eqb k (fst entry)) props.

End MetadataSpec.

Module MetadataScenario.
Import Js DataSynchronizer AppleMetadataService.

(** [n] in decimal, padded with zeros to [width] digits. *)
Definition pad (width : nat) (n : Z) : string :=
  let digits := decimalN (Z.to_N n) in
  (String.concat EmptyString (repeat "0" (width - String.length digits)) ++ digits)%string.

(** The date of the proleptic Gregorian calendar, from the days since 1970-01-01. *)
Definition civilFromDays (days : Z) : Z * Z * Z :=
  let z := (days + 719468)%Z in
  let era := (z / 146097)%Z in
  let doe := (z - era * 146097)%Z in
  let yoe := ((doe - doe / 1460 + doe / 36524 - doe / 146096) / 365)%Z in
  let doy := (doe - (365 * yoe + yoe / 4 - yoe / 100))%Z in
  let mp := ((5 * doy + 2) / 153)%Z in
  let d := (doy - (153 * mp + 2) / 5 + 1)%Z in
  let m := if (mp <? 10)%Z then (mp + 3)%Z else (mp - 9)%Z in
  let y := (yoe + era * 400 + (if (m <=? 2)%Z then 1 else 0))%Z in
  (y, m, d).

(** [toISOString] for the years 0000 to 9999. *)
Definition isoString (time : Z) : string :=
  let ms := (time mod 86400000)%Z in
  let '(y, m, d) := civilFromDays (time / 86400000) in
  (pad 4 y ++ "-" ++ pad 2 m ++ "-" ++ pad 2 d ++ "T"
   ++ pad 2 (ms / 3600000) ++ ":" ++ pad 2 (ms / 60000 mod 60) ++ ":"
   ++ pad 2 (ms / 1000 mod 60) ++ "." ++ pad 3 (ms mod 1000) ++ "Z")%string.

(** A reader of [YYYY-MM-DDTHH:MM:SS.sssZ], the form [isoString] writes. *)
Definition parseIso (text : string) : option Z :=
  if negb (String.length text =? 24)%nat then None
  else if negb (String.eqb (substring 19 1 text) ".") then None
  else
    match ConflictScenario.parseUtc (substring 0 19 text ++ "Z"),
          ConflictScenario.number 0 (substring 20 3 text) with
    | Some seconds, Some ms => Some (seconds + ms)%Z
    | _, _ => None
    end.

(** A clock standing for [new Date(v).getTime()] in the concrete runs: it
    takes a number for the time value, reads the two ISO forms of the test
    records and takes any other text for an invalid date. *)
Definition dateTime (v : jsval) : option Z :=
  match v with
  | JNum t => Some t
  | JNull => Some 0%Z
  | JBool b => Some (if b then 1 else 0)%Z
  | JStr text =>
      match parseIso text with
      | Some t => Some t
      | None => ConflictScenario.parseUtc text
      end
  | _ => None
  end.

(** A reader standing for [JSON.parse] in the concrete runs: it knows the
    texts of the values listed in [known] and rejects any other. *)
Definition parseAmong (known : list jsval) (v : jsval) : completion jsval :=
  match v with
  | JStr text =>
      match find (fun candidate => String.eqb (Scenario.render candidate) text) known with
      | Some candidate => Return candidate
      | None => Throw (JsError "SyntaxError" "Unexpected token in JSON")
      end
  | _ => Throw (JsError "SyntaxError" "Unexpected token in JSON")
  end.

(** The sample of the metadata tests, its dates written as [toISOString]
    writes them. *)
Definition sampleMetadata : AppleMetadata :=
  {| creationDate := "2023-07-03T12:00:00.000Z";
     modificationDate := "2023-07-03T13:00:00.000Z";
     label := "Test Label";
     tags := ["tag1"; "tag2"];
     uti := "test-uti";
     quarantineAttribute := "test-quarantine";
     customIcon := LivePhoto.bytesOf "test-icon";
     finderFlags := 1;
     acl := ["user1"; "user2"];
     spotlightComments := "Test comment";
     contentCreationDate := "2023-07-03T11:00:00.000Z";
     customMetadata := JObj [("key", JStr "value")] |}.

Definition sampleJSON : list jsval :=
  [JArr [JStr "user1"; JStr "user2"]; JObj [("key", JStr "value")]].

(** Metadata that names no creation date. *)
Definition undated : jsval := JObj [("label", JStr "Holiday")].

(** A flat file store and the documents kept in it. *)
Definition flatJoin (dir name : string) : string := (dir ++ "/" ++ name)%string.

Definition noDenial (_ : string) : bool := false.

Definition storedLabel : jsval := JObj [("label", JStr "Old"); ("tags", JArr [JStr "tag1"; JStr "tag2"])].
Definition labelUpdate : jsval := JObj [("tags", JArr [JStr "newTag"])].

Definition documents : list jsval :=
  [ storedLabel; labelUpdate;
    JObj [("label", JStr "Old"); ("tags", JArr [JStr "newTag"])] ].

Definition emptyDisk : LivePhoto.disk := {| LivePhoto.files := []; LivePhoto.clock := 1700000000000%N |}.

(** The store after [storedLabel] has been saved for [file-1]. *)
Definition library : LivePhoto.disk :=
  snd (saveMetadata "/storage" flatJoin Scenario.stringify noDenial "file-1" storedLabel
         emptyDisk).

(** The converter of the service, with the collaborators above. *)
Definition appleConverter : jsval -> completion jsval :=
  convertToAppleMetadata dateTime isoString (parseAmong sampleJSON).

(** A record whose metadata cannot be converted. *)
Definition undatedRecord : list (string * jsval) :=
  [("id", JStr "file-1"); ("metadata", undated)].

(** Android metadata with its two dates and an [acl] that is not JSON. *)
Definition unparsableAcl : list (string * jsval) :=
  [("dateCreated", JNum 1688385600000); ("dateModified", JNum 1688389200000);
   ("acl", JStr "user1,user2")].

(** Android metadata with its two dates and nothing else. *)
Definition datedOnly : list (string * jsval) :=
  [("dateCreated", JNum 1688385600000); ("dateModified", JNum 1688389200000)].

End MetadataScenario.

(** ** Further inputs of the motion-photo and WebDAV runs *)

Module PhotoEdges.
Import Js DataSynchronizer LivePhoto.


Definition entry (name : string) : jsval :=
  JObj [("filename", JStr name); ("type", JStr "file")].

(** A WebDAV client that answers a listing with a detailed response and an
    upload with [false]. *)
Definition detailedClient (_ : list WebDAVService.call) (c : WebDAVService.call)
    : completion WebDAVService.reply :=
  match c with
  | WebDAVService.GetDirectoryContents _ =>
      Return (WebDAVService.Value
                (JObj [("data", JArr [entry "/a.txt"; entry "/b.txt"]);
                       ("headers", JObj []); ("status", JNum 207)]))
  | WebDAVService.PutFileContents _ _ => Return (WebDAVService.Value (JBool false))
  | _ => Throw (Error "Not supported")
  end.

Definition quay : WebDAVService.station :=
  {| WebDAVService.local := PhotoScenario.camera; WebDAVService.traffic := [] |}.

End PhotoEdges.

(** ** Vocabulary of the statements about the edges of the merge *)

Module MergeEdges.
Import ConflictResolution.

(** What [...v] accepts inside an array literal: an array or a string. *)
Definition iterable (h : heap) (v : value) : bool :=
  match v with
  | VStr _ => true
  | _ => isArray h v
  end.

(** Local [{ id: "1", tags: ["a"] }] at address 0, cloud [{ id: "1" }] at
    address 2: the cloud record has no [tags]. *)
Definition tagsOnlyLocal : heap :=
  [ HObj [("id", VStr "1"); ("tags", VRef 1)];
    HArr [VStr "a"];
    HObj [("id", VStr "1")] ].

End MergeEdges.

(** ** Vocabulary of the statements about the delegating methods *)

Module DelegationSpec.
Import Js DataSynchronizer Delegation.

(** The site after the delays [delays] have been slept. *)
Definition asleep (s : site) (delays : list Z) : site :=
  {| net := {| requests := requests (net s);
               sleeps := sleeps (net s) ++ delays;
               savedMetadata := savedMetadata (net s) |};
     storage := storage s;
     memory := memory s;
     traffic := traffic s |}.

(** The site after the network calls [reqs]. *)
Definition called (s : site) (reqs : list request) : site :=
  {| net := DispatchSpec.logged (net s) reqs;
     storage := storage s;
     memory := memory s;
     traffic := traffic s |}.

(** A response body from which no live photo can be made: no first result,
    or one without a [jpeg] or a [mov]. *)
Definition incomplete (payload : jsval) : bool :=
  match asArray payload with
  | [] => true
  | first :: _ =>
      negb (SyncSpec.readable first)
      || negb (truthy (SyncOrchestrator.field first "jpeg"))
      || negb (truthy (SyncOrchestrator.field first "mov"))
  end.

(** The four delays of an operation that fails [MAX_RETRIES] times. *)
Definition fullBackoff : list Z := [1000; 2000; 4000; 8000]%Z.

(** A site with nothing on it but the given files and records. *)
Definition siteOf (d : LivePhoto.disk) (h : ConflictResolution.heap) : site :=
  {| net := emptyWorld; storage := d; memory := h; traffic := [] |}.

End DelegationSpec.

(** ** Vocabulary of the statements about the routes *)

Module RouteSpec.
Import Js DataSynchronizer.

(** The task an entry of the processing results is about. *)
Definition taskOf {Result} (entry : SyncOrchestrator.processed Result) : jsval :=
  match entry with
  | SyncOrchestrator.Succeeded task _ => task
  | SyncOrchestrator.Failed task _ => task
  end.

(** The sync types [processTask] knows. *)
Definition knownType (kind : string) : bool :=
  String.eqb kind "drive" || String.eqb kind "photo" || String.eqb kind "contact"
  || String.eqb kind "live-photo".

(** A task whose [type] is none of them. *)
Definition unknownTask (task : jsval) : bool :=
  match SyncOrchestrator.field task "type" with
  | JStr kind => negb (knownType kind)
  | _ => true
  end.

(** The task [POST /enqueue] makes of a request body. *)
Definition taskFrom (body : jsval) : jsval :=
  JObj [("accessToken", SyncOrchestrator.field body "accessToken");
        ("type", SyncOrchestrator.field body "type");
        ("data", SyncOrchestrator.field body "data")].

(** What the handler records for a task, from how [processTask] ended. *)
Definition recorded {Result} (task : jsval) (outcome : completion Result)
    : SyncOrchestrator.processed Result :=
  match outcome with
  | Return result => SyncOrchestrator.Succeeded task result
  | Throw error =>
      SyncOrchestrator.Failed task
        (if instanceofError error then Js.message error else "An unknown error occurred")
  end.

(** One [POST /enqueue] per body, in order. *)
Definition enqueueAll {State} (Result : Type) (bodies : list jsval)
    : M (SyncOrchestrator.router State) unit :=
  ICloudService.forEach bodies
    (fun body => Js.bind (SyncOrchestrator.postEnqueue State Result body)
                   (fun _ => Js.ret tt)).

End RouteSpec.

Module RouteScenario.
Import Js DataSynchronizer.

(** A verifier standing for [jwt.verify] in the concrete runs: it knows one
    token. *)
Definition verifyKnown (token : string) : completion jsval :=
  if String.eqb token "good" then Return (JObj [("userId", JStr "u1")])
  else Throw (JsError "JsonWebTokenError" "invalid signature").

(** A synchronizer standing for the [DataSynchronizer] in the concrete runs
    of the routes: it logs the endpoint of each call and fails on the contact
    [c2]. *)
Definition loggingSync (_ : jsval) (endpoint : string) (_ : jsval) (_ : string)
    : M (list string) SyncResult :=
  fun log =>
    if String.eqb endpoint "contacts.icloud.com/c2"
    then (Throw (AppError "Failed to sync data" 500), log ++ [endpoint])
    else (Return {| results := []; errors := [] |}, log ++ [endpoint]).

Definition loggingLivePhoto (_ _ _ : jsval) : M (list string) SyncResult :=
  fun log => (Return {| results := []; errors := [] |}, log ++ ["live-photo"]).

(** The text of a string value, which is all the concrete runs put in a
    template literal. *)
Definition textOf (v : jsval) : string :=
  match v with
  | JStr s => s
  | _ => "undefined"
  end.

Definition contact (name : string) : jsval := JObj [("id", JStr name)].

(** Two request bodies of [POST /enqueue]: a drive task and one of a type
    the orchestrator does not know. *)
Definition driveBody : jsval :=
  JObj [("accessToken", JStr "test-token"); ("type", JStr "drive");
        ("data", JObj [("id", JStr "f1")])].

Definition calendarBody : jsval :=
  JObj [("accessToken", JStr "test-token"); ("type", JStr "calendar");
        ("data", JObj [("id", JStr "e1")])].

End RouteScenario.


(** * Properties of the dispatcher *)

Section DispatcherFacts.
Import Js DataSynchronizer SyncSpec.
Local Open Scope js_scope.

Variable accessToken : string.
Variable JSON_stringify : jsval -> option string.
Variable server : list request -> request -> fetched.
Variable convertToAppleMetadata : jsval -> completion jsval.
Variable writeFails : jsval -> bool.

Local Abbreviation fetchWithTimeout := (DataSynchronizer.fetchWithTimeout server).
Local Abbreviation persistMetadata :=
  (DataSynchronizer.persistMetadata convertToAppleMetadata writeFails).
Local Abbreviation mkRequest := (DataSynchronizer.mkRequest accessToken JSON_stringify).
Local Abbreviation singleSync :=
  (DataSynchronizer.singleSync accessToken JSON_stringify server convertToAppleMetadata
     writeFails).
Local Abbreviation batchLoop :=
  (DataSynchronizer.batchLoop accessToken JSON_stringify server convertToAppleMetadata
     writeFails).
Local Abbreviation batchSync :=
  (DataSynchronizer.batchSync accessToken JSON_stringify server convertToAppleMetadata
     writeFails).
Local Abbreviation syncData :=
  (DataSynchronizer.syncData accessToken JSON_stringify server convertToAppleMetadata
     writeFails).

(** *** Network log *)

Lemma fetchWithTimeout_log (req : request) (w : world) :
  requests (snd (fetchWithTimeout req w)) = requests w ++ [req].
Proof.
  unfold DataSynchronizer.fetchWithTimeout, tryCatch, fetch.
  destruct (server (requests w) req) as [e | r]; simpl; [ | reflexivity].
  destruct (instanceofError e && String.eqb (errorName e) "AbortError"); reflexivity.
Qed.

(** A retried operation that logs between [lo] and [hi] copies of one request
    per run logs at most [remaining * hi] copies, and at least [lo] when it
    runs at all. *)
Lemma retryFrom_log {A} (operation : M world A) (req : request) (lo hi : nat) :
  (forall w, exists k, lo <= k <= hi /\
     requests (snd (operation w)) = requests w ++ repeat req k) ->
  forall retries remaining w, exists k,
    (1 <= remaining -> lo <= k) /\ k <= remaining * hi /\
    requests (snd (retryFrom operation retries remaining w)) = requests w ++ repeat req k.
Proof.
  intros Hop retries remaining.
  induction remaining as [ | remaining IH]; intros w.
  - exists 0. simpl. rewrite app_nil_r. repeat split; lia.
  - destruct (Hop w) as (k1 & Hk1 & Hlog1).
    cbn [retryFrom]. unfold tryCatch.
    destruct (operation w) as [[a | e] w1] eqn:Hrun; simpl in Hlog1.
    + exists k1. simpl. repeat split; try lia. exact Hlog1.
    + destruct (retries - S remaining =? retries - 1)%nat.
      * exists k1. simpl. repeat split; try lia. exact Hlog1.
      * unfold bind, sleep, modify.
        match goal with
        | |- context [retryFrom operation retries remaining ?w2] =>
            destruct (IH w2) as (k2 & Hlo2 & Hk2 & Hlog2)
        end.
        exists (k1 + k2). repeat split; try lia.
        rewrite Hlog2. cbn [requests]. rewrite Hlog1, repeat_app, app_assoc. reflexivity.
Qed.

Lemma persistMetadata_log (item : jsval) (w : world) :
  requests (snd (persistMetadata item w)) = requests w.
Proof.
  unfold DataSynchronizer.persistMetadata, bind, getProp, lift, saveMetadata.
  destruct item; simpl; try reflexivity.
  destruct (truthy (lookup "metadata" props)); simpl; [ | reflexivity].
  destruct (convertToAppleMetadata (lookup "metadata" props)); simpl; [ | reflexivity].
  destruct (writeFails (lookup "id" props)); reflexivity.
Qed.

Lemma promiseAll_log {A} (tasks : list (M world A)) :
  Forall (fun t => forall w, requests (snd (t w)) = requests w) tasks ->
  forall w, requests (snd (promiseAll tasks w)) = requests w.
Proof.
  induction 1 as [ | t tl Ht _ IH]; intros w; simpl; [reflexivity | ].
  specialize (Ht w). destruct (t w) as [r w1]. simpl in Ht.
  specialize (IH w1). destruct (promiseAll tl w1) as [rs w2]. simpl in IH.
  destruct r, rs; simpl; congruence.
Qed.

Lemma persistAll_log (items : list jsval) (w : world) :
  requests (snd (promiseAll (map persistMetadata items) w)) = requests w.
Proof.
  apply promiseAll_log. apply Forall_forall. intros t Hin.
  apply in_map_iff in Hin. destruct Hin as (item & <- & _).
  apply persistMetadata_log.
Qed.

(** One [singleSync] makes between one and [MAX_RETRIES] calls, all with the
    request built from its arguments. *)
Lemma singleSync_log (endpoint : string) (data : jsval) (method : string) (w : world) :
  exists k, 1 <= k <= MAX_RETRIES /\
    requests (snd (singleSync endpoint data method w))
    = requests w ++ repeat (mkRequest endpoint data method) k.
Proof.
  destruct (retryFrom_log (fetchWithTimeout (mkRequest endpoint data method))
              (mkRequest endpoint data method) 1 1) with
    (retries := MAX_RETRIES) (remaining := MAX_RETRIES) (w := w) as (k & Hlo & Hhi & Hlog).
  { intros w0. exists 1. split; [lia | apply fetchWithTimeout_log]. }
  exists k. split; [unfold MAX_RETRIES in *; lia | ].
  unfold DataSynchronizer.singleSync, tryCatch, bind, retryOperation.
  destruct (retryFrom _ _ _ w) as [[resp | e] w1]; simpl in Hlog; simpl; [ | exact Hlog].
  destruct (ok resp); simpl; [ | exact Hlog].
  unfold lift. destruct (json resp) as [payload | e]; simpl; [ | exact Hlog].
  destruct data; simpl;
    try (pose proof (persistMetadata_log JUndefined w1) as Hp; simpl in Hp; exact Hlog).
  all: try (match goal with
            | |- context [DataSynchronizer.persistMetadata _ _ ?item ?w0] =>
                pose proof (persistMetadata_log item w0) as Hp;
                destruct (DataSynchronizer.persistMetadata _ _ item w0) as [[[] | e] w2];
                simpl in *; congruence
            end).
  pose proof (persistAll_log elems w1) as Hp.
  destruct (promiseAll _ w1) as [[l | e] w2]; simpl in *; congruence.
Qed.


(** *** Failures *)

(** Whatever goes wrong inside [singleSync], its caller sees the same
    generic error. *)
Lemma singleSync_throws (endpoint : string) (data : jsval) (method : string)
    (w w' : world) (e : thrown) :
  singleSync endpoint data method w = (Throw e, w') -> e = syncFailure.
Proof.
  unfold DataSynchronizer.singleSync, tryCatch, throw.
  match goal with |- context [match ?c w with _ => _ end] => destruct (c w) as [[a | e0] w1] end;
    intros H; inversion H; reflexivity.
Qed.

(** With at least one iteration to run, an exception leaving [retryFrom] was
    thrown by the operation itself. *)
Lemma retryFrom_throws {A} (operation : M world A) (retries remaining : nat)
    (w w' : world) (e : thrown) :
  1 <= remaining <= retries ->
  retryFrom operation retries remaining w = (Throw e, w') ->
  exists w0 w0', operation w0 = (Throw e, w0').
Proof.
  revert w. induction remaining as [ | remaining IH]; intros w Hrem; [lia | ].
  cbn [retryFrom]. unfold tryCatch.
  destruct (operation w) as [[a | e1] w1] eqn:Hrun; [discriminate | ].
  destruct (retries - S remaining =? retries - 1)%nat eqn:Hlast.
  - unfold throw. intros H. inversion H; subst. eauto.
  - apply Nat.eqb_neq in Hlast. unfold bind, sleep, modify.
    apply IH. lia.
Qed.

(** An operation that fails on every run, logging [c] copies of a request
    each time, is run exactly [remaining] times. *)
Lemma retryFrom_exhausted {A} (operation : M world A) (P : thrown -> Prop)
    (req : request) (c : nat) :
  (forall w, exists e w', operation w = (Throw e, w') /\ P e /\
     requests w' = requests w ++ repeat req c) ->
  forall retries remaining w, 1 <= remaining <= retries ->
    exists e w', retryFrom operation retries remaining w = (Throw e, w') /\ P e /\
      requests w' = requests w ++ repeat req (remaining * c).
Proof.
  intros Hop retries remaining.
  induction remaining as [ | remaining IH]; intros w Hrem; [lia | ].
  destruct (Hop w) as (e1 & w1 & Hrun & HP & Hlog1).
  cbn [retryFrom]. unfold tryCatch. rewrite Hrun.
  destruct (retries - S remaining =? retries - 1)%nat eqn:Hlast.
  - apply Nat.eqb_eq in Hlast. assert (remaining = 0) by lia. subst remaining.
    exists e1, w1. simpl. rewrite Nat.add_0_r. auto.
  - apply Nat.eqb_neq in Hlast. unfold bind, sleep, modify.
    match goal with
    | |- context [retryFrom operation retries remaining ?w2] =>
        destruct (IH w2) as (e2 & w2' & Hrun2 & HP2 & Hlog2); [lia | ]
    end.
    exists e2, w2'. rewrite Hrun2. repeat split; auto.
    rewrite Hlog2. cbn [requests]. rewrite Hlog1. simpl.
    rewrite repeat_app, app_assoc. reflexivity.
Qed.

(** Against an endpoint whose every call is rejected, [singleSync] spends
    its [MAX_RETRIES] calls and fails. *)
Lemma singleSync_dead_endpoint (endpoint : string) (data : jsval) (method : string) :
  (forall history req, exists e, server history req = Rejected e) ->
  forall w, exists w',
    singleSync endpoint data method w = (Throw syncFailure, w') /\
    requests w' = requests w ++ repeat (mkRequest endpoint data method) MAX_RETRIES.
Proof.
  intros Hdead w.
  destruct (retryFrom_exhausted (fetchWithTimeout (mkRequest endpoint data method))
              (fun _ => True) (mkRequest endpoint data method) 1) with
    (retries := MAX_RETRIES) (remaining := MAX_RETRIES) (w := w)
    as (e & w' & Hrun & _ & Hlog).
  - intros w0. unfold DataSynchronizer.fetchWithTimeout, tryCatch, fetch.
    destruct (Hdead (requests w0) (mkRequest endpoint data method)) as (e0 & ->).
    destruct (instanceofError e0 && String.eqb (errorName e0) "AbortError");
      unfold throw; eexists _, _; repeat split; reflexivity.
  - unfold MAX_RETRIES; lia.
  - exists w'. unfold DataSynchronizer.singleSync, tryCatch, bind, retryOperation.
    rewrite Hrun. simpl. rewrite Hlog, Nat.mul_1_r. auto.
Qed.

(** The retry that [batchSync] wraps around [singleSync] multiplies them. *)
Lemma batch_dead_endpoint (endpoint : string) (data : jsval) (method : string) :
  (forall history req, exists e, server history req = Rejected e) ->
  forall w, exists w',
    retryOperation (singleSync endpoint data method) MAX_RETRIES w
      = (Throw syncFailure, w') /\
    requests w' = requests w
                  ++ repeat (mkRequest endpoint data method) (MAX_RETRIES * MAX_RETRIES).
Proof.
  intros Hdead w.
  destruct (retryFrom_exhausted (singleSync endpoint data method)
              (fun e => e = syncFailure) (mkRequest endpoint data method) MAX_RETRIES) with
    (retries := MAX_RETRIES) (remaining := MAX_RETRIES) (w := w)
    as (e & w' & Hrun & -> & Hlog).
  - intros w0. destruct (singleSync_dead_endpoint endpoint data method Hdead w0)
      as (w0' & Hrun & Hlog). eauto.
  - unfold MAX_RETRIES; lia.
  - exists w'. auto.
Qed.


(** *** The batched path *)

Lemma failureOf_readable (e : thrown) (item : jsval) (w : world) :
  readable item = true ->
  failureOf e item w
  = (Return {| id := idOf item;
               error := if instanceofError e then message e
                        else "Unknown error while syncing batch" |}, w).
Proof. destruct item; intros H; try discriminate; reflexivity. Qed.

Lemma mapM_failureOf (e : thrown) (batch : list jsval) (w : world) :
  forallb readable batch = true ->
  mapM (failureOf e) batch w = (Return (errors (contribution batch (Throw e))), w).
Proof.
  induction batch as [ | item batch IH]; intros H; [reflexivity | ].
  simpl in H. apply andb_true_iff in H. destruct H as [Hitem Hrest].
  cbn [mapM]. unfold bind at 1. rewrite (failureOf_readable e item w Hitem).
  unfold bind at 1. rewrite (IH Hrest). reflexivity.
Qed.

Lemma forallb_firstn {A} (p : A -> bool) (n : nat) :
  forall l, forallb p l = true -> forallb p (firstn n l) = true.
Proof.
  induction n as [ | n IH]; intros [ | x l] H; simpl in *; auto.
  apply andb_true_iff in H. destruct H as [Hx Hl]. rewrite Hx. simpl. auto.
Qed.

Lemma forallb_skipn {A} (p : A -> bool) (n : nat) :
  forall l, forallb p l = true -> forallb p (skipn n l) = true.
Proof.
  induction n as [ | n IH]; intros [ | x l] H; simpl in *; auto.
  apply andb_true_iff in H. destruct H as [_ Hl]. auto.
Qed.

Lemma forallb_slice {A} (p : A -> bool) (l : list A) (i j : nat) :
  forallb p l = true -> forallb p (slice l i j) = true.
Proof. intros H. unfold slice. apply forallb_firstn, forallb_skipn, H. Qed.

(** The loop of [batchSync] adds, batch after batch, the contribution of each
    slice it visits. *)
Lemma batchLoop_accounts (endpoint : string) (data : list jsval) (method : string) :
  forallb readable data = true ->
  forall fuel i acc w, exists verdicts w',
    batchLoop fuel endpoint data method i acc w
    = (Return {| results := results acc
                   ++ flat_map results (contributions (batchesFrom fuel data i) verdicts);
                 errors := errors acc
                   ++ flat_map errors (contributions (batchesFrom fuel data i) verdicts) |},
       w') /\
    List.length verdicts = List.length (batchesFrom fuel data i) /\
    Forall (fun v => forall e, v = Throw e -> e = syncFailure) verdicts.
Proof.
  intros Hdata fuel.
  induction fuel as [ | fuel IH]; intros i acc w.
  - exists [], w. simpl. rewrite !app_nil_r. destruct acc; auto.
  - cbn [DataSynchronizer.batchLoop batchesFrom].
    destruct (i <? List.length data)%nat.
    2:{ exists [], w. simpl. rewrite !app_nil_r. destruct acc; auto. }
    set (batch := slice data i (i + BATCH_SIZE)).
    unfold bind at 1, attempt.
    destruct (retryOperation (singleSync endpoint (JArr batch) method) MAX_RETRIES w)
      as [[payload | e] w1] eqn:Hrun.
    + match goal with
      | |- context [DataSynchronizer.batchLoop _ _ _ _ _ fuel _ _ _ _ ?acc1 w1] =>
          destruct (IH (i + BATCH_SIZE) acc1 w1) as (vs & w' & Hloop & Hlen & Hvs)
      end.
      exists (Return payload :: vs), w'. rewrite Hloop. cbn -[batchesFrom].
      rewrite <- !app_assoc. repeat split; auto.
      constructor; [intros e He; discriminate | exact Hvs].
    + assert (e = syncFailure) as ->.
      { unfold retryOperation in Hrun.
        apply retryFrom_throws in Hrun; [ | unfold MAX_RETRIES; lia].
        destruct Hrun as (w0 & w0' & Hrun). eapply singleSync_throws; eauto. }
      unfold bind at 1.
      rewrite (mapM_failureOf syncFailure batch w1 (forallb_slice _ _ _ _ Hdata)).
      match goal with
      | |- context [DataSynchronizer.batchLoop _ _ _ _ _ fuel _ _ _ _ ?acc1 w1] =>
          destruct (IH (i + BATCH_SIZE) acc1 w1) as (vs & w' & Hloop & Hlen & Hvs)
      end.
      exists (Throw syncFailure :: vs), w'. rewrite Hloop. cbn -[batchesFrom].
      rewrite <- !app_assoc. repeat split; auto.
      constructor; [intros e He; congruence | exact Hvs].
Qed.

(** The slices cover the data, in order and without overlap. *)
Lemma batchesFrom_concat (data : list jsval) (fuel i : nat) :
  List.length data - i <= fuel ->
  List.concat (batchesFrom fuel data i) = skipn i data.
Proof.
  revert i. induction fuel as [ | fuel IH]; intros i Hfuel.
  - simpl. symmetry. apply skipn_all2. lia.
  - cbn [batchesFrom]. destruct (i <? List.length data)%nat eqn:Hi.
    + apply Nat.ltb_lt in Hi. cbn [List.concat]. rewrite IH by (unfold BATCH_SIZE; lia).
      unfold slice. replace (i + BATCH_SIZE - i) with BATCH_SIZE by lia.
      rewrite Nat.add_comm, <- skipn_skipn. apply firstn_skipn.
    + apply Nat.ltb_ge in Hi. simpl. symmetry. apply skipn_all2. lia.
Qed.

Lemma batchesOf_concat (data : list jsval) : List.concat (batchesOf data) = data.
Proof. unfold batchesOf. rewrite batchesFrom_concat by lia. reflexivity. Qed.



(** Whatever made a batch fail, the entries of its records carry the message
    of the error [singleSync] throws for every failure. *)
Lemma contributions_messages (batches : list (list jsval)) :
  forall verdicts,
    Forall (fun v => forall e, v = Throw e -> e = syncFailure) verdicts ->
    Forall (fun entry => error entry = "Failed to sync data")
           (flat_map errors (contributions batches verdicts)).
Proof.
  induction batches as [ | b bs IH]; intros [ | v vs] Hvs; simpl; try constructor.
  inversion Hvs as [ | v' vs' Hv Hrest]; subst.
  apply Forall_app. split; [ | apply IH; exact Hrest].
  destruct v as [payload | e]; [constructor | ].
  rewrite (Hv e eq_refl). simpl. apply Forall_forall. intros entry Hin.
  apply in_map_iff in Hin. destruct Hin as (item & <- & _). reflexivity.
Qed.

Lemma error_entries_are_generic
    (endpoint : string) (items : list jsval) (method : string) (w w' : world)
    (out : SyncResult) :
  BATCH_SIZE < List.length items ->
  forallb readable items = true ->
  syncData endpoint (JArr items) method w = (Return out, w') ->
  Forall (fun entry => error entry = "Failed to sync data") (errors out).
Proof.
  intros Hlarge Hitems Hrun.
  destruct (batchLoop_accounts endpoint items method Hitems (List.length items) 0
              {| results := []; errors := [] |} w) as (vs & w1 & Hloop & _ & Hvs).
  unfold DataSynchronizer.syncData in Hrun.
  apply Nat.ltb_lt in Hlarge. rewrite Hlarge in Hrun.
  unfold DataSynchronizer.batchSync in Hrun. rewrite Hloop in Hrun.
  injection Hrun as <- _. cbn [errors].
  apply (contributions_messages _ vs Hvs).
Qed.


(** C9 (amended).  Every network call made for a batch carries the request
    built from the batch, and that request has no body exactly when the
    method is [GET]: with any other method, [DELETE] included, the body is
    the serialized batch. *)
Theorem dispatch_body_absent_only_for_GET
    (endpoint : string) (batch : jsval) (method : string) (w : world) :
  exists k, 1 <= k <= MAX_RETRIES /\
    requests (snd (singleSync endpoint batch method w))
      = requests w ++ repeat (mkRequest endpoint batch method) k /\
    DataSynchronizer.method (mkRequest endpoint batch method) = method /\
    body (mkRequest endpoint batch method)
      = if String.eqb method "GET" then None else JSON_stringify batch.
Proof.
  destruct (singleSync_log endpoint batch method w) as (k & Hk & Hlog).
  exists k. repeat split; try lia; try exact Hlog.
  unfold DataSynchronizer.mkRequest. cbn [body].
  destruct (String.eqb method "GET"); reflexivity.
Qed.

(** C10.  On the path taken for a single record or for a collection of at
    most [BATCH_SIZE] records, [syncData] either returns an outcome whose
    [errors] list is empty or throws; an outcome with error entries comes
    from a collection of more than [BATCH_SIZE] records. *)
Theorem nonbatched_outcome_has_no_error_entries
    (endpoint : string) (data : jsval) (method : string) (w : world) :
  (nonBatched data = true ->
     (exists out w', syncData endpoint data method w = (Return out, w') /\ errors out = [])
     \/ (exists e w', syncData endpoint data method w = (Throw e, w')))
  /\
  (forall out w', syncData endpoint data method w = (Return out, w') ->
     errors out <> [] ->
     exists items, data = JArr items /\ BATCH_SIZE < List.length items).
Proof.
  assert (Hsingle :
    (exists out w', bind (singleSync endpoint data method)
        (fun result => ret {| results := asArray result; errors := [] |}) w
        = (Return out, w') /\ errors out = [])
    \/ (exists e w', bind (singleSync endpoint data method)
        (fun result => ret {| results := asArray result; errors := [] |}) w
        = (Throw e, w'))).
  { unfold bind, ret.
    destruct (singleSync endpoint data method w) as [[result | e] w1]; [left | right]; eauto. }
  split.
  - intros Hsmall. unfold DataSynchronizer.syncData.
    destruct data; try exact Hsingle.
    simpl in Hsmall. apply Nat.leb_le in Hsmall.
    destruct (BATCH_SIZE <? List.length elems)%nat eqn:Hbig; [ | exact Hsingle].
    apply Nat.ltb_lt in Hbig. lia.
  - intros out w' Hrun Herrors.
    assert (Hbatched : nonBatched data = false).
    { destruct (nonBatched data) eqn:Hsmall; [ | reflexivity]. exfalso.
      unfold DataSynchronizer.syncData in Hrun.
      assert (Hrun' : bind (singleSync endpoint data method)
                (fun result => ret {| results := asArray result; errors := [] |}) w
              = (Return out, w')).
      { destruct data; try exact Hrun.
        simpl in Hsmall. apply Nat.leb_le in Hsmall.
        destruct (BATCH_SIZE <? List.length elems)%nat eqn:Hbig; [ | exact Hrun].
        apply Nat.ltb_lt in Hbig. lia. }
      unfold bind, ret in Hrun'.
      destruct (singleSync endpoint data method w) as [[result | e] w1];
        inversion Hrun'; subst. apply Herrors. reflexivity. }
    destruct data; try discriminate.
    exists elems. split; [reflexivity | ].
    simpl in Hbatched. apply Nat.leb_gt in Hbatched. exact Hbatched.
Qed.

End DispatcherFacts.

(** *** Concrete runs of the dispatcher *)

Section DispatcherRuns.
Import Js DataSynchronizer SyncSpec Scenario.

Local Abbreviation run server :=
  (syncData "test-token" stringify server keepMetadata diskHealthy).

(** C1.  250 records, the endpoint failing with "Network error" for the
    second batch only: the outcome has the payloads of the first and third
    batches and one entry for each of the records 100..199, but every entry
    carries the generic message of [singleSync], not the message of the
    error that made the batch fail. *)
Theorem partial_failure_entries_carry_generic_message :
  fst (run secondBatchDown "test-endpoint" (JArr largeDataset) "POST" emptyWorld)
  = Return {| results := [JObj [("success", JBool true)]; JObj [("success", JBool true)]];
              errors := map (fun i => {| id := JStr ("item-" ++ decimal i);
                                         error := "Failed to sync data" |})
                            (seq 100 100) |}.
Proof. vm_compute. reflexivity. Qed.

(** C2.  Against an endpoint that rejects every call, the dispatch of one
    batch by [batchSync] makes [MAX_RETRIES * MAX_RETRIES] = 25 network calls
    before it is reported as failed; 101 records, two batches, cost 50. *)
Theorem dead_endpoint_costs_25_calls_per_batch :
  (forall endpoint batch method w, exists w',
      retryOperation (singleSync "test-token" stringify unreachable keepMetadata diskHealthy
                        endpoint (JArr batch) method) MAX_RETRIES w
        = (Throw syncFailure, w') /\
      calls w' = calls w + 25)
  /\
  (let (outcome, w') := run unreachable "test-endpoint" (JArr (dataset 101)) "POST" emptyWorld in
   calls w' = 50 /\
   exists out, outcome = Return out /\ results out = [] /\ List.length (errors out) = 101).
Proof.
  split.
  - intros endpoint batch method w.
    destruct (batch_dead_endpoint "test-token" stringify unreachable keepMetadata diskHealthy
                endpoint (JArr batch) method) with (w := w) as (w' & Hrun & Hlog).
    { intros history req. eexists. reflexivity. }
    exists w'. split; [exact Hrun | ].
    unfold calls. rewrite Hlog, length_app, repeat_length. reflexivity.
  - vm_compute. split; [reflexivity | ]. eexists. repeat split.
Qed.

(** On the path taken for at most [BATCH_SIZE] records an endpoint that
    answers every call with a failure status is called once, not retried. *)
Lemma failing_status_is_not_retried :
  let refusing := fun (_ : list request) (_ : request) =>
    Responded {| ok := false; status := 503; statusText := "Service Unavailable";
                 json := Return JNull |} in
  let (outcome, w') := run refusing "test-endpoint" (JArr (dataset 3)) "POST" emptyWorld in
  outcome = Throw syncFailure /\ calls w' = 1.
Proof. vm_compute. split; reflexivity. Qed.


(** A [null] entry is not reported as a failed record: on the unbatched path
    the whole submission is rejected, after the data was sent. *)
Lemma null_entry_rejects_the_submission :
  let (outcome, w') :=
    run healthy "test-endpoint" (JArr [item 0; JNull; item 2]) "POST" emptyWorld in
  outcome = Throw syncFailure /\ calls w' = 1.
Proof. vm_compute. split; reflexivity. Qed.

(** Nor is it when it sits in a batch: the batch is sent, fails when the
    metadata of the [null] entry is read, is retried as often as the retry
    allows, and building its error entries then throws, which ends the whole
    submission without an outcome. *)
Lemma null_entry_in_a_batch_rejects_the_submission :
  let records := dataset 120 ++ [JNull] ++ map item (seq 121 29) in
  let (outcome, w') := run healthy "test-endpoint" (JArr records) "POST" emptyWorld in
  List.length records = 150 /\
  outcome = Throw (TypeError "Cannot read properties of null (reading 'id')") /\
  calls w' = 6.
Proof. vm_compute. repeat split. Qed.


(** C9, counterexample: a [DELETE] is sent with the serialized data as body. *)
Lemma delete_carries_a_body :
  let w' := snd (run healthy "files" (JObj [("id", JStr "789")]) "DELETE" emptyWorld) in
  map DataSynchronizer.method (requests w') = ["DELETE"] /\
  map body (requests w') = [Some (render (JObj [("id", JStr "789")]))] /\
  ~ Forall (fun req => body req = None) (requests w').
Proof.
  vm_compute. repeat split. intros H. inversion H. discriminate.
Qed.

(** C10, at the contact list [[{ id: "c1", name: "John" }]] sent with [PUT]. *)
Lemma nonbatched_outcome_has_no_error_entries_witness :
  let contacts := JArr [JObj [("id", JStr "c1"); ("name", JStr "John")]] in
  (exists out w',
      run healthy "contacts" contacts "PUT" emptyWorld = (Return out, w') /\ errors out = [])
  \/ (exists e w', run healthy "contacts" contacts "PUT" emptyWorld = (Throw e, w')).
Proof.
  apply (proj1 (nonbatched_outcome_has_no_error_entries "test-token" stringify healthy
                  keepMetadata diskHealthy "contacts"
                  (JArr [JObj [("id", JStr "c1"); ("name", JStr "John")]]) "PUT" emptyWorld)).
  reflexivity.
Defined.

End DispatcherRuns.

(** * Properties of the conflict resolution strategies *)

Section ConflictFacts.
Import Js ConflictResolution.

Variable parseDate : string -> option Z.
Variable JSON_stringify : heap -> list (string * value) -> completion string.

Local Abbreviation resolveConflict :=
  (ConflictResolution.resolveConflict parseDate JSON_stringify).

(** The decision of [LastWriteWinsStrategy.resolve], as a table. *)
Lemma lastWriteWins_table (h : heap) (localData cloudData : value) :
  lastWriteWins parseDate localData cloudData h
  = (Return
       match parseDate (modificationDate h localData),
             parseDate (modificationDate h cloudData) with
       | None, None => localData
       | None, Some _ => cloudData
       | Some _, None => localData
       | Some tLocal, Some tCloud => if (tLocal >=? tCloud)%Z then localData else cloudData
       end, h).
Proof.
  unfold lastWriteWins, bind, gets, ret.
  destruct (parseDate (modificationDate h localData)) as [tLocal | ];
    destruct (parseDate (modificationDate h cloudData)) as [tCloud | ]; reflexivity.
Qed.

Lemma resolveConflict_lastWriteWins (h : heap) (localData cloudData : value) :
  resolveConflict localData cloudData "lastWriteWins" h
  = lastWriteWins parseDate localData cloudData h.
Proof.
  unfold ConflictResolution.resolveConflict, strategies. cbn [String.eqb Ascii.eqb Bool.eqb].
  unfold tryCatch. rewrite lastWriteWins_table. reflexivity.
Qed.


(** The same decision, case by case. *)
Lemma last_write_wins_cases (h : heap) (localData cloudData : value) :
  exists winner,
    resolveConflict localData cloudData "lastWriteWins" h = (Return winner, h) /\
    (parseDate (modificationDate h localData) = None ->
     parseDate (modificationDate h cloudData) = None -> winner = localData) /\
    (parseDate (modificationDate h localData) = None ->
     parseDate (modificationDate h cloudData) <> None -> winner = cloudData) /\
    (parseDate (modificationDate h localData) <> None ->
     parseDate (modificationDate h cloudData) = None -> winner = localData) /\
    (forall tLocal tCloud,
       parseDate (modificationDate h localData) = Some tLocal ->
       parseDate (modificationDate h cloudData) = Some tCloud ->
       ((tCloud <= tLocal)%Z -> winner = localData) /\
       ((tLocal < tCloud)%Z -> winner = cloudData)).
Proof.
  eexists. split; [rewrite resolveConflict_lastWriteWins; apply lastWriteWins_table | ].
  destruct (parseDate (modificationDate h localData)) as [a | ];
    destruct (parseDate (modificationDate h cloudData)) as [b | ];
    repeat split; try congruence; intros.
  all: repeat match goal with H : Some _ = Some _ |- _ => injection H as <- end.
  - rewrite Z.geb_leb. apply Z.leb_le in H1. rewrite H1. reflexivity.
  - rewrite Z.geb_leb. apply Z.leb_gt in H1. rewrite H1. reflexivity.
Qed.

(** An unknown strategy name is an input error. *)
Lemma unknown_strategy_is_rejected (h : heap) (localData cloudData : value) :
  resolveConflict localData cloudData "invalidStrategy" h
  = (Throw (AppError "Invalid conflict resolution strategy" 400), h).
Proof. reflexivity. Qed.

(** The manual strategy never returns a value. *)
Lemma manual_never_returns (h : heap) (localData cloudData : value) :
  exists e h', resolveConflict localData cloudData "manual" h = (Throw e, h').
Proof.
  unfold ConflictResolution.resolveConflict, strategies. cbn [String.eqb Ascii.eqb Bool.eqb].
  unfold tryCatch, manual, bind, throw.
  destruct (JSON_stringify h _) as [text | e]; simpl;
    [ | destruct (instanceofAppError e)]; unfold throw; eauto.
Qed.

End ConflictFacts.

(** In the union computed for an array field the elements of the first
    operand, which [deepMerge] takes from its target, keep the front. *)
Lemma dedupeInto_app (l1 : list ConflictResolution.value) :
  forall known l2, exists rest,
    ConflictResolution.dedupeInto known (l1 ++ l2)
    = ConflictResolution.dedupeInto known l1 ++ rest.
Proof.
  induction l1 as [ | x l1 IH]; intros known l2; simpl.
  - eexists. reflexivity.
  - destruct (existsb (ConflictResolution.sameValueZero x) known).
    + apply IH.
    + destruct (IH (x :: known) l2) as (rest & ->). exists rest. reflexivity.
Qed.

Lemma arrayFromSet_target_first (fromTarget fromSource : list ConflictResolution.value) :
  exists rest,
    ConflictResolution.arrayFromSet (fromTarget ++ fromSource)
    = ConflictResolution.arrayFromSet fromTarget ++ rest.
Proof. apply dedupeInto_app. Qed.


(** * The merge on cyclic records *)

(** Runs the [readHeap] at the head of a computation, in the goal or in a
    hypothesis. *)
Ltac read_heap :=
  unfold Js.bind at 1, ConflictResolution.readHeap at 1, Js.gets at 1; cbv beta iota.
Ltac read_heap_in H :=
  unfold Js.bind at 1, ConflictResolution.readHeap at 1, Js.gets at 1 in H;
  cbv beta iota in H.

Section MergeFacts.
Import Js ConflictResolution MergeSpec.
Local Open Scope js_scope.

Lemma update_firstn {A} (l : list A) :
  forall n a x, n <= a -> firstn n (update l a x) = firstn n l.
Proof.
  induction l as [ | y l IH]; intros [ | n] [ | a] x Hle; simpl; try reflexivity; try lia.
  f_equal. apply IH. lia.
Qed.

Lemma update_forallb {A} (p : A -> bool) (l : list A) :
  forall a x, forallb p l = true -> p x = true -> forallb p (update l a x) = true.
Proof.
  induction l as [ | y l IH]; intros [ | a] x Hl Hx; simpl in *; auto;
    apply andb_true_iff in Hl; destruct Hl as [Hy Hl]; apply andb_true_iff; auto.
Qed.

Lemma firstn_app_keep {A} (l extra : list A) (n : nat) :
  n <= List.length l -> firstn n (l ++ extra) = firstn n l.
Proof.
  intros Hn. rewrite firstn_app. replace (n - List.length l) with 0 by lia.
  simpl. apply app_nil_r.
Qed.

Lemma seenGet_None (a : nat) (m : list (nat * value)) :
  seenGet a m = None -> ~ In a (map fst m).
Proof.
  induction m as [ | [a' v] m IH]; simpl; [tauto | ].
  destruct (Nat.eqb_spec a a') as [-> | Hneq]; [discriminate | ].
  intros Hnone [Heq | Hin]; [congruence | exact (IH Hnone Hin)].
Qed.

Lemma isArray_excludes_objectsOnly (h : heap) (v : value) :
  isArray h v = true -> objectsOnly h = false.
Proof.
  unfold isArray. destruct v as [ | | | | | a]; try discriminate.
  destruct (nth_error h a) as [[props | elems] | ] eqn:Hcell; try discriminate. intros _.
  destruct (objectsOnly h) eqn:Hobj; [ | reflexivity].
  unfold objectsOnly in Hobj. rewrite forallb_forall in Hobj.
  apply nth_error_In in Hcell. apply Hobj in Hcell. discriminate.
Qed.

Variable h0 : heap.
Hypothesis Hclosed : closedHeap h0 = true.

Lemma invariant_length (s : store) : invariant h0 s -> List.length h0 <= List.length (cells s).
Proof.
  intros (Hprefix & _). apply (f_equal (@List.length cell)) in Hprefix.
  rewrite length_firstn in Hprefix. lia.
Qed.

Lemma original_cell (s : store) (a : nat) :
  invariant h0 s -> a < List.length h0 -> nth_error (cells s) a = nth_error h0 a.
Proof.
  intros (Hprefix & _) Ha.
  transitivity (nth_error (firstn (List.length h0) (cells s)) a);
    [ | rewrite Hprefix; reflexivity].
  rewrite nth_error_firstn.
  destruct (Nat.ltb_spec a (List.length h0)); [reflexivity | lia].
Qed.

Lemma getField_original (s : store) (a : nat) (k : string) :
  invariant h0 s -> a < List.length h0 ->
  getField (cells s) (VRef a) k = getField h0 (VRef a) k.
Proof. intros Hinv Ha. unfold getField. rewrite (original_cell s a Hinv Ha). reflexivity. Qed.

Lemma getOwn_In (k : string) (props : list (string * value)) (x : value) :
  getOwn k props = Some x -> In x (map snd props).
Proof.
  induction props as [ | [k' v] props IH]; simpl; [discriminate | ].
  destruct (String.eqb k k'); [intros H; injection H; auto | auto].
Qed.

(** The fields of the cells of [h0] refer to cells of [h0]. *)
Lemma getField_closed (v : value) (k : string) :
  closedValue (List.length h0) (getField h0 v k) = true.
Proof.
  unfold getField. destruct v as [ | | | | | a]; try reflexivity.
  destruct (nth_error h0 a) as [[props | elems] | ] eqn:Hcell; try reflexivity.
  destruct (getOwn k props) as [x | ] eqn:Hown; [ | reflexivity].
  unfold closedHeap in Hclosed. rewrite forallb_forall in Hclosed.
  apply nth_error_In in Hcell. apply Hclosed in Hcell. rewrite forallb_forall in Hcell.
  apply Hcell. simpl. eapply getOwn_In; eauto.
Qed.

(** [seen] cannot hold more entries than [h0] has cells. *)
Lemma seen_bound (s : store) : invariant h0 s -> List.length (seen s) <= List.length h0.
Proof.
  intros (_ & Hnodup & Hbound).
  rewrite <- (length_map fst (seen s)), <- (length_seq (List.length h0) 0).
  apply NoDup_incl_length; [exact Hnodup | ].
  intros a Hin. apply in_seq. specialize (Hbound a Hin). lia.
Qed.

Lemma admissible_return {A} (s : store) (x : A) :
  invariant h0 s -> admissible h0 s (Return x, s).
Proof. intros Hinv. simpl. auto. Qed.

(** A step that keeps the invariant, followed by an admissible rest. *)
Lemma admissible_after {A} (s s1 : store) (res : completion A * store) :
  List.length (seen s) <= List.length (seen s1) ->
  (objectsOnly (cells s) = true -> objectsOnly (cells s1) = true) ->
  admissible h0 s1 res -> admissible h0 s res.
Proof.
  intros Hmono Hobj. destruct res as [[x | e] s2]; simpl.
  - intros (Hinv & Hmono2 & Hobj2). split; [exact Hinv | split; [lia | auto]].
  - intros (Herr & Hobj1). split; [exact Herr | ].
    destruct (objectsOnly (cells s)); [rewrite Hobj in Hobj1 by reflexivity; discriminate | ].
    reflexivity.
Qed.

Lemma admissible_bind {A B} (s : store) (c : M store A) (k : A -> M store B) :
  admissible h0 s (c s) ->
  (forall x s1, c s = (Return x, s1) -> admissible h0 s1 (k x s1)) ->
  admissible h0 s (bind c k s).
Proof.
  intros Hc Hk. unfold bind. destruct (c s) as [[x | e] s1] eqn:Hrun.
  - destruct Hc as (Hinv & Hmono & Hobj).
    eapply admissible_after; eauto.
  - exact Hc.
Qed.

Lemma setField_admissible (s : store) (output : nat) (k : string) (v : value) :
  invariant h0 s -> List.length h0 <= output ->
  admissible h0 s (setField output k v s).
Proof.
  intros (Hprefix & Hnodup & Hbound) Hout. unfold setField, modify, admissible, invariant.
  cbn [cells seen].
  destruct (nth_error (cells s) output) as [[props | elems] | ].
  - refine (conj (conj _ (conj Hnodup Hbound)) (conj (le_n _) _)).
    + rewrite update_firstn by exact Hout. exact Hprefix.
    + intros Hobj. apply update_forallb; auto.
  - exact (conj (conj Hprefix (conj Hnodup Hbound)) (conj (le_n _) (fun H => H))).
  - exact (conj (conj Hprefix (conj Hnodup Hbound)) (conj (le_n _) (fun H => H))).
Qed.


Lemma iterate_cases (v : value) (s : store) :
  (exists l, iterate v s = (Return l, s)) \/ (exists m, iterate v s = (Throw (TypeError m), s)).
Proof.
  unfold iterate. destruct v as [ | | | | text | a]; try (right; eexists; reflexivity).
  - left. eexists. reflexivity.
  - unfold bind, readHeap, gets.
    destruct (nth_error (cells s) a) as [[props | elems] | ];
      try (right; eexists; reflexivity).
    left. eexists. reflexivity.
Qed.

Lemma alloc_invariant (s : store) (c : cell) :
  invariant h0 s ->
  invariant h0 {| cells := cells s ++ [c]; seen := seen s |}.
Proof.
  intros Hinv. pose proof (invariant_length s Hinv) as Hlen.
  destruct Hinv as (Hprefix & Hnodup & Hbound).
  unfold invariant. cbn [cells seen]. rewrite firstn_app_keep by exact Hlen. auto.
Qed.

Section Callback.

(** The recursive call, as far as the callback needs it: admissible from any
    state in which [seen] has at least [entered] entries. *)
Variable recur : value -> value -> M store value.
Variable entered : nat.
Hypothesis recur_admissible :
  forall target a s,
    invariant h0 s -> a < List.length h0 -> entered <= List.length (seen s) ->
    admissible h0 s (recur target (VRef a) s).

Variable output : nat.
Hypothesis output_fresh : List.length h0 <= output.
Variable target : value.
Variable a : nat.
Hypothesis source_original : a < List.length h0.

Lemma mergeKey_admissible (key : string) (s : store) :
  invariant h0 s -> entered <= List.length (seen s) ->
  admissible h0 s (mergeKey recur output target (VRef a) key s).
Proof.
  intros Hinv Hentered. unfold mergeKey.
  read_heap.
  rewrite (getField_original s a key Hinv source_original).
  pose proof (getField_closed (VRef a) key) as Hsv.
  set (sourceValue := getField h0 (VRef a) key) in *.
  read_heap.
  destruct (isArray (cells s) sourceValue) eqn:Harr.
  - pose proof (isArray_excludes_objectsOnly _ _ Harr) as Hnot.
    read_heap.
    unfold bind at 1.
    destruct (iterate_cases (getField (cells s) target key) s) as [(l1 & ->) | (m & ->)];
      [ | split; [reflexivity | exact Hnot]].
    unfold bind at 1.
    destruct (iterate_cases sourceValue s) as [(l2 & ->) | (m & ->)];
      [ | split; [reflexivity | exact Hnot]].
    unfold bind at 1, alloc.
    eapply admissible_after;
      [ | | apply setField_admissible; [apply alloc_invariant; exact Hinv | exact output_fresh]].
    + cbn [seen]. lia.
    + rewrite Hnot. discriminate.
  - read_heap.
    destruct (isObject (cells s) sourceValue) eqn:Hobj;
      [ | apply setField_admissible; assumption].
    read_heap.
    destruct (hasField (cells s) target key); cbn [negb];
      [ | apply setField_admissible; assumption].
    read_heap.
    destruct sourceValue as [ | | | | | b] eqn:Hsource; try discriminate.
    simpl in Hsv. apply Nat.ltb_lt in Hsv.
    apply admissible_bind.
    + apply recur_admissible; assumption.
    + intros nested s1 Hrun.
      pose proof (recur_admissible (getField (cells s) target key) b s Hinv Hsv Hentered) as Hr.
      rewrite Hrun in Hr. destruct Hr as (Hinv1 & _).
      apply setField_admissible; assumption.
Qed.

Lemma forEach_admissible (keys : list string) :
  forall s, invariant h0 s -> entered <= List.length (seen s) ->
    admissible h0 s (forEach keys (mergeKey recur output target (VRef a)) s).
Proof.
  induction keys as [ | key keys IH]; intros s Hinv Hentered.
  - apply admissible_return. exact Hinv.
  - cbn [forEach]. apply admissible_bind.
    + apply mergeKey_admissible; assumption.
    + intros [] s1 Hrun.
      pose proof (mergeKey_admissible key s Hinv Hentered) as Hstep.
      rewrite Hrun in Hstep. destruct Hstep as (Hinv1 & Hmono & _).
      apply IH; [exact Hinv1 | lia].
Qed.

End Callback.

(** With a frame left for every cell of [h0] not yet entered, [deepMerge]
    never exhausts its stack: it returns a value, or throws the [TypeError]
    of an array field that has no iterable counterpart. *)
Lemma deepMerge_admissible (fuel : nat) :
  forall target a s,
    invariant h0 s -> a < List.length h0 ->
    List.length h0 + 1 <= fuel + List.length (seen s) ->
    admissible h0 s (deepMerge fuel target (VRef a) s).
Proof.
  induction fuel as [ | fuel IH]; intros target a s Hinv Ha Hfuel.
  - pose proof (seen_bound s Hinv). lia.
  - cbn [deepMerge]. unfold bind at 1, seenLookup, gets. cbv beta iota.
    destruct (seenGet a (seen s)) as [cached | ] eqn:Hseen.
    + apply admissible_return. exact Hinv.
    + read_heap.
      unfold bind at 1, alloc. unfold bind at 1, seenSet, modify. cbn [cells seen].
      set (output := List.length (cells s)).
      set (s2 := {| cells := cells s ++ [HObj (spreadProps (cells s) target)];
                    seen := (a, VRef output) :: seen s |}).
      assert (Hinv2 : invariant h0 s2).
      { destruct (alloc_invariant s (HObj (spreadProps (cells s) target)) Hinv)
          as (Hprefix & Hnodup & Hbound).
        unfold invariant, s2. cbn [cells seen map fst] in *. repeat split.
        - exact Hprefix.
        - constructor; [apply seenGet_None; exact Hseen | exact Hnodup].
        - intros x [<- | Hin]; auto. }
      assert (Hfresh : List.length h0 <= output) by (apply invariant_length; exact Hinv).
      apply (admissible_after s s2).
      { unfold s2. cbn [seen List.length]. lia. }
      { unfold s2, objectsOnly. cbn [cells]. intros Hobj.
        rewrite forallb_app, Hobj. reflexivity. }
      read_heap.
      apply admissible_bind.
      * destruct (isObject (cells s2) target && isObject (cells s2) (VRef a)).
        -- read_heap.
           apply (forEach_admissible (deepMerge fuel) (List.length (seen s2)));
             auto.
           intros target' a' s' Hinv' Ha' Hentered. apply IH; auto.
           unfold s2 in Hentered. cbn [seen List.length] in Hentered. lia.
        -- apply admissible_return. exact Hinv2.
      * intros [] s3 Hrun. apply admissible_return.
        destruct (isObject (cells s2) target && isObject (cells s2) (VRef a)).
        -- read_heap_in Hrun.
           pose proof (forEach_admissible (deepMerge fuel) (List.length (seen s2))) as Hloop.
           specialize (Hloop (fun target' a' s' Hinv' Ha' Hentered =>
             IH target' a' s' Hinv' Ha'
               ltac:(unfold s2 in Hentered; cbn [seen List.length] in Hentered; lia))).
           specialize (Hloop output Hfresh target a Ha (keysOf (cells s2) (VRef a)) s2
                         Hinv2 (le_n _)).
           rewrite Hrun in Hloop. destruct Hloop as (Hinv3 & _). exact Hinv3.
        -- unfold ret in Hrun. injection Hrun as <-. exact Hinv2.
Qed.

End MergeFacts.

Section MergeTermination.
Import Js ConflictResolution MergeSpec.

Variable parseDate : string -> option Z.
Variable JSON_stringify : heap -> list (string * value) -> completion string.

Lemma initial_invariant (h : heap) : invariant h {| cells := h; seen := [] |}.
Proof.
  unfold invariant. cbn [cells seen map]. repeat split.
  - apply firstn_all.
  - constructor.
  - intros a [].
Qed.

(** The merge of a record of a closed heap always terminates, whatever cycles
    the heap has: it returns a value and leaves the cells it started from
    untouched, or it throws the [TypeError] of an array field that has no
    iterable counterpart.  It never runs out of stack. *)
Lemma merge_terminates (h : heap) (a : nat) (cloudData : value) :
  closedHeap h = true -> a < List.length h ->
  match merge (VRef a) cloudData h with
  | (Return _, h') => firstn (List.length h) h' = h
  | (Throw e, _) => errorName e = "TypeError" /\ objectsOnly h = false
  end.
Proof.
  intros Hclosed Ha. unfold merge.
  pose proof (deepMerge_admissible h Hclosed (S (List.length h)) cloudData a
                {| cells := h; seen := [] |} (initial_invariant h) Ha) as Hrun.
  cbn [seen List.length] in Hrun. specialize (Hrun ltac:(lia)).
  destruct (deepMerge _ _ _ _) as [[v | e] s'].
  - destruct Hrun as ((Hprefix & _) & _). exact Hprefix.
  - exact Hrun.
Qed.

(** On records made of objects only, cyclic or not, the merge strategy always
    returns a value: no input is rejected for being circular. *)
Lemma merge_never_rejects_a_cycle (h : heap) (a : nat) (cloudData : value) :
  closedHeap h = true -> objectsOnly h = true -> a < List.length h ->
  exists merged h',
    resolveConflict parseDate JSON_stringify (VRef a) cloudData "merge" h
    = (Return merged, h').
Proof.
  intros Hclosed Hobjects Ha.
  pose proof (merge_terminates h a cloudData Hclosed Ha) as Hrun.
  unfold resolveConflict, strategies. cbn [String.eqb Ascii.eqb Bool.eqb]. unfold tryCatch.
  destruct (merge (VRef a) cloudData h) as [[merged | e] h'].
  - eauto.
  - destruct Hrun as (_ & Hnot). congruence.
Qed.

End MergeTermination.

(** * What the merge puts in each field *)

Section MergeFrame.
Import Js ConflictResolution MergeSpec.
Local Open Scope js_scope.

Lemma bind_Return {S A B} (c : M S A) (k : A -> M S B) (s s' : S) (y : B) :
  bind c k s = (Return y, s') ->
  exists x s1, c s = (Return x, s1) /\ k x s1 = (Return y, s').
Proof.
  unfold bind. destruct (c s) as [[x | e] s1]; [eauto | discriminate].
Qed.

Lemma update_length {A} (l : list A) : forall a x, List.length (update l a x) = List.length l.
Proof. induction l as [ | y l IH]; intros [ | a] x; simpl; auto. Qed.

Lemma update_other {A} (l : list A) :
  forall a x i, i <> a -> nth_error (update l a x) i = nth_error l i.
Proof.
  induction l as [ | y l IH]; intros [ | a] x [ | i] Hneq; simpl; auto; try congruence.
Qed.

Lemma update_same {A} (l : list A) :
  forall a x, a < List.length l -> nth_error (update l a x) a = Some x.
Proof.
  induction l as [ | y l IH]; intros [ | a] x Ha; simpl in *; try lia; auto.
  apply IH. lia.
Qed.

Lemma getOwn_setOwn_same (k : string) (v : value) (props : list (string * value)) :
  getOwn k (setOwn k v props) = Some v.
Proof.
  induction props as [ | [k' v'] props IH]; simpl.
  - rewrite String.eqb_refl. reflexivity.
  - destruct (String.eqb k k') eqn:Heq; simpl.
    + rewrite String.eqb_refl. reflexivity.
    + rewrite Heq. exact IH.
Qed.

Lemma getOwn_setOwn_other (k k' : string) (v : value) (props : list (string * value)) :
  k <> k' -> getOwn k (setOwn k' v props) = getOwn k props.
Proof.
  intros Hneq. induction props as [ | [k0 v0] props IH]; simpl.
  - apply String.eqb_neq in Hneq. rewrite Hneq. reflexivity.
  - destruct (String.eqb k' k0) eqn:Heq; simpl.
    + apply String.eqb_eq in Heq. subst k0. apply String.eqb_neq in Hneq.
      rewrite Hneq. reflexivity.
    + destruct (String.eqb k k0); auto.
Qed.

Lemma preserved_refl (except : option nat) (s : store) : preserved except s s.
Proof. split; auto. Qed.

Lemma preserved_trans (except : option nat) (s1 s2 s3 : store) :
  preserved except s1 s2 -> preserved except s2 s3 -> preserved except s1 s3.
Proof.
  intros [Hlen1 Hsame1] [Hlen2 Hsame2]. split; [lia | ].
  intros i Hi Hex. rewrite Hsame2 by (auto; lia). auto.
Qed.

Lemma preserved_weaken (except : option nat) (s s' : store) :
  preserved None s s' -> preserved except s s'.
Proof. intros [Hlen Hsame]. split; auto. intros i Hi _. apply Hsame; [exact Hi | discriminate]. Qed.

Lemma alloc_preserved (s : store) (c : cell) :
  preserved None s {| cells := cells s ++ [c]; seen := seen s |}.
Proof.
  split; cbn [cells].
  - rewrite length_app. lia.
  - intros i Hi _. apply nth_error_app1. exact Hi.
Qed.

(** What [setField] does to the cell it writes. *)
Lemma setField_run (output : nat) (k : string) (v : value) (s : store)
    (props : list (string * value)) :
  nth_error (cells s) output = Some (HObj props) ->
  exists s',
    setField output k v s = (Return tt, s') /\
    nth_error (cells s') output = Some (HObj (setOwn k v props)) /\
    preserved (Some output) s s' /\ seen s' = seen s.
Proof.
  intros Hcell. unfold setField, modify. rewrite Hcell. eexists. split; [reflexivity | ].
  unfold preserved. cbn [cells seen]. repeat split.
  - apply update_same. apply nth_error_Some. congruence.
  - rewrite update_length. lia.
  - intros i Hi Hex. apply update_other. congruence.
Qed.

End MergeFrame.

Section MergeSteps.
Import Js ConflictResolution MergeSpec.
Local Open Scope js_scope.

Lemma isArray_not_primitive (h : heap) (v : value) :
  isArray h v = true -> isPrimitive v = false.
Proof. destruct v; simpl; auto; discriminate. Qed.

Lemma isObject_not_primitive (h : heap) (v : value) :
  isObject h v = true -> isPrimitive v = false.
Proof. destruct v; simpl; auto; discriminate. Qed.

Lemma primitive_not_array (h : heap) (v : value) :
  isPrimitive v = true -> isArray h v = false /\ isObject h v = false.
Proof. destruct v; simpl; auto; discriminate. Qed.

Section Step.

Variable recur : value -> value -> M store value.
Hypothesis recur_preserved :
  forall target source s v s',
    recur target source s = (Return v, s') -> preserved None s s'.

(** One call of the callback writes the field [key] of the output, and
    nothing else that was there before: a primitive of the source is copied;
    for an array of the source, a new array holds the union of the target's
    elements followed by the source's. *)
Lemma mergeKey_step (output : nat) (target source : value) (key : string)
    (s s' : store) (props : list (string * value)) :
  nth_error (cells s) output = Some (HObj props) ->
  mergeKey recur output target source key s = (Return tt, s') ->
  exists x,
    nth_error (cells s') output = Some (HObj (setOwn key x props)) /\
    preserved (Some output) s s' /\
    (isPrimitive (getField (cells s) source key) = true ->
     x = getField (cells s) source key) /\
    (isArray (cells s) (getField (cells s) source key) = true ->
     exists fromTarget fromSource,
       iterate (getField (cells s) target key) s = (Return fromTarget, s) /\
       iterate (getField (cells s) source key) s = (Return fromSource, s) /\
       x = VRef (List.length (cells s)) /\
       nth_error (cells s') (List.length (cells s))
       = Some (HArr (arrayFromSet (fromTarget ++ fromSource)))).
Proof.
  intros Hcell Hrun.
  assert (Hout : output < List.length (cells s)) by (apply nth_error_Some; congruence).
  unfold mergeKey in Hrun. read_heap_in Hrun.
  set (sourceValue := getField (cells s) source key) in *.
  read_heap_in Hrun.
  destruct (isArray (cells s) sourceValue) eqn:Harr.
  - read_heap_in Hrun. unfold bind at 1 in Hrun.
    destruct (iterate_cases (getField (cells s) target key) s) as [(lt & Ht) | (m & Ht)];
      rewrite Ht in Hrun; [ | discriminate].
    unfold bind at 1 in Hrun.
    destruct (iterate_cases sourceValue s) as [(ls & Hs) | (m & Hs)];
      rewrite Hs in Hrun; [ | discriminate].
    unfold bind at 1, alloc in Hrun.
    set (s1 := {| cells := cells s ++ [HArr (arrayFromSet (lt ++ ls))]; seen := seen s |}) in *.
    assert (Hcell1 : nth_error (cells s1) output = Some (HObj props)).
    { unfold s1. cbn [cells]. rewrite nth_error_app1 by exact Hout. exact Hcell. }
    destruct (setField_run output key (VRef (List.length (cells s))) s1 props Hcell1)
      as (s2 & Hset & Hcell2 & Hpres & _).
    rewrite Hset in Hrun. injection Hrun as <-.
    exists (VRef (List.length (cells s))). repeat split.
    + exact Hcell2.
    + destruct Hpres as [Hlen _]. unfold s1 in Hlen. cbn [cells] in Hlen.
      rewrite length_app in Hlen. lia.
    + intros i Hi Hex. destruct Hpres as [_ Hsame]. rewrite Hsame.
      * unfold s1. cbn [cells]. apply nth_error_app1. exact Hi.
      * unfold s1. cbn [cells]. rewrite length_app. lia.
      * exact Hex.
    + intros Hprim. rewrite (isArray_not_primitive _ _ Harr) in Hprim. discriminate.
    + intros _. exists lt, ls. repeat split; auto.
      destruct Hpres as [_ Hsame]. rewrite Hsame.
      * unfold s1. cbn [cells]. rewrite nth_error_app2 by lia.
        rewrite Nat.sub_diag. reflexivity.
      * unfold s1. cbn [cells]. rewrite length_app. simpl. lia.
      * intros Heq. injection Heq as Heq. lia.
  - read_heap_in Hrun.
    assert (Hplain : forall s2,
              setField output key sourceValue s = (Return tt, s2) ->
              exists x,
                nth_error (cells s2) output = Some (HObj (setOwn key x props)) /\
                preserved (Some output) s s2 /\
                (isPrimitive sourceValue = true -> x = sourceValue) /\
                (false = true -> exists fromTarget fromSource,
                   iterate (getField (cells s) target key) s = (Return fromTarget, s) /\
                   iterate sourceValue s = (Return fromSource, s) /\
                   x = VRef (List.length (cells s)) /\
                   nth_error (cells s2) (List.length (cells s))
                   = Some (HArr (arrayFromSet (fromTarget ++ fromSource))))).
    { intros s2 Hset.
      destruct (setField_run output key sourceValue s props Hcell)
        as (s3 & Hset3 & Hcell3 & Hpres & _).
      rewrite Hset3 in Hset. injection Hset as <-.
      exists sourceValue. repeat split; auto; try apply Hpres. discriminate. }
    destruct (isObject (cells s) sourceValue) eqn:Hobj; [ | apply Hplain; exact Hrun].
    read_heap_in Hrun.
    destruct (hasField (cells s) target key); cbn [negb] in Hrun;
      [ | apply Hplain; exact Hrun].
    read_heap_in Hrun. apply bind_Return in Hrun.
    destruct Hrun as (nested & s1 & Hrec & Hset).
    pose proof (recur_preserved _ _ _ _ _ Hrec) as [Hlen1 Hsame1].
    assert (Hcell1 : nth_error (cells s1) output = Some (HObj props)).
    { rewrite Hsame1; [exact Hcell | exact Hout | discriminate]. }
    destruct (setField_run output key nested s1 props Hcell1)
      as (s2 & Hset2 & Hcell2 & [Hlen2 Hsame2] & _).
    rewrite Hset2 in Hset. injection Hset as <-.
    exists nested. repeat split.
    + exact Hcell2.
    + lia.
    + intros i Hi Hex. rewrite Hsame2 by (auto; lia). apply Hsame1; [exact Hi | discriminate].
    + intros Hprim. rewrite (isObject_not_primitive _ _ Hobj) in Hprim. discriminate.
    + discriminate.
Qed.

(** The loop writes fields of the output and leaves every other cell. *)
Lemma forEach_preserved (output : nat) (target source : value) (keys : list string) :
  forall s s' props,
    nth_error (cells s) output = Some (HObj props) ->
    forEach keys (mergeKey recur output target source) s = (Return tt, s') ->
    (exists props', nth_error (cells s') output = Some (HObj props')) /\
    preserved (Some output) s s'.
Proof.
  induction keys as [ | key keys IH]; intros s s' props Hcell Hrun.
  - injection Hrun as <-. split; [eauto | apply preserved_refl].
  - cbn [forEach] in Hrun. apply bind_Return in Hrun.
    destruct Hrun as ([] & s1 & Hstep & Hrest).
    destruct (mergeKey_step output target source key s s1 props Hcell Hstep)
      as (x & Hcell1 & Hpres1 & _).
    destruct (IH s1 s' _ Hcell1 Hrest) as [Hcell' Hpres'].
    split; [exact Hcell' | eapply preserved_trans; eauto].
Qed.

End Step.

(** [deepMerge] only adds cells: it writes to the object it creates. *)
Lemma deepMerge_preserved (fuel : nat) :
  forall target source s v s',
    deepMerge fuel target source s = (Return v, s') -> preserved None s s'.
Proof.
  induction fuel as [ | fuel IH]; intros target source s v s' Hrun; [discriminate | ].
  cbn [deepMerge] in Hrun. apply bind_Return in Hrun.
  destruct Hrun as (known & s0 & Hlookup & Hrun).
  unfold seenLookup, gets in Hlookup. injection Hlookup as <- <-.
  destruct (match source with VRef a => seenGet a (seen s) | _ => None end) as [cached | ].
  - injection Hrun as _ <-. apply preserved_refl.
  - read_heap_in Hrun. unfold bind at 1, alloc in Hrun.
    apply bind_Return in Hrun. destruct Hrun as ([] & s2 & Hseen & Hrun).
    destruct source as [ | | | | | a]; try discriminate.
    unfold seenSet, modify in Hseen. injection Hseen as <-. cbn [cells seen] in Hrun.
    read_heap_in Hrun. apply bind_Return in Hrun.
    destruct Hrun as ([] & s3 & Hloop & Hret). injection Hret as _ <-.
    set (s2 := {| cells := cells s ++ [HObj (spreadProps (cells s) target)];
                  seen := (a, VRef (List.length (cells s))) :: seen s |}) in *.
    assert (Hgrow : preserved (Some (List.length (cells s))) s2 s3).
    { destruct (isObject (cells s2) target && isObject (cells s2) (VRef a)).
      - read_heap_in Hloop.
        eapply (forEach_preserved (deepMerge fuel) IH); [ | exact Hloop].
        unfold s2. cbn [cells]. rewrite nth_error_app2 by lia.
        rewrite Nat.sub_diag. reflexivity.
      - injection Hloop as <-. apply preserved_refl. }
    destruct Hgrow as [Hlen Hsame]. unfold s2 in Hlen, Hsame. cbn [cells] in Hlen, Hsame.
    rewrite length_app in Hlen, Hsame. split; [simpl in Hlen; lia | ].
    intros i Hi _. rewrite Hsame.
    + apply nth_error_app1. exact Hi.
    + simpl. lia.
    + intros Heq. injection Heq as Heq. lia.
Qed.

End MergeSteps.

Section MergeFields.
Import Js ConflictResolution MergeSpec.
Local Open Scope js_scope.

Lemma getOwn_keys (k : string) (props : list (string * value)) :
  In k (map fst props) <-> getOwn k props <> None.
Proof.
  induction props as [ | [k' v] props IH]; simpl; [tauto | ].
  destruct (String.eqb_spec k k') as [-> | Hneq].
  - split; [discriminate | auto].
  - rewrite <- IH. split; [intros [Heq | Hin]; [congruence | exact Hin] | auto].
Qed.

Lemma agrees_preserved (h0 : heap) (output : nat) (s s' : store) :
  agrees h0 s -> List.length h0 <= output -> preserved (Some output) s s' -> agrees h0 s'.
Proof.
  intros Hagree Hout [_ Hsame] i Hi. rewrite <- (Hagree i Hi). apply Hsame.
  - apply nth_error_Some. rewrite (Hagree i Hi). apply nth_error_Some. exact Hi.
  - intros Heq. injection Heq as Heq. lia.
Qed.

Lemma agrees_getField (h0 : heap) (s : store) (a : nat) (k : string) :
  agrees h0 s -> a < List.length h0 -> getField (cells s) (VRef a) k = getField h0 (VRef a) k.
Proof. intros Hagree Ha. unfold getField. rewrite (Hagree a Ha). reflexivity. Qed.

(** The heap the merge started from, the local record at [a] and the cloud
    record at [c] in it, and the object being built at [output]. *)
Variable h0 : heap.
Variable a c : nat.
Variable localProps cloudProps : list (string * value).
Hypothesis local_cell : nth_error h0 a = Some (HObj localProps).
Hypothesis cloud_cell : nth_error h0 c = Some (HObj cloudProps).
Variable output : nat.
Hypothesis output_fresh : List.length h0 <= output.
Variable recur : value -> value -> M store value.
Hypothesis recur_preserved :
  forall target source s v s',
    recur target source s = (Return v, s') -> preserved None s s'.

Local Abbreviation callback := (mergeKey recur output (VRef c) (VRef a)).

Lemma local_in_heap : a < List.length h0.
Proof. apply nth_error_Some. congruence. Qed.

Lemma cloud_in_heap : c < List.length h0.
Proof. apply nth_error_Some. congruence. Qed.

Lemma local_field (s : store) (k : string) :
  agrees h0 s ->
  getField (cells s) (VRef a) k
  = match getOwn k localProps with Some x => x | None => VUndefined end.
Proof.
  intros Hagree. rewrite (agrees_getField h0 s a k Hagree local_in_heap).
  unfold getField. rewrite local_cell. reflexivity.
Qed.

Lemma cloud_field (s : store) (k : string) :
  agrees h0 s ->
  getField (cells s) (VRef c) k
  = match getOwn k cloudProps with Some x => x | None => VUndefined end.
Proof.
  intros Hagree. rewrite (agrees_getField h0 s c k Hagree cloud_in_heap).
  unfold getField. rewrite cloud_cell. reflexivity.
Qed.

(** A key the local record does not have keeps what the output had. *)
Lemma forEach_keeps_other_keys (k : string) (keys : list string) :
  forall s s' props,
    ~ In k keys ->
    nth_error (cells s) output = Some (HObj props) ->
    forEach keys callback s = (Return tt, s') ->
    exists props', nth_error (cells s') output = Some (HObj props') /\
                   getOwn k props' = getOwn k props.
Proof.
  induction keys as [ | key keys IH]; intros s s' props Hnotin Hcell Hrun.
  - injection Hrun as <-. eauto.
  - cbn [forEach] in Hrun. apply bind_Return in Hrun.
    destruct Hrun as ([] & s1 & Hstep & Hrest).
    destruct (mergeKey_step recur recur_preserved output _ _ key s s1 props Hcell Hstep)
      as (x & Hcell1 & _).
    destruct (IH s1 s' _ ltac:(simpl in Hnotin; tauto) Hcell1 Hrest) as (props' & Hcell' & Hk).
    exists props'. split; [exact Hcell' | ]. rewrite Hk.
    apply getOwn_setOwn_other. simpl in Hnotin. intros ->. tauto.
Qed.

(** A primitive field of the local record ends up in the output. *)
Lemma forEach_copies_primitive (k : string) (v : value) (keys : list string) :
  getOwn k localProps = Some v -> isPrimitive v = true ->
  forall s s' props,
    agrees h0 s ->
    nth_error (cells s) output = Some (HObj props) ->
    In k keys \/ getOwn k props = Some v ->
    forEach keys callback s = (Return tt, s') ->
    exists props', nth_error (cells s') output = Some (HObj props') /\
                   getOwn k props' = Some v.
Proof.
  intros Hlocal Hprim.
  induction keys as [ | key keys IH]; intros s s' props Hagree Hcell Hdone Hrun.
  - injection Hrun as <-. destruct Hdone as [[] | Hdone]. eauto.
  - cbn [forEach] in Hrun. apply bind_Return in Hrun.
    destruct Hrun as ([] & s1 & Hstep & Hrest).
    destruct (mergeKey_step recur recur_preserved output _ _ key s s1 props Hcell Hstep)
      as (x & Hcell1 & Hpres & Hcopy & _).
    apply (IH s1 s' _ (agrees_preserved h0 output s s1 Hagree output_fresh Hpres)
             Hcell1); [ | exact Hrest].
    destruct (String.eqb_spec k key) as [<- | Hneq].
    + right. rewrite (local_field s k Hagree), Hlocal in Hcopy.
      rewrite (Hcopy Hprim). apply getOwn_setOwn_same.
    + rewrite getOwn_setOwn_other by exact Hneq.
      destruct Hdone as [[Heq | Hin] | Hdone]; auto. congruence.
Qed.

(** An array field the two records both have ends up as a new array: the
    elements of the cloud record's array first, then those of the local
    record's array that are not among them. *)
Lemma forEach_unites_arrays (k : string) (u1 u2 : nat) (fromLocal fromCloud : list value)
    (keys : list string) :
  getOwn k localProps = Some (VRef u1) -> nth_error h0 u1 = Some (HArr fromLocal) ->
  getOwn k cloudProps = Some (VRef u2) -> nth_error h0 u2 = Some (HArr fromCloud) ->
  forall s s' props,
    agrees h0 s ->
    nth_error (cells s) output = Some (HObj props) ->
    In k keys \/
      (exists u, getOwn k props = Some (VRef u) /\ u <> output /\
                 nth_error (cells s) u = Some (HArr (arrayFromSet (fromCloud ++ fromLocal)))) ->
    forEach keys callback s = (Return tt, s') ->
    exists props' u,
      nth_error (cells s') output = Some (HObj props') /\
      getOwn k props' = Some (VRef u) /\
      nth_error (cells s') u = Some (HArr (arrayFromSet (fromCloud ++ fromLocal))).
Proof.
  intros Hlocal Hlocal_arr Hcloud Hcloud_arr.
  assert (Hu1 : u1 < List.length h0) by (apply nth_error_Some; congruence).
  assert (Hu2 : u2 < List.length h0) by (apply nth_error_Some; congruence).
  induction keys as [ | key keys IH]; intros s s' props Hagree Hcell Hdone Hrun.
  - injection Hrun as <-. destruct Hdone as [[] | (u & Hk & _ & Hu)]. eauto.
  - cbn [forEach] in Hrun. apply bind_Return in Hrun.
    destruct Hrun as ([] & s1 & Hstep & Hrest).
    destruct (mergeKey_step recur recur_preserved output _ _ key s s1 props Hcell Hstep)
      as (x & Hcell1 & Hpres & _ & Hunion).
    apply (IH s1 s' _ (agrees_preserved h0 output s s1 Hagree output_fresh Hpres)
             Hcell1); [ | exact Hrest].
    assert (Hout : output < List.length (cells s)) by (apply nth_error_Some; congruence).
    destruct (String.eqb_spec k key) as [<- | Hneq].
    + right. rewrite (local_field s k Hagree), Hlocal in Hunion.
      rewrite (cloud_field s k Hagree), Hcloud in Hunion.
      destruct Hunion as (lt & ls & Hlt & Hls & -> & Hnew).
      { unfold isArray. rewrite (Hagree u1 Hu1), Hlocal_arr. reflexivity. }
      unfold iterate, bind, readHeap, gets in Hlt, Hls.
      rewrite (Hagree u2 Hu2), Hcloud_arr in Hlt. rewrite (Hagree u1 Hu1), Hlocal_arr in Hls.
      injection Hlt as <-. injection Hls as <-.
      exists (List.length (cells s)). rewrite getOwn_setOwn_same.
      repeat split; [lia | exact Hnew].
    + rewrite getOwn_setOwn_other by exact Hneq.
      destruct Hdone as [[Heq | Hin] | (u & Hk & Hu & Hcellu)]; auto; [congruence | ].
      right. exists u. repeat split; auto.
      destruct Hpres as [_ Hsame]. rewrite Hsame; auto.
      * apply nth_error_Some. congruence.
      * congruence.
Qed.

End MergeFields.

Section MergeResult.
Import Js ConflictResolution MergeSpec.
Local Open Scope js_scope.

Variable parseDate : string -> option Z.
Variable JSON_stringify : heap -> list (string * value) -> completion string.

Lemma resolveConflict_merge (h h' : heap) (localData cloudData merged : value) :
  resolveConflict parseDate JSON_stringify localData cloudData "merge" h = (Return merged, h') ->
  merge localData cloudData h = (Return merged, h').
Proof.
  unfold resolveConflict, strategies. cbn [String.eqb Ascii.eqb Bool.eqb]. unfold tryCatch.
  destruct (merge localData cloudData h) as [[v | e] h1]; [auto | ].
  destruct (instanceofAppError e); discriminate.
Qed.

(** Field by field, what the merge strategy returns for two records: a new
    object in which a primitive field of the local record has the local
    value, a field only the cloud record has keeps the cloud value, and an
    array field of both records is a new array with the cloud elements first
    and the local elements not among them after, in order. *)
Lemma merge_fields (h h' : heap) (a c : nat) (localProps cloudProps : list (string * value))
    (merged : value) :
  nth_error h a = Some (HObj localProps) ->
  nth_error h c = Some (HObj cloudProps) ->
  resolveConflict parseDate JSON_stringify (VRef a) (VRef c) "merge" h = (Return merged, h') ->
  exists props',
    merged = VRef (List.length h) /\
    nth_error h' (List.length h) = Some (HObj props') /\
    (forall k v, getOwn k localProps = Some v -> isPrimitive v = true ->
                 getOwn k props' = Some v) /\
    (forall k, getOwn k localProps = None -> getOwn k props' = getOwn k cloudProps) /\
    (forall k u1 u2 fromLocal fromCloud,
        getOwn k localProps = Some (VRef u1) -> nth_error h u1 = Some (HArr fromLocal) ->
        getOwn k cloudProps = Some (VRef u2) -> nth_error h u2 = Some (HArr fromCloud) ->
        exists u, getOwn k props' = Some (VRef u) /\
                  nth_error h' u = Some (HArr (arrayFromSet (fromCloud ++ fromLocal)))).
Proof.
  intros Hlocal Hcloud Hrun. apply resolveConflict_merge in Hrun.
  assert (Ha : a < List.length h) by (apply nth_error_Some; congruence).
  assert (Hc : c < List.length h) by (apply nth_error_Some; congruence).
  unfold merge in Hrun.
  destruct (deepMerge _ _ _ _) as [r s'] eqn:Hdeep. injection Hrun as -> <-.
  cbn [deepMerge] in Hdeep.
  unfold bind at 1, seenLookup, gets in Hdeep. cbn [seen seenGet] in Hdeep.
  read_heap_in Hdeep.
  unfold bind at 1, alloc in Hdeep. unfold bind at 1, seenSet, modify in Hdeep.
  cbn [cells seen] in Hdeep.
  unfold spreadProps in Hdeep. rewrite Hcloud in Hdeep.
  set (s2 := {| cells := h ++ [HObj cloudProps];
                seen := [(a, VRef (List.length h))] |}) in *.
  assert (Hagree : agrees h s2).
  { intros i Hi. unfold s2. cbn [cells]. apply nth_error_app1. exact Hi. }
  assert (Hcell : nth_error (cells s2) (List.length h) = Some (HObj cloudProps)).
  { unfold s2. cbn [cells]. rewrite nth_error_app2 by lia. rewrite Nat.sub_diag. reflexivity. }
  read_heap_in Hdeep.
  assert (Hboth : isObject (cells s2) (VRef c) && isObject (cells s2) (VRef a) = true).
  { unfold isObject. rewrite (Hagree c Hc), (Hagree a Ha), Hcloud, Hlocal. reflexivity. }
  rewrite Hboth in Hdeep. apply bind_Return in Hdeep.
  destruct Hdeep as ([] & s3 & Hloop & Hret). injection Hret as <- <-.
  read_heap_in Hloop.
  assert (Hkeys : keysOf (cells s2) (VRef a) = map fst localProps).
  { unfold keysOf. rewrite (Hagree a Ha), Hlocal. reflexivity. }
  rewrite Hkeys in Hloop.
  destruct (forEach_preserved (deepMerge (List.length h)) (deepMerge_preserved _)
              (List.length h) (VRef c) (VRef a) _ s2 s3 cloudProps Hcell Hloop)
    as ((props' & Hcell') & _).
  exists props'. split; [reflexivity | ]. split; [exact Hcell' | ].
  split; [ | split].
  - intros k v Hk Hprim.
    destruct (forEach_copies_primitive h a c localProps Hlocal
                (List.length h) (le_n _) (deepMerge (List.length h)) (deepMerge_preserved _)
                k v (map fst localProps) Hk Hprim s2 s3 cloudProps Hagree Hcell)
      as (props1 & Hcell1 & Hk1); [ | exact Hloop | ].
    + left. apply getOwn_keys. congruence.
    + congruence.
  - intros k Hk.
    destruct (forEach_keeps_other_keys a c (List.length h) (deepMerge (List.length h))
                (deepMerge_preserved _) k (map fst localProps) s2 s3 cloudProps)
      as (props1 & Hcell1 & Hk1); [ | exact Hcell | exact Hloop | ].
    + intros Hin. apply getOwn_keys in Hin. congruence.
    + congruence.
  - intros k u1 u2 fromLocal fromCloud Hk1 Hu1 Hk2 Hu2.
    destruct (forEach_unites_arrays h a c localProps cloudProps Hlocal Hcloud
                (List.length h) (le_n _) (deepMerge (List.length h)) (deepMerge_preserved _)
                k u1 u2 fromLocal fromCloud (map fst localProps) Hk1 Hu1 Hk2 Hu2
                s2 s3 cloudProps Hagree Hcell)
      as (props1 & u & Hcell1 & Hk & Hu); [ | exact Hloop | ].
    + left. apply getOwn_keys. congruence.
    + exists u. split; [congruence | exact Hu].
Qed.

End MergeResult.

(** *** Concrete merges *)

Section ConflictRuns.
Import Js ConflictResolution ConflictScenario.

Local Abbreviation resolveConflict := (ConflictResolution.resolveConflict parseUtc noPrinter).

(** The last-write-wins cases of the test-suite. *)
Example newer_local_wins :
  fst (resolveConflict (VRef 0) (VRef 1) "lastWriteWins"
         (notes (VStr "2023-07-03T13:00:00Z") (VStr "2023-07-03T12:00:00Z")))
  = Return (VRef 0).
Proof. vm_compute. reflexivity. Qed.

Example newer_cloud_wins :
  fst (resolveConflict (VRef 0) (VRef 1) "lastWriteWins"
         (notes (VStr "2023-07-03T12:00:00Z") (VStr "2023-07-03T13:00:00Z")))
  = Return (VRef 1).
Proof. vm_compute. reflexivity. Qed.

Example equal_dates_prefer_local :
  fst (resolveConflict (VRef 0) (VRef 1) "lastWriteWins"
         (notes (VStr "2023-07-03T13:00:00Z") (VStr "2023-07-03T13:00:00Z")))
  = Return (VRef 0).
Proof. vm_compute. reflexivity. Qed.

Example missing_local_date_yields_cloud :
  fst (resolveConflict (VRef 0) (VRef 1) "lastWriteWins"
         (notes VUndefined (VStr "2023-07-03T13:00:00Z")))
  = Return (VRef 1).
Proof. vm_compute. reflexivity. Qed.

Example invalid_local_date_yields_cloud :
  fst (resolveConflict (VRef 0) (VRef 1) "lastWriteWins"
         (notes (VStr "invalid-date") (VStr "2023-07-03T13:00:00Z")))
  = Return (VRef 1).
Proof. vm_compute. reflexivity. Qed.

(** Merging local [{ a: 1, b: 2 }] with cloud [{ b: 3, c: 4 }]: the new
    object holds [a = 1], [b = 2], [c = 4]. *)
Example merge_flat_records :
  resolveConflict (VRef 0) (VRef 1) "merge" flatRecords
  = (Return (VRef 2),
     flatRecords ++ [HObj [("b", VNum 2); ("c", VNum 4); ("a", VNum 1)]]).
Proof. vm_compute. reflexivity. Qed.

(** A nested object present on both sides is merged recursively. *)
Example merge_nested_records :
  resolveConflict (VRef 0) (VRef 2) "merge" nestedRecords
  = (Return (VRef 4),
     nestedRecords ++ [ HObj [("id", VStr "1"); ("nested", VRef 5)];
                        HObj [("b", VNum 2); ("c", VNum 4); ("a", VNum 1)] ]).
Proof. vm_compute. reflexivity. Qed.

(** C4.  Merging local [{ id: "1", array: [1, 2, 3] }] with cloud
    [{ id: "1", array: [3, 4, 5] }] yields the array [[3, 4, 5, 1, 2]]: the
    union has no duplicate, but the cloud elements come first. *)
Theorem merge_puts_cloud_elements_first :
  exists merged h' union,
    resolveConflict (VRef 0) (VRef 2) "merge" arrayRecords = (Return merged, h') /\
    getField h' merged "array" = VRef union /\
    nth_error h' union = Some (HArr [VNum 3; VNum 4; VNum 5; VNum 1; VNum 2]) /\
    nth_error h' union <> Some (HArr [VNum 1; VNum 2; VNum 3; VNum 4; VNum 5]).
Proof.
  exists (VRef 4), (snd (resolveConflict (VRef 0) (VRef 2) "merge" arrayRecords)), 5.
  vm_compute. repeat split. discriminate.
Qed.

(** C5.  The circular record of the test-suite, [localData.self = localData],
    merged with [{ id: "1", content: "cloud" }]: the merge returns a new
    object whose [self] is the circular local record; nothing is thrown. *)
Theorem merge_accepts_circular_record :
  resolveConflict (VRef 0) (VRef 1) "merge" selfReferential
  = (Return (VRef 2),
     selfReferential
       ++ [HObj [("id", VStr "1"); ("content", VStr "cloud"); ("self", VRef 0)]]).
Proof. vm_compute. reflexivity. Qed.

(** The circular records are closed heaps of objects, the inputs for which
    [merge_never_rejects_a_cycle] shows that the merge returns a value. *)
Example circular_records_are_object_graphs :
  MergeSpec.closedHeap selfReferential = true /\ MergeSpec.objectsOnly selfReferential = true /\
  MergeSpec.closedHeap bothSelfReferential = true /\
  MergeSpec.objectsOnly bothSelfReferential = true.
Proof. vm_compute. repeat split. Qed.

(** With a cycle on both sides the recursion meets the local record again,
    takes the object being built from [seen], and returns an object that is
    its own [self]. *)
Example merge_of_two_circular_records :
  resolveConflict (VRef 0) (VRef 1) "merge" bothSelfReferential
  = (Return (VRef 2), bothSelfReferential ++ [HObj [("id", VStr "1"); ("self", VRef 2)]]).
Proof. vm_compute. reflexivity. Qed.

End ConflictRuns.

(** * Properties of the motion-photo splice *)

Section BufferFacts.
Import LivePhoto.

(** *** [indexOf] finds the first occurrence *)

Lemma indexOfFrom_bounds (needle : Buffer) :
  forall buf pos, indexOfFrom needle buf pos = (-1)%Z
                  \/ (Z.of_nat pos <= indexOfFrom needle buf pos)%Z.
Proof.
  induction buf as [ | x buf IH]; intros pos; simpl.
  - destruct (startsWith needle []); [right; lia | left; reflexivity].
  - destruct (startsWith needle (x :: buf)); [right; lia | ].
    destruct (IH (S pos)) as [-> | H]; [left; reflexivity | right; lia].
Qed.


Lemma indexOfFrom_first (needle : Buffer) :
  forall buf pos q,
    indexOfFrom needle buf pos = Z.of_nat (pos + q) ->
    startsWith needle (skipn q buf) = true /\
    (forall j, j < q -> startsWith needle (skipn j buf) = false).
Proof.
  induction buf as [ | x buf IH]; intros pos q Hidx.
  - simpl in Hidx. destruct (startsWith needle []) eqn:Hhead; [ | lia].
    assert (q = 0) by lia. subst q. split; [exact Hhead | intros; lia].
  - cbn [indexOfFrom] in Hidx. destruct (startsWith needle (x :: buf)) eqn:Hhead.
    + assert (q = 0) by lia. subst q. split; [exact Hhead | intros; lia].
    + destruct q as [ | q].
      * destruct (indexOfFrom_bounds needle buf (S pos)); lia.
      * destruct (IH (S pos) q) as [Hat Hbefore]; [rewrite Hidx; f_equal; lia | ].
        split; [exact Hat | ].
        intros [ | j] Hj; [exact Hhead | apply Hbefore; lia].
Qed.

(** A two-byte marker occurs at [q] when the bytes at [q] and [q + 1] are
    its two bytes. *)
Lemma startsWith_pair (a b : byte) (buf : Buffer) (q : nat) :
  startsWith [a; b] (skipn q buf) = true
  <-> nth_error buf q = Some a /\ nth_error buf (S q) = Some b.
Proof.
  pose proof (nth_error_skipn q buf 0) as H0.
  pose proof (nth_error_skipn q buf 1) as H1.
  rewrite Nat.add_0_r in H0. replace (q + 1) with (S q) in H1 by lia.
  rewrite <- H0, <- H1.
  destruct (skipn q buf) as [ | x [ | y rest]]; simpl.
  - split; [discriminate | intros [H _]; discriminate].
  - rewrite andb_false_r. split; [discriminate | intros [_ H]; discriminate].
  - rewrite andb_true_r, andb_true_iff. split.
    + intros [Ha Hb]. apply Byte.byte_dec_bl in Ha, Hb. subst. auto.
    + intros [Ha Hb]. injection Ha as <-. injection Hb as <-.
      split; apply Byte.byte_dec_lb; reflexivity.
Qed.

(** *** [slice] with offsets inside the buffer *)

Lemma slice_prefix (buf : Buffer) (k : Z) :
  (0 <= k)%Z -> slice buf 0 k = firstn (Z.to_nat k) buf.
Proof.
  intros Hk. unfold slice, clampOffset.
  change (0 <? 0)%Z with false. cbv iota.
  destruct (Z.ltb_spec k 0) as [Hneg | _]; [lia | ].
  rewrite (Z.min_l 0) by lia. simpl skipn. rewrite Z.sub_0_r.
  destruct (Z.min_spec k (Z.of_nat (List.length buf))) as [[Hlt ->] | [Hge ->]];
    [reflexivity | ].
  rewrite Nat2Z.id, firstn_all. symmetry. apply firstn_all2. lia.
Qed.

Lemma slice_suffix (buf : Buffer) (k : Z) :
  (0 <= k)%Z -> sliceFrom buf k = skipn (Z.to_nat k) buf.
Proof.
  intros Hk. unfold sliceFrom, slice, clampOffset.
  destruct (Z.ltb_spec k 0) as [Hneg | _]; [lia | ].
  destruct (Z.ltb_spec (Z.of_nat (List.length buf)) 0) as [Hlen | _]; [lia | ].
  rewrite (Z.min_l (Z.of_nat _)) by lia.
  destruct (Z.min_spec k (Z.of_nat (List.length buf))) as [[Hlt ->] | [Hge ->]].
  - apply firstn_all2. rewrite length_skipn. lia.
  - rewrite Z.sub_diag, Nat2Z.id, skipn_all. simpl.
    symmetry. apply skipn_all2. lia.
Qed.

End BufferFacts.

Section SpliceFacts.
Import Js LivePhoto PhotoSpec.





Lemma xmp_length : List.length xmpMetadata = 671.
Proof. vm_compute. reflexivity. Qed.





End SpliceFacts.

(** *** The disk *)

Section DiskFacts.
Import Js LivePhoto.

Lemma lookup_store_same (path : string) (b : Buffer) (fs : list (string * Buffer)) :
  lookupFile path (storeFile path b fs) = Some b.
Proof.
  induction fs as [ | [p b'] fs IH]; simpl.
  - rewrite String.eqb_refl. reflexivity.
  - destruct (String.eqb path p) eqn:Heq; simpl; rewrite Heq; auto.
Qed.

Lemma lookup_store_other (path other : string) (b : Buffer) (fs : list (string * Buffer)) :
  String.eqb path other = false ->
  lookupFile path (storeFile other b fs) = lookupFile path fs.
Proof.
  intros Hneq. induction fs as [ | [p b'] fs IH]; simpl.
  - rewrite Hneq. reflexivity.
  - destruct (String.eqb other p) eqn:Heq; simpl.
    + apply String.eqb_eq in Heq. subst p. rewrite Hneq. reflexivity.
    + destruct (String.eqb path p); auto.
Qed.

Lemma lookup_remove_other (path other : string) (fs : list (string * Buffer)) :
  String.eqb path other = false ->
  lookupFile path (removeFile other fs) = lookupFile path fs.
Proof.
  intros Hneq. induction fs as [ | [p b'] fs IH]; simpl; [reflexivity | ].
  destruct (String.eqb other p) eqn:Heq; simpl.
  - apply String.eqb_eq in Heq. subst p. rewrite Hneq. reflexivity.
  - destruct (String.eqb path p); auto.
Qed.

Lemma append_cancel (p a b : string) : (p ++ a)%string = (p ++ b)%string -> a = b.
Proof. induction p as [ | c p IH]; simpl; intros H; [exact H | injection H; auto]. Qed.

(** The temporary files of one conversion differ by their extension. *)
Lemma temp_paths_differ (tempDir stamp ext1 ext2 : string) :
  ext1 <> ext2 ->
  String.eqb (join tempDir ("temp_" ++ stamp ++ ext1)) (join tempDir ("temp_" ++ stamp ++ ext2))
  = false.
Proof.
  intros Hext. apply String.eqb_neq. intros H. apply Hext.
  unfold join in H. apply append_cancel in H. simpl in H.
  injection H as H. apply append_cancel in H. exact H.
Qed.

Lemma readFile_found (path : string) (b : Buffer) (d : disk) :
  lookupFile path (files d) = Some b -> readFile path d = (Return b, d).
Proof. unfold readFile. intros ->. reflexivity. Qed.

Lemma unlink_found (path : string) (b : Buffer) (d : disk) :
  lookupFile path (files d) = Some b ->
  unlink path d = (Return tt, {| files := removeFile path (files d); clock := clock d |}).
Proof. unfold unlink. intros ->. reflexivity. Qed.

Lemma runFfmpeg_done (codec : Buffer -> completion Buffer) (input output : string)
    (source encoded : Buffer) (d : disk) :
  lookupFile input (files d) = Some source ->
  codec source = Return encoded ->
  runFfmpeg codec input output d
  = (Return tt, {| files := storeFile output encoded (files d); clock := clock d |}).
Proof.
  intros Hin Hcodec. unfold runFfmpeg, bind, lift.
  rewrite (readFile_found _ _ _ Hin), Hcodec. reflexivity.
Qed.

(** [extractJpegAndMp4] has no failure of its own: whatever the input file
    holds, it is cut two bytes after the offset [indexOf] returns. *)
Lemma extractJpegAndMp4_done (input jpegOutput mp4Output : string) (buffer : Buffer)
    (d : disk) :
  lookupFile input (files d) = Some buffer ->
  extractJpegAndMp4 input jpegOutput mp4Output d
  = (Return tt,
     {| files := storeFile mp4Output (sliceFrom buffer (indexOf buffer EOI + 2))
                   (storeFile jpegOutput (slice buffer 0 (indexOf buffer EOI + 2)) (files d));
        clock := clock d |}).
Proof.
  intros Hin. unfold extractJpegAndMp4, bind.
  rewrite (readFile_found _ _ _ Hin). reflexivity.
Qed.

End DiskFacts.

(** *** The two conversions *)

Section ServiceFacts.
Import Js LivePhoto PhotoSpec.

Variable tempDir : string.
Variable movToMp4 mp4ToMov : Buffer -> completion Buffer.

Local Abbreviation tempFile d ext :=
  (join tempDir ("temp_" ++ decimalN (clock d) ++ ext)).

Lemma convertToAndroidMotionPhoto_done (jpegPath movPath : string) (jpeg mov mp4 : Buffer)
    (d : disk) :
  lookupFile jpegPath (files d) = Some jpeg ->
  lookupFile movPath (files d) = Some mov ->
  movToMp4 mov = Return mp4 ->
  String.eqb jpegPath (tempFile d ".mp4") = false ->
  convertToAndroidMotionPhoto tempDir movToMp4 jpegPath movPath d
  = (Return (embedMp4IntoJpeg jpeg mp4),
     {| files := removeFile (tempFile d ".mp4") (storeFile (tempFile d ".mp4") mp4 (files d));
        clock := clock d |}).
Proof.
  intros Hjpeg Hmov Hcodec Hfresh.
  unfold convertToAndroidMotionPhoto, tryCatch, convertMovToMp4.
  unfold bind at 1, gets. cbv beta iota zeta.
  unfold bind at 1. rewrite (runFfmpeg_done _ _ _ _ _ _ Hmov Hcodec).
  set (d1 := {| files := storeFile _ mp4 (files d); clock := clock d |}).
  assert (Hjpeg1 : lookupFile jpegPath (files d1) = Some jpeg).
  { unfold d1. cbn [files]. rewrite lookup_store_other by exact Hfresh. exact Hjpeg. }
  assert (Hmp41 : lookupFile (tempFile d ".mp4") (files d1) = Some mp4).
  { unfold d1. cbn [files]. apply lookup_store_same. }
  unfold bind at 1. rewrite (readFile_found _ _ _ Hjpeg1).
  unfold bind at 1. rewrite (readFile_found _ _ _ Hmp41).
  unfold bind at 1. rewrite (unlink_found _ _ _ Hmp41).
  reflexivity.
Qed.

(** [convertToAppleLivePhoto] returns the two parts of the file cut two bytes
    after the offset [indexOf] returns for the end-of-image marker, the
    second one transcoded.  Nothing in it depends on the marker being there. *)
Lemma convertToAppleLivePhoto_done (motionPhotoPath : string) (buffer mov : Buffer)
    (d : disk) :
  lookupFile motionPhotoPath (files d) = Some buffer ->
  mp4ToMov (sliceFrom buffer (indexOf buffer EOI + 2)) = Return mov ->
  exists d',
    convertToAppleLivePhoto tempDir mp4ToMov motionPhotoPath d
    = (Return (slice buffer 0 (indexOf buffer EOI + 2), mov), d').
Proof.
  intros Hin Hcodec.
  pose proof (temp_paths_differ tempDir (decimalN (clock d)) ".jpg" ".mp4"
                ltac:(discriminate)) as Hjm.
  pose proof (temp_paths_differ tempDir (decimalN (clock d)) ".jpg" ".mov"
                ltac:(discriminate)) as Hjv.
  pose proof (temp_paths_differ tempDir (decimalN (clock d)) ".mp4" ".mov"
                ltac:(discriminate)) as Hmv.
  pose proof (temp_paths_differ tempDir (decimalN (clock d)) ".mov" ".jpg"
                ltac:(discriminate)) as Hvj.
  pose proof (temp_paths_differ tempDir (decimalN (clock d)) ".mov" ".mp4"
                ltac:(discriminate)) as Hvm.
  pose proof (temp_paths_differ tempDir (decimalN (clock d)) ".mp4" ".jpg"
                ltac:(discriminate)) as Hmj.
  unfold convertToAppleLivePhoto, tryCatch, convertMp4ToMov.
  unfold bind at 1, gets. cbv beta iota zeta.
  unfold bind at 1. rewrite (extractJpegAndMp4_done _ _ _ _ _ Hin).
  set (image := slice buffer 0 (indexOf buffer EOI + 2)) in *.
  set (payload := sliceFrom buffer (indexOf buffer EOI + 2)) in *.
  set (d1 := {| files := storeFile _ payload (storeFile _ image (files d));
                clock := clock d |}).
  assert (Hmp4 : lookupFile (tempFile d ".mp4") (files d1) = Some payload).
  { unfold d1. cbn [files]. apply lookup_store_same. }
  unfold bind at 1. rewrite (runFfmpeg_done _ _ _ _ _ _ Hmp4 Hcodec).
  set (d2 := {| files := storeFile _ mov (files d1); clock := clock d1 |}).
  assert (Hjpeg2 : lookupFile (tempFile d ".jpg") (files d2) = Some image).
  { unfold d2, d1. cbn [files].
    rewrite !lookup_store_other by assumption. apply lookup_store_same. }
  assert (Hmp42 : lookupFile (tempFile d ".mp4") (files d2) = Some payload).
  { unfold d2. cbn [files]. rewrite lookup_store_other by assumption. exact Hmp4. }
  assert (Hmov2 : lookupFile (tempFile d ".mov") (files d2) = Some mov).
  { unfold d2. cbn [files]. apply lookup_store_same. }
  unfold bind at 1. rewrite (readFile_found _ _ _ Hjpeg2).
  unfold bind at 1. rewrite (readFile_found _ _ _ Hmov2).
  unfold bind at 1. cbn [promiseAll].
  rewrite (unlink_found _ _ _ Hjpeg2).
  set (d3 := {| files := removeFile _ (files d2); clock := clock d2 |}).
  assert (Hmp43 : lookupFile (tempFile d ".mp4") (files d3) = Some payload).
  { unfold d3. cbn [files]. rewrite lookup_remove_other by assumption. exact Hmp42. }
  assert (Hmov3 : lookupFile (tempFile d ".mov") (files d3) = Some mov).
  { unfold d3. cbn [files]. rewrite lookup_remove_other by assumption. exact Hmov2. }
  rewrite (unlink_found _ _ _ Hmp43).
  set (d4 := {| files := removeFile _ (files d3); clock := clock d3 |}).
  assert (Hmov4 : lookupFile (tempFile d ".mov") (files d4) = Some mov).
  { unfold d4. cbn [files]. rewrite lookup_remove_other by assumption. exact Hmov3. }
  rewrite (unlink_found _ _ _ Hmov4).
  eexists. reflexivity.
Qed.


(** When the end-of-image marker is absent the file is cut after its first
    byte, and the conversion goes on with the two pieces. *)
Lemma missing_marker_splits_after_first_byte (motionPhotoPath : string)
    (buffer mov : Buffer) (d : disk) :
  lookupFile motionPhotoPath (files d) = Some buffer ->
  indexOf buffer EOI = (-1)%Z ->
  mp4ToMov (skipn 1 buffer) = Return mov ->
  exists d',
    convertToAppleLivePhoto tempDir mp4ToMov motionPhotoPath d
    = (Return (firstn 1 buffer, mov), d').
Proof.
  intros Hin Habsent Hcodec.
  destruct (convertToAppleLivePhoto_done motionPhotoPath buffer mov d Hin) as (d' & Hrun).
  - rewrite Habsent. rewrite slice_suffix by lia. exact Hcodec.
  - exists d'. rewrite Hrun, Habsent. rewrite slice_prefix by lia. reflexivity.
Qed.



End ServiceFacts.

(** *** Concrete conversions *)

Section PhotoRuns.
Import Js LivePhoto PhotoSpec PhotoScenario.



(** C8.  The file of the extraction test, which has no end-of-image marker:
    [extractJpegAndMp4] does not fail, it writes the first byte as the image
    and the rest as the clip, and [convertToAppleLivePhoto] returns that
    split. *)
Theorem missing_marker_yields_a_split :
  indexOf invalidContent EOI = (-1)%Z /\
  extractJpegAndMp4 "test.jpg" "jpeg.jpg" "video.mp4" download
  = (Return tt,
     {| files := [ ("test.jpg", invalidContent);
                   ("jpeg.jpg", bytesOf "i");
                   ("video.mp4", bytesOf "nvalid-content") ];
        clock := clock download |}) /\
  fst (convertToAppleLivePhoto "/tmp" lossless "test.jpg" download)
  = Return (bytesOf "i", bytesOf "nvalid-content").
Proof. vm_compute. repeat split. Qed.

End PhotoRuns.

(** * Further properties of the dispatcher *)

Section DispatcherEdges.
Import Js DataSynchronizer SyncSpec DispatchSpec.
Local Open Scope js_scope.

Variable accessToken : string.
Variable JSON_stringify : jsval -> option string.
Variable server : list request -> request -> fetched.
Variable convertToAppleMetadata : jsval -> completion jsval.
Variable writeFails : jsval -> bool.

Local Abbreviation fetchWithTimeout := (DataSynchronizer.fetchWithTimeout server).
Local Abbreviation persistMetadata :=
  (DataSynchronizer.persistMetadata convertToAppleMetadata writeFails).
Local Abbreviation mkRequest := (DataSynchronizer.mkRequest accessToken JSON_stringify).
Local Abbreviation singleSync :=
  (DataSynchronizer.singleSync accessToken JSON_stringify server convertToAppleMetadata
     writeFails).
Local Abbreviation batchLoop :=
  (DataSynchronizer.batchLoop accessToken JSON_stringify server convertToAppleMetadata
     writeFails).
Local Abbreviation syncData :=
  (DataSynchronizer.syncData accessToken JSON_stringify server convertToAppleMetadata
     writeFails).

(** *** Data that cannot be read *)

Lemma singleSync_unreadable (endpoint : string) (data : jsval) (method : string) (w : world) :
  readable data = false ->
  exists w', singleSync endpoint data method w = (Throw syncFailure, w').
Proof.
  intros Hdata.
  unfold DataSynchronizer.singleSync, tryCatch, bind.
  destruct (retryOperation _ MAX_RETRIES w) as [[resp | e] w1]; [ | eexists; reflexivity].
  destruct (ok resp); simpl; [ | eexists; reflexivity].
  unfold lift. destruct (json resp) as [payload | e]; [ | eexists; reflexivity].
  destruct data; try discriminate; simpl; eexists; reflexivity.
Qed.

(** X1: [syncData] never returns for [null] or [undefined] data.  Whatever
    the endpoint answers, the call is made (between one and [MAX_RETRIES]
    times) and the promise is rejected with the generic failure: after an
    accepted call the metadata branch reads [data.metadata] and throws. *)
Theorem unreadable_data_is_sent_and_rejected
    (endpoint : string) (data : jsval) (method : string) (w : world) :
  readable data = false ->
  exists w' k,
    syncData endpoint data method w = (Throw syncFailure, w') /\
    1 <= k <= MAX_RETRIES /\
    requests w' = requests w ++ repeat (mkRequest endpoint data method) k.
Proof.
  intros Hdata.
  destruct (singleSync_unreadable endpoint data method w Hdata) as (w' & Hrun).
  destruct (singleSync_log accessToken JSON_stringify server convertToAppleMetadata
              writeFails endpoint data method w) as (k & Hk & Hlog).
  exists w', k. rewrite Hrun in Hlog. simpl in Hlog.
  repeat split; try tauto.
  unfold DataSynchronizer.syncData.
  destruct data; try discriminate; unfold bind; rewrite Hrun; reflexivity.
Qed.

(** *** Back-off *)

Lemma persistMetadata_quiet (item : jsval) : quiet (persistMetadata item).
Proof.
  intros w.
  unfold DataSynchronizer.persistMetadata, bind, getProp, lift, saveMetadata.
  destruct item; simpl; auto.
  destruct (truthy (lookup "metadata" props)); simpl; auto.
  destruct (convertToAppleMetadata (lookup "metadata" props)); simpl; auto.
  destruct (writeFails (lookup "id" props)); simpl; auto.
Qed.

Lemma promiseAll_quiet {A} (tasks : list (M world A)) :
  Forall quiet tasks -> quiet (promiseAll tasks).
Proof.
  induction 1 as [ | t tl Ht _ IH]; intros w; simpl; [auto | ].
  destruct (Ht w) as [Hr Hs]. destruct (t w) as [r w1]. simpl in Hr, Hs.
  destruct (IH w1) as [Hr' Hs']. destruct (promiseAll tl w1) as [rs w2]. simpl in Hr', Hs'.
  destruct r, rs; simpl; split; congruence.
Qed.

Lemma persistAll_quiet (items : list jsval) : quiet (promiseAll (map persistMetadata items)).
Proof.
  apply promiseAll_quiet, Forall_forall. intros t Hin.
  apply in_map_iff in Hin. destruct Hin as (item & <- & _).
  apply persistMetadata_quiet.
Qed.

(** A retried operation that makes one call per run and does not sleep
    itself: after [k] runs it has slept the delays of the attempts
    [retries - remaining], ..., up to the last but one. *)
Lemma retryFrom_schedule {A} (operation : M world A) (req : request) :
  (forall w, requests (snd (operation w)) = requests w ++ [req] /\
             sleeps (snd (operation w)) = sleeps w) ->
  forall retries remaining w, 1 <= remaining <= retries ->
    exists k, 1 <= k <= remaining /\
      requests (snd (retryFrom operation retries remaining w))
      = requests w ++ repeat req k /\
      sleeps (snd (retryFrom operation retries remaining w))
      = sleeps w ++ map backoff (seq (retries - remaining) (k - 1)).
Proof.
  intros Hop retries remaining.
  induction remaining as [ | remaining IH]; intros w Hrem; [lia | ].
  destruct (Hop w) as [Hlog1 Hsl1].
  cbn [retryFrom]. unfold tryCatch.
  destruct (operation w) as [[a | e] w1] eqn:Hrun; simpl in Hlog1, Hsl1.
  - exists 1. simpl. rewrite app_nil_r. repeat split; auto; lia.
  - destruct (retries - S remaining =? retries - 1)%nat eqn:Hlast.
    + exists 1. simpl. rewrite app_nil_r. repeat split; auto; lia.
    + apply Nat.eqb_neq in Hlast. unfold bind, sleep, modify.
      match goal with
      | |- context [retryFrom operation retries remaining ?w2] =>
          destruct (IH w2) as (k & Hk & Hlog2 & Hsl2); [lia | ]
      end.
      exists (S k). split; [lia | ]. rewrite Hlog2, Hsl2. cbn [requests sleeps].
      rewrite Hlog1, Hsl1. split.
      * rewrite <- app_assoc. reflexivity.
      * rewrite <- app_assoc. f_equal.
        replace (S k - 1) with (S (k - 1)) by lia.
        cbn [seq map]. unfold backoff at 2.
        replace (S (retries - S remaining)) with (retries - remaining) by lia.
        reflexivity.
Qed.

(** X2: the calls and the delays of one [singleSync].  It makes [k] calls,
    between one and [MAX_RETRIES], all with the same request, and has slept
    [INITIAL_BACKOFF * 2 ^ i] after each failed call [i] but the last:
    1 s, 2 s, 4 s, 8 s at most, and nothing after the call that ends it. *)
Theorem calls_and_delays_of_one_dispatch
    (endpoint : string) (data : jsval) (method : string) (w : world) :
  exists k, 1 <= k <= MAX_RETRIES /\
    requests (snd (singleSync endpoint data method w))
    = requests w ++ repeat (mkRequest endpoint data method) k /\
    sleeps (snd (singleSync endpoint data method w))
    = sleeps w ++ map backoff (seq 0 (k - 1)) /\
    Forall (fun delay => In delay [1000; 2000; 4000; 8000]%Z)
           (map backoff (seq 0 (k - 1))).
Proof.
  destruct (retryFrom_schedule (fetchWithTimeout (mkRequest endpoint data method))
              (mkRequest endpoint data method)) with
    (retries := MAX_RETRIES) (remaining := MAX_RETRIES) (w := w) as (k & Hk & Hlog & Hsl).
  { intros w0. split; [apply fetchWithTimeout_log | ].
    unfold DataSynchronizer.fetchWithTimeout, tryCatch, fetch.
    destruct (server (requests w0) (mkRequest endpoint data method)) as [e | r];
      simpl; [ | reflexivity].
    destruct (instanceofError e && String.eqb (errorName e) "AbortError"); reflexivity. }
  { unfold MAX_RETRIES; lia. }
  rewrite Nat.sub_diag in Hsl.
  exists k. split; [exact Hk | ].
  assert (Hschedule : Forall (fun delay => In delay [1000; 2000; 4000; 8000]%Z)
                             (map backoff (seq 0 (k - 1)))).
  { unfold MAX_RETRIES in Hk.
    assert (Hcases : k = 1 \/ k = 2 \/ k = 3 \/ k = 4 \/ k = 5) by lia.
    destruct Hcases as [-> | [-> | [-> | [-> | ->]]]]; vm_compute;
      repeat (apply Forall_cons; [simpl; auto 10 | ]); apply Forall_nil. }
  assert (Hboth :
    requests (snd (singleSync endpoint data method w))
    = requests w ++ repeat (mkRequest endpoint data method) k /\
    sleeps (snd (singleSync endpoint data method w))
    = sleeps w ++ map backoff (seq 0 (k - 1))).
  { unfold DataSynchronizer.singleSync, tryCatch, bind, retryOperation.
    destruct (retryFrom _ _ _ w) as [[resp | e] w1]; simpl in Hlog, Hsl; simpl; [ | auto].
    destruct (ok resp); simpl; [ | auto].
    unfold lift. destruct (json resp) as [payload | e]; simpl; [ | auto].
    assert (Hquiet : quiet (match data with
                            | JArr items =>
                                promiseAll (map persistMetadata items) ;;; ret tt
                            | _ => persistMetadata data
                            end)).
    { destruct data; try apply persistMetadata_quiet.
      intros w0. unfold bind, ret.
      destruct (persistAll_quiet elems w0) as [Hr Hs].
      destruct (promiseAll _ w0) as [[l | e] w2]; simpl in *; auto. }
    destruct (Hquiet w1) as [Hr Hs].
    match goal with
    | |- context [match ?c w1 with _ => _ end] =>
        change c with (match data with
                       | JArr items =>
                           promiseAll (map persistMetadata items) ;;; ret tt
                       | _ => persistMetadata data
                       end)
    end.
    destruct ((match data with
               | JArr items => promiseAll (map persistMetadata items) ;;; ret tt
               | _ => persistMetadata data
               end) w1) as [[[] | e] w2]; simpl in *; split; congruence. }
  tauto.
Qed.

(** *** A healthy endpoint *)

Lemma persistAll_plain (items : list jsval) (w : world) :
  forallb plain items = true ->
  exists done, promiseAll (map persistMetadata items) w = (Return done, w).
Proof.
  induction items as [ | item items IH]; intros Hplain; [exists []; reflexivity | ].
  simpl in Hplain. apply andb_true_iff in Hplain. destruct Hplain as [Hitem Hrest].
  destruct (IH Hrest) as (done & Hdone).
  assert (Hone : persistMetadata item w = (Return tt, w)).
  { unfold DataSynchronizer.persistMetadata, bind, getProp.
    destruct item; try discriminate; try reflexivity.
    simpl in Hitem. apply negb_true_iff in Hitem. simpl. rewrite Hitem. reflexivity. }
  exists (tt :: done). cbn [map promiseAll]. rewrite Hone, Hdone. reflexivity.
Qed.

Lemma singleSync_cooperative (endpoint : string) (batch : list jsval) (method : string)
    (w : world) :
  cooperative server ->
  forallb plain batch = true ->
  exists payload,
    retryOperation (singleSync endpoint (JArr batch) method) MAX_RETRIES w
    = (Return payload, logged w [mkRequest endpoint (JArr batch) method]).
Proof.
  intros Hserver Hplain.
  destruct (Hserver (requests w) (mkRequest endpoint (JArr batch) method))
    as (r & payload & Hcall & Hok & Hjson).
  exists payload.
  unfold retryOperation, MAX_RETRIES. cbn [retryFrom]. unfold tryCatch at 1.
  assert (Hsingle : singleSync endpoint (JArr batch) method w
                    = (Return payload, logged w [mkRequest endpoint (JArr batch) method])).
  { unfold DataSynchronizer.singleSync, retryOperation, MAX_RETRIES. cbn [retryFrom].
    unfold tryCatch, DataSynchronizer.fetchWithTimeout, tryCatch, fetch, bind.
    rewrite Hcall, Hok. simpl. unfold lift. rewrite Hjson.
    match goal with
    | |- context [promiseAll _ ?w1] =>
        destruct (persistAll_plain batch w1 Hplain) as (done & ->)
    end.
    reflexivity. }
  rewrite Hsingle. reflexivity.
Qed.

Lemma batchLoop_cooperative (endpoint : string) (data : list jsval) (method : string) :
  cooperative server ->
  forallb plain data = true ->
  forall fuel i acc w, exists payloads,
    batchLoop fuel endpoint data method i acc w
    = (Return {| results := results acc ++ flat_map asArray payloads;
                 errors := errors acc |},
       logged w (map (fun batch => mkRequest endpoint (JArr batch) method)
                     (batchesFrom fuel data i))) /\
    List.length payloads = List.length (batchesFrom fuel data i).
Proof.
  intros Hserver Hplain fuel.
  assert (Hnil : forall w, logged w [] = w).
  { intros [rs sl md]. unfold logged. simpl. rewrite app_nil_r. reflexivity. }
  induction fuel as [ | fuel IH]; intros i acc w.
  - exists []. simpl. rewrite app_nil_r, Hnil. destruct acc; auto.
  - cbn [DataSynchronizer.batchLoop batchesFrom].
    destruct (i <? List.length data)%nat.
    2:{ exists []. simpl. rewrite app_nil_r, Hnil. destruct acc; auto. }
    set (batch := slice data i (i + BATCH_SIZE)).
    destruct (singleSync_cooperative endpoint batch method w Hserver
                (forallb_slice _ _ _ _ Hplain)) as (payload & Hrun).
    unfold bind at 1, attempt. rewrite Hrun.
    match goal with
    | |- context [DataSynchronizer.batchLoop _ _ _ _ _ fuel _ _ _ _ ?acc1 ?w1] =>
        destruct (IH (i + BATCH_SIZE) acc1 w1) as (payloads & Hloop & Hlen)
    end.
    exists (payload :: payloads). rewrite Hloop. cbn [results errors flat_map map List.length].
    rewrite <- app_assoc. split; [ | lia].
    f_equal. unfold logged. cbn [requests sleeps savedMetadata].
    rewrite <- app_assoc. reflexivity.
Qed.

Lemma batchesFrom_bounds (data : list jsval) :
  forall fuel i,
    Forall (fun batch => 1 <= List.length batch <= BATCH_SIZE) (batchesFrom fuel data i).
Proof.
  induction fuel as [ | fuel IH]; intros i; [constructor | ].
  cbn [batchesFrom]. destruct (i <? List.length data)%nat eqn:Hi; [ | constructor].
  apply Nat.ltb_lt in Hi. constructor; [ | apply IH].
  unfold slice. rewrite length_firstn, length_skipn. unfold BATCH_SIZE. lia.
Qed.

Lemma batchesFrom_length (data : list jsval) :
  forall fuel i,
    List.length data - i <= fuel ->
    List.length (batchesFrom fuel data i) * BATCH_SIZE
    < List.length data - i + BATCH_SIZE /\
    List.length data - i <= List.length (batchesFrom fuel data i) * BATCH_SIZE.
Proof.
  induction fuel as [ | fuel IH]; intros i Hfuel.
  - simpl. unfold BATCH_SIZE. lia.
  - cbn [batchesFrom]. destruct (i <? List.length data)%nat eqn:Hi.
    + apply Nat.ltb_lt in Hi. cbn [List.length].
      specialize (IH (i + BATCH_SIZE)). unfold BATCH_SIZE in *.
      assert (List.length data - (i + 100) <= fuel) by lia.
      specialize (IH H). lia.
    + apply Nat.ltb_ge in Hi. simpl. unfold BATCH_SIZE. lia.
Qed.

(** X3: a batched submission to a healthy endpoint.  When every call is
    answered and no record has metadata to persist, [syncData] on more than
    [BATCH_SIZE] records makes exactly one call per batch, in order, each
    carrying its slice of at most [BATCH_SIZE] records; there are
    [ceil (n / BATCH_SIZE)] of them, no delay is slept and no error entry
    is produced. *)
Theorem healthy_batched_run_makes_one_call_per_batch
    (endpoint : string) (items : list jsval) (method : string) (w : world) :
  cooperative server ->
  forallb plain items = true ->
  BATCH_SIZE < List.length items ->
  exists out w',
    syncData endpoint (JArr items) method w = (Return out, w') /\
    errors out = [] /\
    requests w' = requests w
                  ++ map (fun batch => mkRequest endpoint (JArr batch) method)
                         (batchesOf items) /\
    sleeps w' = sleeps w /\
    List.concat (batchesOf items) = items /\
    Forall (fun batch => 1 <= List.length batch <= BATCH_SIZE) (batchesOf items) /\
    List.length items <= List.length (batchesOf items) * BATCH_SIZE
                      < List.length items + BATCH_SIZE.
Proof.
  intros Hserver Hplain Hbig.
  destruct (batchLoop_cooperative endpoint items method Hserver Hplain
              (List.length items) 0 {| results := []; errors := [] |} w)
    as (payloads & Hloop & Hlen).
  eexists _, _. split.
  { unfold DataSynchronizer.syncData.
    apply Nat.ltb_lt in Hbig. rewrite Hbig. unfold batchSync. exact Hloop. }
  cbn [errors requests sleeps logged].
  repeat split; auto.
  - apply batchesOf_concat.
  - apply batchesFrom_bounds.
  - pose proof (batchesFrom_length items (List.length items) 0) as H.
    unfold batchesOf. lia.
  - pose proof (batchesFrom_length items (List.length items) 0) as H.
    unfold batchesOf. lia.
Qed.

(** *** Metadata that cannot be kept *)

(** X4: an accepted record whose metadata cannot be kept is reported as
    failed.  When the endpoint accepts a record at the first call and the
    record carries metadata, a conversion that throws or a document that cannot
    be written rejects [syncData] with the generic failure: the response
    already received is dropped, no document is saved, and the call is neither
    repeated nor undone. *)
Theorem accepted_record_fails_when_its_metadata_cannot_be_kept
    (endpoint : string) (props : list (string * jsval)) (method : string)
    (r : response) (payload : jsval) (w : world) :
  server (requests w) (mkRequest endpoint (JObj props) method) = Responded r ->
  ok r = true ->
  json r = Return payload ->
  truthy (lookup "metadata" props) = true ->
  (exists e, convertToAppleMetadata (lookup "metadata" props) = Throw e) \/
  writeFails (lookup "id" props) = true ->
  syncData endpoint (JObj props) method w
  = (Throw syncFailure, logged w [mkRequest endpoint (JObj props) method]).
Proof.
  intros Hcall Hok Hjson Hmetadata Hkept.
  unfold DataSynchronizer.syncData, DataSynchronizer.singleSync,
    DataSynchronizer.retryOperation, MAX_RETRIES.
  cbn [DataSynchronizer.retryFrom].
  unfold bind, tryCatch, DataSynchronizer.fetchWithTimeout, tryCatch, fetch.
  rewrite Hcall, Hok. simpl. unfold lift. rewrite Hjson.
  unfold DataSynchronizer.persistMetadata, bind, getProp, ret, lift.
  rewrite Hmetadata.
  destruct Hkept as [(e & Hconvert) | Hwrite].
  - rewrite Hconvert. reflexivity.
  - destruct (convertToAppleMetadata (lookup "metadata" props)) as [converted | e];
      [ | reflexivity].
    unfold DataSynchronizer.saveMetadata. rewrite Hwrite. reflexivity.
Qed.

End DispatcherEdges.

(** * Further properties of the conflict resolution *)

Section MergeStops.
Import Js ConflictResolution MergeSpec MergeEdges.
Local Open Scope js_scope.

Variable h0 : heap.
Hypothesis Hclosed : closedHeap h0 = true.
Variable a c : nat.
Variable localProps cloudProps : list (string * value).
Hypothesis local_cell : nth_error h0 a = Some (HObj localProps).
Hypothesis cloud_cell : nth_error h0 c = Some (HObj cloudProps).
Variable output : nat.
Hypothesis output_fresh : List.length h0 <= output.
Variable recur : value -> value -> M store value.
Hypothesis recur_preserved :
  forall target source s v s',
    recur target source s = (Return v, s') -> preserved None s s'.

(** The array field [k] of the local record that has no iterable
    counterpart in the cloud record. *)
Variable k : string.
Variable u : nat.
Variable elems : list value.
Hypothesis local_array : getOwn k localProps = Some (VRef u).
Hypothesis array_cell : nth_error h0 u = Some (HArr elems).
Hypothesis cloud_other : iterable h0 (getField h0 (VRef c) k) = false.

Local Abbreviation callback := (mergeKey recur output (VRef c) (VRef a)).

Lemma iterate_refused (v : value) (s : store) :
  agrees h0 s -> closedValue (List.length h0) v = true -> iterable h0 v = false ->
  exists e, iterate v s = (Throw e, s).
Proof.
  intros Hagree Hv Hnot. destruct v; try (eexists; reflexivity); [discriminate | ].
  unfold iterate. read_heap. simpl in Hv. apply Nat.ltb_lt in Hv.
  rewrite (Hagree a0 Hv). simpl in Hnot.
  destruct (nth_error h0 a0) as [[props | l] | ]; try discriminate; eexists; reflexivity.
Qed.

Lemma mergeKey_stuck (s : store) :
  agrees h0 s -> exists e, callback k s = (Throw e, s).
Proof.
  intros Hagree.
  assert (Ha : a < List.length h0) by (apply nth_error_Some; congruence).
  assert (Hc : c < List.length h0) by (apply nth_error_Some; congruence).
  assert (Hu : u < List.length h0) by (apply nth_error_Some; congruence).
  unfold mergeKey. read_heap.
  rewrite (agrees_getField h0 s a k Hagree Ha).
  assert (Hsource : getField h0 (VRef a) k = VRef u).
  { unfold getField. rewrite local_cell, local_array. reflexivity. }
  rewrite Hsource. read_heap.
  assert (Harray : isArray (cells s) (VRef u) = true).
  { unfold isArray. rewrite (Hagree u Hu), array_cell. reflexivity. }
  rewrite Harray. read_heap.
  rewrite (agrees_getField h0 s c k Hagree Hc).
  destruct (iterate_refused (getField h0 (VRef c) k) s Hagree
              (getField_closed h0 Hclosed _ _) cloud_other) as (e & Hthrow).
  exists e. unfold bind at 1. rewrite Hthrow. reflexivity.
Qed.

Lemma forEach_stops (keys : list string) :
  forall s s' props,
    In k keys ->
    agrees h0 s ->
    nth_error (cells s) output = Some (HObj props) ->
    forEach keys callback s <> (Return tt, s').
Proof.
  induction keys as [ | key keys IH]; intros s s' props Hin Hagree Hcell Hrun; [exact Hin | ].
  cbn [forEach] in Hrun. apply bind_Return in Hrun.
  destruct Hrun as ([] & s1 & Hstep & Hrest).
  destruct (String.eqb_spec key k) as [-> | Hother].
  - destruct (mergeKey_stuck s Hagree) as (e & Hthrow). congruence.
  - destruct (mergeKey_step recur recur_preserved output _ _ key s s1 props Hcell Hstep)
      as (x & Hcell1 & Hkept & _).
    apply (IH s1 s' (setOwn key x props)); [destruct Hin; congruence | | exact Hcell1 | exact Hrest].
    apply (agrees_preserved h0 output s s1 Hagree output_fresh Hkept).
Qed.

End MergeStops.

Section MergeOutcomes.
Import Js ConflictResolution MergeSpec MergeEdges.
Local Open Scope js_scope.

Variable parseDate : string -> option Z.
Variable JSON_stringify : heap -> list (string * value) -> completion string.

Local Abbreviation resolveConflict :=
  (ConflictResolution.resolveConflict parseDate JSON_stringify).

Lemma merge_result_is_fresh (h h' : heap) (a : nat) (cloudData merged : value) :
  merge (VRef a) cloudData h = (Return merged, h') -> merged = VRef (List.length h).
Proof.
  unfold merge. intros Hrun.
  destruct (deepMerge _ _ _ _) as [r s'] eqn:Hdeep. injection Hrun as -> <-.
  cbn [deepMerge] in Hdeep.
  unfold bind at 1, seenLookup, gets in Hdeep. cbn [seen seenGet] in Hdeep.
  read_heap_in Hdeep.
  unfold bind at 1, alloc in Hdeep. unfold bind at 1, seenSet, modify in Hdeep.
  cbn [cells seen] in Hdeep.
  read_heap_in Hdeep.
  apply bind_Return in Hdeep.
  destruct Hdeep as ([] & s3 & _ & Hret). injection Hret as <- _. reflexivity.
Qed.

Lemma typeError_is_wrapped (e : thrown) :
  errorName e = "TypeError" -> instanceofAppError e = false.
Proof. destruct e; simpl; intros H; try reflexivity; discriminate. Qed.

(** X5: the merge strategy always terminates and spares its inputs.  On a
    heap without dangling references, whatever its cycles, merging a local
    object with any cloud value either returns a newly allocated object,
    every cell the heap had being left as it was, or is rejected with the
    500 error of the service -- and this only when the heap holds an array.
    The stack is never exhausted. *)
Theorem merge_terminates_and_spares_its_inputs (h : heap) (a : nat) (cloudData : value) :
  closedHeap h = true -> a < List.length h ->
  (exists h',
     resolveConflict (VRef a) cloudData "merge" h = (Return (VRef (List.length h)), h') /\
     firstn (List.length h) h' = h)
  \/
  (exists h',
     resolveConflict (VRef a) cloudData "merge" h
     = (Throw (AppError "Failed to resolve conflict" 500), h') /\
     objectsOnly h = false).
Proof.
  intros Hclosed Ha.
  pose proof (merge_terminates h a cloudData Hclosed Ha) as Hrun.
  unfold ConflictResolution.resolveConflict, strategies.
  cbn [String.eqb Ascii.eqb Bool.eqb]. unfold tryCatch.
  destruct (merge (VRef a) cloudData h) as [[merged | e] h'] eqn:Hmerge.
  - left. exists h'. rewrite (merge_result_is_fresh h h' a cloudData merged Hmerge). auto.
  - right. exists h'. destruct Hrun as (Hname & Harrays).
    rewrite (typeError_is_wrapped e Hname). auto.
Qed.

(** X6: an array only the local record has.  When a field of the local
    record is an array and the cloud record has no array or string under the
    same key -- the field is absent, say -- the merge strategy spreads a
    value that is not iterable: the resolution is rejected with the 500
    error of the service and no merged record is returned. *)
Theorem merge_rejects_an_array_the_cloud_lacks
    (h : heap) (a c u : nat) (localProps cloudProps : list (string * value))
    (k : string) (elems : list value) :
  closedHeap h = true ->
  nth_error h a = Some (HObj localProps) ->
  nth_error h c = Some (HObj cloudProps) ->
  getOwn k localProps = Some (VRef u) ->
  nth_error h u = Some (HArr elems) ->
  iterable h (getField h (VRef c) k) = false ->
  exists h',
    resolveConflict (VRef a) (VRef c) "merge" h
    = (Throw (AppError "Failed to resolve conflict" 500), h').
Proof.
  intros Hclosed Hlocal Hcloud Hk Hu Hother.
  assert (Ha : a < List.length h) by (apply nth_error_Some; congruence).
  assert (Hc : c < List.length h) by (apply nth_error_Some; congruence).
  pose proof (merge_terminates h a (VRef c) Hclosed Ha) as Hrun.
  unfold ConflictResolution.resolveConflict, strategies.
  cbn [String.eqb Ascii.eqb Bool.eqb]. unfold tryCatch.
  destruct (merge (VRef a) (VRef c) h) as [[merged | e] h'] eqn:Hmerge.
  2:{ exists h'. destruct Hrun as (Hname & _).
      rewrite (typeError_is_wrapped e Hname). reflexivity. }
  exfalso. clear Hrun.
  unfold merge in Hmerge.
  destruct (deepMerge _ _ _ _) as [r s'] eqn:Hdeep. injection Hmerge as -> <-.
  cbn [deepMerge] in Hdeep.
  unfold bind at 1, seenLookup, gets in Hdeep. cbn [seen seenGet] in Hdeep.
  read_heap_in Hdeep.
  unfold bind at 1, alloc in Hdeep. unfold bind at 1, seenSet, modify in Hdeep.
  cbn [cells seen] in Hdeep.
  unfold spreadProps in Hdeep. rewrite Hcloud in Hdeep.
  set (s2 := {| cells := h ++ [HObj cloudProps];
                seen := [(a, VRef (List.length h))] |}) in *.
  assert (Hagree : agrees h s2).
  { intros i Hi. unfold s2. cbn [cells]. apply nth_error_app1. exact Hi. }
  assert (Hcell : nth_error (cells s2) (List.length h) = Some (HObj cloudProps)).
  { unfold s2. cbn [cells]. rewrite nth_error_app2 by lia. rewrite Nat.sub_diag. reflexivity. }
  read_heap_in Hdeep.
  assert (Hboth : isObject (cells s2) (VRef c) && isObject (cells s2) (VRef a) = true).
  { unfold isObject. rewrite (Hagree c Hc), (Hagree a Ha), Hcloud, Hlocal. reflexivity. }
  rewrite Hboth in Hdeep. apply bind_Return in Hdeep.
  destruct Hdeep as ([] & s3 & Hloop & Hret).
  read_heap_in Hloop.
  assert (Hkeys : keysOf (cells s2) (VRef a) = map fst localProps).
  { unfold keysOf. rewrite (Hagree a Ha), Hlocal. reflexivity. }
  rewrite Hkeys in Hloop.
  revert Hloop.
  apply (forEach_stops h Hclosed a c localProps cloudProps Hlocal Hcloud
           (List.length h) (le_n _) (deepMerge (List.length h)) (deepMerge_preserved _)
           k u elems Hk Hu Hother (map fst localProps) s2 s3 cloudProps).
  - apply getOwn_keys. congruence.
  - exact Hagree.
  - exact Hcell.
Qed.

(** X7: strategies that are not carried out.  The manual strategy never
    returns a record and never changes one: it rejects with status 409 and
    the printed pair of records, or, when the pair cannot be printed (a
    circular record), with the 500 error of the service.  A strategy name
    the service does not know is rejected with status 400. *)
Theorem manual_and_unknown_strategies_reject
    (h : heap) (localData cloudData : value) (name : string) :
  (resolveConflict localData cloudData "manual" h
   = (Throw match JSON_stringify h [("localData", localData); ("cloudData", cloudData)] with
            | Return text => AppError ("Manual resolution required: " ++ text) 409
            | Throw e => if instanceofAppError e then e
                         else AppError "Failed to resolve conflict" 500
            end, h))
  /\
  (name <> "lastWriteWins" -> name <> "merge" -> name <> "manual" ->
   resolveConflict localData cloudData name h
   = (Throw (AppError "Invalid conflict resolution strategy" 400), h)).
Proof.
  split.
  - unfold ConflictResolution.resolveConflict, strategies.
    cbn [String.eqb Ascii.eqb Bool.eqb]. unfold tryCatch, manual, bind.
    destruct (JSON_stringify h _) as [text | e]; [reflexivity | ].
    destruct (instanceofAppError e); reflexivity.
  - intros Hlast Hmerge Hmanual.
    apply String.eqb_neq in Hlast, Hmerge, Hmanual.
    unfold ConflictResolution.resolveConflict, strategies.
    rewrite Hlast, Hmerge, Hmanual. reflexivity.
Qed.

End MergeOutcomes.

(** * Further properties of the motion-photo service *)

Section SpliceEdges.
Import Js LivePhoto PhotoSpec.

Lemma indexOf_offset (buf needle : Buffer) : (1 <= indexOf buf needle + 2)%Z.
Proof.
  unfold indexOf. destruct (indexOfFrom_bounds needle buf 0) as [H | H]; lia.
Qed.


(** X8: the splice only inserts.  Whatever the two buffers, the motion
    photo is the still image with the 671 bytes of the XMP block put in at one
    offset, followed by the clip; no byte of either is dropped or changed.
    The offset is 2 past the first [FF E1] marker, and 1 when the image has
    no such marker. *)
Theorem embedding_only_inserts (jpeg mp4 : Buffer) :
  exists e,
    ((indexOf jpeg APP1 = (-1)%Z /\ e = 1)
     \/ (exists q, indexOf jpeg APP1 = Z.of_nat q /\ e = q + 2 /\
                   nth_error jpeg q = Some xff /\ nth_error jpeg (S q) = Some xe1)) /\
    embedMp4IntoJpeg jpeg mp4 = firstn e jpeg ++ xmpMetadata ++ skipn e jpeg ++ mp4 /\
    List.length (embedMp4IntoJpeg jpeg mp4) = List.length jpeg + 671 + List.length mp4.
Proof.
  exists (Z.to_nat (indexOf jpeg APP1 + 2)).
  pose proof (indexOf_offset jpeg APP1) as Hpos.
  split; [ | split].
  - unfold indexOf in *. destruct (indexOfFrom_bounds APP1 jpeg 0) as [Habsent | Hfound].
    + left. rewrite Habsent. split; reflexivity.
    + right. exists (Z.to_nat (indexOfFrom APP1 jpeg 0)).
      assert (Hq : indexOfFrom APP1 jpeg 0
                   = Z.of_nat (0 + Z.to_nat (indexOfFrom APP1 jpeg 0))) by lia.
      destruct (indexOfFrom_first APP1 jpeg 0 _ Hq) as [Hhere _].
      apply startsWith_pair in Hhere.
      repeat split; try tauto; lia.
  - unfold embedMp4IntoJpeg. rewrite slice_prefix, slice_suffix by lia. reflexivity.
  - unfold embedMp4IntoJpeg. rewrite slice_prefix, slice_suffix by lia.
    rewrite !length_app, xmp_length, length_firstn, length_skipn. lia.
Qed.

End SpliceEdges.

Section DiskEdges.
Import Js LivePhoto.


Lemma remove_store_absent (p : string) (b : Buffer) (fs : list (string * Buffer)) :
  lookupFile p fs = None -> removeFile p (storeFile p b fs) = fs.
Proof.
  induction fs as [ | [k v] fs IH]; simpl.
  - intros _. rewrite String.eqb_refl. reflexivity.
  - destruct (String.eqb p k) eqn:Hpk; [discriminate | ].
    intros Habsent. simpl. rewrite Hpk, (IH Habsent). reflexivity.
Qed.

End DiskEdges.

Section ServiceEdges.
Import Js LivePhoto PhotoSpec.

Variable tempDir : string.
Variable movToMp4 mp4ToMov : Buffer -> completion Buffer.

Local Abbreviation tempFile d ext :=
  (join tempDir ("temp_" ++ decimalN (clock d) ++ ext)).


(** X10: a failed conversion leaves its temporary clip behind.  When the
    clip is transcoded but the still image cannot be read,
    [convertToAndroidMotionPhoto] rejects with its 500 error and the
    transcoded clip stays in the temporary directory: the cleanup is on the
    success path only. *)
Theorem failed_conversion_leaves_the_temporary_clip
    (jpegPath movPath : string) (mov mp4 : Buffer) (d : disk) :
  lookupFile movPath (files d) = Some mov ->
  movToMp4 mov = Return mp4 ->
  lookupFile jpegPath (files d) = None ->
  String.eqb jpegPath (tempFile d ".mp4") = false ->
  exists d',
    convertToAndroidMotionPhoto tempDir movToMp4 jpegPath movPath d
    = (Throw (AppError "Failed to convert Live Photo" 500), d') /\
    lookupFile (tempFile d ".mp4") (files d') = Some mp4 /\
    (forall path, String.eqb path (tempFile d ".mp4") = false ->
                  lookupFile path (files d') = lookupFile path (files d)).
Proof.
  intros Hmov Hcodec Hjpeg Hfresh.
  unfold convertToAndroidMotionPhoto, tryCatch, convertMovToMp4.
  unfold bind at 1, gets. cbv beta iota zeta.
  unfold bind at 1. rewrite (runFfmpeg_done _ _ _ _ _ _ Hmov Hcodec).
  unfold bind at 1, readFile. cbn [files].
  rewrite lookup_store_other by exact Hfresh. rewrite Hjpeg.
  eexists. split; [reflexivity | ]. cbn [files]. split.
  - apply lookup_store_same.
  - intros path Hpath. apply lookup_store_other, Hpath.
Qed.



End ServiceEdges.

(** * Properties of the metadata service *)

Section TextFacts.
Import Text.

Lemma split_clean (sep : ascii) (s : string) :
  contains sep s = false -> split sep s = [s].
Proof.
  induction s as [ | c s IH]; simpl; [reflexivity | ].
  intros H. apply orb_false_iff in H. destruct H as [Hc Hs].
  rewrite Hc, (IH Hs). reflexivity.
Qed.

Lemma split_app (sep : ascii) (word rest : string) :
  contains sep word = false ->
  split sep (word ++ String sep rest) = word :: split sep rest.
Proof.
  induction word as [ | c word IH]; simpl.
  - intros _. rewrite Ascii.eqb_refl. reflexivity.
  - intros H. apply orb_false_iff in H. destruct H as [Hc Hword].
    rewrite Hc, (IH Hword). reflexivity.
Qed.

(** Splitting what was joined gives the words back, when there is at least
    one and none holds the separator. *)
Lemma split_join (sep : ascii) (words : list string) :
  words <> [] ->
  Forall (fun word => contains sep word = false) words ->
  split sep (join sep words) = words.
Proof.
  induction words as [ | word words IH]; intros Hne Hclean; [contradiction | ].
  inversion Hclean as [ | ? ? Hword Hrest]; subst.
  destruct words as [ | next words].
  - simpl. apply split_clean, Hword.
  - unfold join in *. cbn [String.concat].
    change (String sep EmptyString ++ ?x)%string with (String sep x).
    rewrite split_app by exact Hword.
    f_equal. apply IH; [discriminate | exact Hrest].
Qed.

Lemma join_not_empty (sep : ascii) (words : list string) :
  words <> [] -> words <> [EmptyString] -> join sep words <> EmptyString.
Proof.
  intros Hne Hone. destruct words as [ | word [ | next words]].
  - contradiction.
  - unfold join. simpl. intros ->. apply Hone. reflexivity.
  - unfold join. cbn [String.concat]. destruct word; discriminate.
Qed.

End TextFacts.

Section ConverterFacts.
Import Js DataSynchronizer AppleMetadataService MetadataSpec.
Local Open Scope js_scope.

Variable dateTime : jsval -> option Z.
Variable isoString : Z -> string.
Variable JSON_stringify : jsval -> option string.
Variable JSON_parse : jsval -> completion jsval.

Local Abbreviation convertToAndroidMetadata :=
  (AppleMetadataService.convertToAndroidMetadata dateTime JSON_stringify).
Local Abbreviation convertToAppleMetadata :=
  (AppleMetadataService.convertToAppleMetadata dateTime isoString JSON_parse).

Lemma truthy_text (s : string) : s <> EmptyString -> truthy (JStr s) = true.
Proof.
  intros H. simpl. apply negb_true_iff, String.eqb_neq. exact H.
Qed.

Lemma orElse_text (s : string) : orElse (JStr s) (JStr EmptyString) = JStr s.
Proof.
  unfold orElse. simpl. destruct (String.eqb s EmptyString) eqn:H; [ | reflexivity].
  apply String.eqb_eq in H. subst. reflexivity.
Qed.

Lemma orElse_number (n : Z) : orElse (JNum n) (JNum 0) = JNum n.
Proof.
  unfold orElse. simpl. destruct (n =? 0)%Z eqn:H; [ | reflexivity].
  apply Z.eqb_eq in H. subst. reflexivity.
Qed.

(** X12: from Apple to Android and back.  For metadata whose three dates are
    written as [toISOString] writes them, whose content creation time is not
    the epoch, whose tags hold no comma and are not the single empty tag, and
    whose [acl] and [customMetadata] survive JSON, the two converters in a
    row give the metadata back with every field as it was, except the icon:
    [customIcon] comes back empty. *)
Theorem apple_to_android_and_back (m : AppleMetadata) (created modified content : Z) :
  canonical dateTime isoString (creationDate m) created ->
  canonical dateTime isoString (modificationDate m) modified ->
  canonical dateTime isoString (contentCreationDate m) content ->
  content <> 0%Z ->
  Forall (fun tag => Text.contains "," tag = false) (tags m) ->
  tags m <> [EmptyString] ->
  survivesJSON JSON_stringify JSON_parse (JArr (map JStr (acl m))) ->
  survivesJSON JSON_stringify JSON_parse (customMetadata m) ->
  exists android,
    Android.value (convertToAndroidMetadata m) = Some android /\
    convertToAppleMetadata android = Return (appleValue (withoutIcon m)).
Proof.
  intros (Hc1 & Hc2 & Hc3) (Hm1 & Hm2 & Hm3) (Hn1 & Hn2 & Hn3) Hepoch Hclean Hsingle
         (aclText & Hacl1 & Hacl2 & Hacl3) (customText & Hcu1 & Hcu2 & Hcu3).
  unfold AppleMetadataService.convertToAndroidMetadata, Android.value.
  cbn [Android.dateCreated Android.dateModified Android.contentCreationDate
       Android.label Android.tags Android.customMetadata Android.uti
       Android.quarantineAttribute Android.finderFlags Android.acl
       Android.spotlightComments].
  rewrite Hc1, Hm1, Hn1, Hacl1, Hcu1.
  eexists. split; [reflexivity | ].
  unfold AppleMetadataService.convertToAppleMetadata, Lens.pure, convertToAppleMetadataM.
  unfold bind, getProp, lift, toISOString, ret.
  cbn [lookup String.eqb Ascii.eqb Bool.eqb fst snd Android.optional].
  rewrite Hc2, Hm2, Hn2.
  cbn [fst snd].
  assert (Htags :
    (if truthy (JStr (Text.join "," (tags m)))
     then @splitTags unit (JStr (Text.join "," (tags m)))
     else (fun s => (Return (JArr []), s))) tt
    = (Return (JArr (map JStr (tags m))), tt)).
  { destruct (tags m) as [ | tag more] eqn:Hlist; [reflexivity | ].
    rewrite truthy_text by (apply join_not_empty; [discriminate | exact Hsingle]).
    unfold splitTags, ret. rewrite split_join; [reflexivity | discriminate | exact Hclean]. }
  rewrite Htags. cbn [fst snd].
  rewrite (truthy_text aclText Hacl2), Hacl3.
  assert (Hcontent : truthy (JNum content) = true).
  { simpl. apply negb_true_iff, Z.eqb_neq, Hepoch. }
  rewrite Hcontent.
  rewrite (truthy_text customText Hcu2), Hcu3.
  cbn [fst snd].
  rewrite !orElse_text, orElse_number, Hc3, Hm3, Hn3.
  reflexivity.
Qed.

(** X13: what [convertToAppleMetadata] requires and what it makes up.
    Android metadata whose [dateCreated] is not a valid date (absent, for
    one) is rejected with a [RangeError].  With valid dates and no tags, an
    [acl] text that [JSON.parse] rejects makes the conversion reject with the
    parser's error: it is not replaced by an empty list.  And when
    [contentCreationDate] is falsy -- absent, or the time value 0 of the
    epoch -- the result gives the creation date for it. *)
Theorem what_the_apple_conversion_requires (props : list (string * jsval)) :
  (dateTime (lookup "dateCreated" props) = None ->
   convertToAppleMetadata (JObj props)
   = Throw (JsError "RangeError" "Invalid time value"))
  /\
  (forall created modified e,
     dateTime (lookup "dateCreated" props) = Some created ->
     dateTime (lookup "dateModified" props) = Some modified ->
     truthy (lookup "tags" props) = false ->
     truthy (lookup "acl" props) = true ->
     JSON_parse (lookup "acl" props) = Throw e ->
     convertToAppleMetadata (JObj props) = Throw e)
  /\
  (forall out,
     convertToAppleMetadata (JObj props) = Return out ->
     truthy (lookup "contentCreationDate" props) = false ->
     exists created,
       dateTime (lookup "dateCreated" props) = Some created /\
       lookup "creationDate" (ownProps out) = JStr (isoString created) /\
       lookup "contentCreationDate" (ownProps out) = JStr (isoString created)).
Proof.
  unfold AppleMetadataService.convertToAppleMetadata, Lens.pure, convertToAppleMetadataM.
  unfold bind, getProp, lift, toISOString, ret. cbn [fst snd].
  split; [ | split].
  - intros ->. reflexivity.
  - intros created modified e Hc Hm Htags Hacl Hparse.
    rewrite Hc, Hm, Htags, Hacl, Hparse. reflexivity.
  - intros out Hrun Hfalsy.
    destruct (dateTime (lookup "dateCreated" props)) as [created | ]; [ | discriminate].
    exists created. split; [reflexivity | ].
    cbn [fst snd ret] in Hrun.
    destruct (dateTime (lookup "dateModified" props)) as [modified | ]; [ | discriminate].
    cbn [fst snd] in Hrun.
    rewrite Hfalsy in Hrun.
    destruct (truthy (lookup "tags" props));
      [destruct (@splitTags unit (lookup "tags" props) tt) as [[tagList | e] []] | ];
      cbn [fst snd] in Hrun; try discriminate;
      (destruct (truthy (lookup "acl" props));
       [destruct (JSON_parse (lookup "acl" props)) | ];
       cbn [fst snd] in Hrun; try discriminate;
       (destruct (truthy (lookup "customMetadata" props));
        [destruct (JSON_parse (lookup "customMetadata" props)) | ];
        cbn [fst snd] in Hrun; try discriminate;
        inversion Hrun; subst; split; reflexivity)).
Qed.

End ConverterFacts.

Section StorageFacts.
Import Js DataSynchronizer AppleMetadataService MetadataSpec.
Import LivePhoto.
Local Open Scope js_scope.

Variable storagePath : string.
Variable pathJoin : string -> string -> string.
Variable JSON_pretty : jsval -> option string.
Variable JSON_parse : jsval -> completion jsval.
Variable denied : string -> bool.

Local Abbreviation metadataPath := (AppleMetadataService.metadataPath storagePath pathJoin).
Local Abbreviation filePathOf := (AppleMetadataService.filePathOf storagePath pathJoin).
Local Abbreviation saveMetadata :=
  (AppleMetadataService.saveMetadata storagePath pathJoin JSON_pretty denied).
Local Abbreviation getMetadata :=
  (AppleMetadataService.getMetadata storagePath pathJoin JSON_parse).
Local Abbreviation updateMetadata :=
  (AppleMetadataService.updateMetadata storagePath pathJoin JSON_pretty JSON_parse denied).

Lemma saveMetadata_done (fileId : string) (metadata : jsval) (text : string) (d : disk) :
  denied metadataPath = false ->
  denied (filePathOf fileId) = false ->
  JSON_pretty metadata = Some text ->
  saveMetadata fileId metadata d
  = (Return tt, {| files := storeFile (filePathOf fileId) (bytesOf text) (files d);
                   clock := clock d |}).
Proof.
  intros Hdir Hfile Htext.
  unfold AppleMetadataService.saveMetadata, tryCatch, bind, mkdir, writeText.
  rewrite Hdir, Htext, Hfile. reflexivity.
Qed.

Lemma getMetadata_found (fileId : string) (bytes : Buffer) (d : disk) :
  lookupFile (filePathOf fileId) (files d) = Some bytes ->
  getMetadata fileId d
  = (match JSON_parse (JStr (string_of_list_byte bytes)) with
     | Return document => Return document
     | Throw _ => Throw (AppError "Failed to retrieve Apple-specific metadata" 500)
     end, d).
Proof.
  intros Hfile.
  unfold AppleMetadataService.getMetadata, readText, tryCatch, bind, readFile, lift, ret.
  rewrite Hfile. destruct (JSON_parse _); reflexivity.
Qed.

Lemma getMetadata_keeps_disk (fileId : string) (d : disk) :
  snd (getMetadata fileId d) = d.
Proof.
  unfold AppleMetadataService.getMetadata, readText, tryCatch, bind, readFile, lift, ret.
  destruct (lookupFile _ (files d)); [ | reflexivity].
  destruct (JSON_parse _); reflexivity.
Qed.

(** X14: a saved document is read back.  When the store accepts the write,
    [saveMetadata] puts the serialized document in the file of the id, every
    other file stays as it was, and [getMetadata] of the same id then returns
    what [JSON.parse] makes of that text. *)
Theorem saved_metadata_is_read_back
    (fileId : string) (metadata document : jsval) (text : string) (d : disk) :
  denied metadataPath = false ->
  denied (filePathOf fileId) = false ->
  JSON_pretty metadata = Some text ->
  JSON_parse (JStr text) = Return document ->
  exists d',
    saveMetadata fileId metadata d = (Return tt, d') /\
    getMetadata fileId d' = (Return document, d') /\
    (forall path, String.eqb path (filePathOf fileId) = false ->
                  lookupFile path (files d') = lookupFile path (files d)).
Proof.
  intros Hdir Hfile Htext Hparse.
  eexists. split; [apply saveMetadata_done; eassumption | ]. split.
  - rewrite (getMetadata_found fileId (bytesOf text)).
    + unfold bytesOf. rewrite string_of_list_byte_of_string, Hparse. reflexivity.
    + apply lookup_store_same.
  - intros path Hpath. cbn [files]. apply lookup_store_other. exact Hpath.
Qed.

(** X15: a document that is not there.  When the file of an id is missing,
    or its text does not parse, [getMetadata] rejects with its own 500
    error and [updateMetadata] with its own, and neither writes anything: no
    document is created by an update. *)
Theorem missing_document_is_reported (fileId : string) (updates : jsval) (d : disk) :
  lookupFile (filePathOf fileId) (files d) = None
  \/ (exists bytes e, lookupFile (filePathOf fileId) (files d) = Some bytes /\
                      JSON_parse (JStr (string_of_list_byte bytes)) = Throw e) ->
  getMetadata fileId d
  = (Throw (AppError "Failed to retrieve Apple-specific metadata" 500), d) /\
  updateMetadata fileId updates d
  = (Throw (AppError "Failed to update Apple-specific metadata" 500), d).
Proof.
  intros Hcase.
  assert (Hget : getMetadata fileId d
                 = (Throw (AppError "Failed to retrieve Apple-specific metadata" 500), d)).
  { destruct Hcase as [Hnone | (bytes & e & Hfile & Hparse)].
    - unfold AppleMetadataService.getMetadata, readText, tryCatch, bind, readFile.
      rewrite Hnone. reflexivity.
    - rewrite (getMetadata_found fileId bytes d Hfile), Hparse. reflexivity. }
  split; [exact Hget | ].
  unfold AppleMetadataService.updateMetadata, tryCatch, bind.
  rewrite Hget. reflexivity.
Qed.

Lemma lookup_setProp_same (k : string) (v : jsval) (props : list (string * jsval)) :
  lookup k (setProp k v props) = v.
Proof.
  induction props as [ | [k' v'] props IH]; simpl.
  - rewrite String.eqb_refl. reflexivity.
  - destruct (String.eqb k k') eqn:Hk; simpl.
    + rewrite String.eqb_refl. reflexivity.
    + rewrite Hk. exact IH.
Qed.

Lemma lookup_setProp_other (k k' : string) (v : jsval) (props : list (string * jsval)) :
  String.eqb k k' = false -> lookup k (setProp k' v props) = lookup k props.
Proof.
  intros Hk. induction props as [ | [k0 v0] props IH]; simpl.
  - rewrite Hk. reflexivity.
  - destruct (String.eqb k' k0) eqn:Hk0; simpl.
    + apply String.eqb_eq in Hk0. subst k0. rewrite Hk. reflexivity.
    + destruct (String.eqb k k0); [reflexivity | exact IH].
Qed.

Lemma hasKey_false (k : string) (props : list (string * jsval)) :
  hasKey k props = false -> ~ In k (map fst props).
Proof.
  induction props as [ | [k' v'] props IH]; simpl; [tauto | ].
  intros H. apply orb_false_iff in H. destruct H as [Hk Hrest].
  intros [Heq | Hin]; [ | exact (IH Hrest Hin)].
  subst. rewrite String.eqb_refl in Hk. discriminate.
Qed.

Lemma hasKey_true (k : string) (props : list (string * jsval)) :
  hasKey k props = true -> In k (map fst props).
Proof.
  induction props as [ | [k' v'] props IH]; simpl; [discriminate | ].
  intros H. apply orb_true_iff in H. destruct H as [Hk | Hrest]; [left | right; auto].
  apply String.eqb_eq in Hk. auto.
Qed.

Lemma lookup_absent (k : string) (props : list (string * jsval)) :
  hasKey k props = false -> lookup k props = JUndefined.
Proof.
  induction props as [ | [k' v'] props IH]; simpl; [reflexivity | ].
  intros H. apply orb_false_iff in H. destruct H as [Hk Hrest].
  rewrite Hk. exact (IH Hrest).
Qed.

Lemma lookup_assign (source : list (string * jsval)) :
  NoDup (map fst source) ->
  forall target k,
    lookup k (assign target source)
    = if hasKey k source then lookup k source else lookup k target.
Proof.
  unfold assign.
  induction source as [ | [k' v'] source IH]; intros Hdistinct target k; [reflexivity | ].
  inversion Hdistinct as [ | ? ? Hfresh Hrest]; subst.
  cbn [fold_left fst snd]. rewrite (IH Hrest). cbn [hasKey existsb fst lookup].
  fold (hasKey k source).
  destruct (String.eqb k k') eqn:Hk.
  - apply String.eqb_eq in Hk. subst k'. cbn [orb].
    destruct (hasKey k source) eqn:Hin.
    + exfalso. apply Hfresh. apply hasKey_true, Hin.
    + apply lookup_setProp_same.
  - cbn [orb]. destruct (hasKey k source); [reflexivity | ].
    apply lookup_setProp_other, Hk.
Qed.

(** Spreading one object over another: a key of the second takes the
    second's value, any other key keeps the first's. *)
Lemma lookup_spread (current updates : list (string * jsval)) (k : string) :
  NoDup (map fst current) -> NoDup (map fst updates) ->
  lookup k (ownProps (spread (JObj current) (JObj updates)))
  = if hasKey k updates then lookup k updates else lookup k current.
Proof.
  intros Hcurrent Hupdates. unfold spread. cbn [ownProps].
  rewrite (lookup_assign updates Hupdates).
  destruct (hasKey k updates); [reflexivity | ].
  rewrite (lookup_assign current Hcurrent).
  destruct (hasKey k current) eqn:Hin; [reflexivity | ].
  symmetry. apply lookup_absent, Hin.
Qed.

(** X16: what an update keeps and what it replaces.  [updateMetadata] stores
    the serialized spread of the stored document and the updates: every
    field the updates name takes the value given -- an array too, which
    replaces the stored one -- and every other field keeps the stored
    value. *)
Theorem update_replaces_the_named_fields
    (fileId : string) (current updates : list (string * jsval)) (text : string) (d : disk) :
  fst (getMetadata fileId d) = Return (JObj current) ->
  NoDup (map fst current) ->
  NoDup (map fst updates) ->
  denied metadataPath = false ->
  denied (filePathOf fileId) = false ->
  JSON_pretty (spread (JObj current) (JObj updates)) = Some text ->
  exists d',
    updateMetadata fileId (JObj updates) d = (Return tt, d') /\
    lookupFile (filePathOf fileId) (files d') = Some (bytesOf text) /\
    (forall k,
       lookup k (ownProps (spread (JObj current) (JObj updates)))
       = if hasKey k updates then lookup k updates else lookup k current).
Proof.
  intros Hget Hcurrent Hupdates Hdir Hfile Htext.
  assert (Hrun : getMetadata fileId d = (Return (JObj current), d)).
  { pose proof (getMetadata_keeps_disk fileId d) as Hkeep.
    destruct (getMetadata fileId d) as [r d0]. simpl in *. congruence. }
  eexists. repeat split.
  - unfold AppleMetadataService.updateMetadata, tryCatch, bind. rewrite Hrun.
    rewrite (saveMetadata_done fileId _ text d Hdir Hfile Htext). reflexivity.
  - cbn [files]. apply lookup_store_same.
  - intros k. apply lookup_spread; assumption.
Qed.

End StorageFacts.

(** * Properties of the WebDAV service *)

Section WebDAVFacts.
Import Js DataSynchronizer WebDAVService.
Local Open Scope js_scope.

Variable client : list call -> call -> completion reply.

Local Abbreviation uploadFile := (WebDAVService.uploadFile client).
Local Abbreviation listDirectory := (WebDAVService.listDirectory client).
Local Abbreviation getFileStats := (WebDAVService.getFileStats client).

Lemma onLocal_readFile (path : string) (s : station) :
  onLocal (LivePhoto.readFile path) s
  = match LivePhoto.lookupFile path (LivePhoto.files (local s)) with
    | Some content => (Return content, s)
    | None => (Throw (LivePhoto.noSuchFile "open" path), s)
    end.
Proof.
  unfold onLocal, Lens.zoom, LivePhoto.readFile.
  destruct (LivePhoto.lookupFile path (LivePhoto.files (local s))); destruct s; reflexivity.
Qed.

Lemma uploadFile_outcome (localPath remotePath : string) (s : station) :
  (LivePhoto.lookupFile localPath (LivePhoto.files (local s)) = None ->
   uploadFile localPath remotePath s
   = (Throw (AppError ("Failed to upload file: " ++ remotePath) 500), s))
  /\
  (forall content,
     LivePhoto.lookupFile localPath (LivePhoto.files (local s)) = Some content ->
     uploadFile localPath remotePath s
     = (match client (traffic s) (PutFileContents remotePath content) with
        | Return (Value (JBool _)) => Return tt
        | _ => Throw (AppError ("Failed to upload file: " ++ remotePath) 500)
        end,
        {| local := local s;
           traffic := traffic s ++ [PutFileContents remotePath content] |})).
Proof.
  split.
  - intros Hnone. unfold WebDAVService.uploadFile, tryCatch, bind.
    rewrite onLocal_readFile, Hnone. reflexivity.
  - intros content Hfile. unfold WebDAVService.uploadFile, tryCatch, bind.
    rewrite onLocal_readFile, Hfile. unfold request.
    destruct (client (traffic s) (PutFileContents remotePath content)) as [[b | v] | e];
      try reflexivity.
    destruct v; reflexivity.
Qed.

(** X17: what [uploadFile] takes for a success.  A local file that cannot
    be read is reported without any call to the client.  Otherwise the file
    is put once, and the upload is a success whenever the client answers with
    a boolean -- [false] as well as [true]; any other answer, or a rejection,
    is the 500 error that names the remote path. *)
Theorem upload_accepts_any_boolean
    (localPath remotePath : string) (content : LivePhoto.Buffer) (s : station) :
  let sent := {| local := local s;
                 traffic := traffic s ++ [PutFileContents remotePath content] |} in
  let failure := AppError ("Failed to upload file: " ++ remotePath) 500 in
  (LivePhoto.lookupFile localPath (LivePhoto.files (local s)) = None ->
   uploadFile localPath remotePath s = (Throw failure, s))
  /\
  (LivePhoto.lookupFile localPath (LivePhoto.files (local s)) = Some content ->
   (forall accepted,
      client (traffic s) (PutFileContents remotePath content)
      = Return (Value (JBool accepted)) ->
      uploadFile localPath remotePath s = (Return tt, sent))
   /\
   ((forall accepted,
       client (traffic s) (PutFileContents remotePath content)
       <> Return (Value (JBool accepted))) ->
    uploadFile localPath remotePath s = (Throw failure, sent))).
Proof.
  intros sent failure.
  destruct (uploadFile_outcome localPath remotePath s) as [Hmissing Hread].
  split; [exact Hmissing | ].
  intros Hfile. rewrite (Hread content Hfile). split.
  - intros accepted ->. reflexivity.
  - intros Hother.
    destruct (client (traffic s) (PutFileContents remotePath content)) as [[b | v] | e];
      try reflexivity.
    destruct v; try reflexivity. exfalso. apply (Hother b). reflexivity.
Qed.

Lemma filenames_readable {S} (items : list jsval) (s : S) :
  forallb SyncSpec.readable items = true ->
  filenames (JArr items) s
  = (Return (map (fun item => SyncOrchestrator.field item "filename") items), s).
Proof.
  unfold filenames.
  induction items as [ | item items IH]; intros Hitems; [reflexivity | ].
  simpl in Hitems. apply andb_true_iff in Hitems. destruct Hitems as [Hitem Hrest].
  cbn [mapM map]. unfold bind at 1.
  assert (Hone : @getProp S item "filename" s
                 = (Return (SyncOrchestrator.field item "filename"), s)).
  { destruct item; try discriminate; reflexivity. }
  rewrite Hone. unfold bind at 1. rewrite (IH Hrest). reflexivity.
Qed.

(** X18: the two shapes of a directory listing.  [listDirectory] returns
    the [filename] of every item, in order, whether the client answers with
    the array of items or with a detailed response holding the array under
    [data]; in the second case nothing else of the response is read. *)
Theorem listing_reads_plain_and_detailed_answers
    (remotePath : string) (items : list jsval) (props : list (string * jsval))
    (s : station) :
  forallb SyncSpec.readable items = true ->
  client (traffic s) (GetDirectoryContents remotePath) = Return (Value (JArr items))
  \/ (client (traffic s) (GetDirectoryContents remotePath) = Return (Value (JObj props)) /\
      hasOwn "data" props = true /\ lookup "data" props = JArr items) ->
  listDirectory remotePath s
  = (Return (map (fun item => SyncOrchestrator.field item "filename") items),
     {| local := local s; traffic := traffic s ++ [GetDirectoryContents remotePath] |}).
Proof.
  intros Hitems Hanswer.
  unfold WebDAVService.listDirectory, tryCatch, bind, request.
  destruct Hanswer as [-> | (-> & Hdata & Hlist)].
  - cbn [ensureFileStatArray ret]. rewrite (filenames_readable items _ Hitems). reflexivity.
  - unfold ensureFileStatArray, isResponseDataDetailed, dataOf. rewrite Hdata, Hlist.
    unfold ret. rewrite (filenames_readable items _ Hitems). reflexivity.
Qed.

End WebDAVFacts.

(** * Properties of the delegating methods of the synchronizer *)

Section RetryOnSite.
Import Js DataSynchronizer Delegation DispatchSpec DelegationSpec.
Local Open Scope js_scope.

Lemma onNet_sleep (delay : Z) (s : site) :
  onNet (sleep delay) s = (Return tt, asleep s [delay]).
Proof. reflexivity. Qed.

Lemma retry_first_success {A} (operation : M site A) (v : A) (s s' : site) :
  operation s = (Return v, s') ->
  retryOperation operation MAX_RETRIES s = (Return v, s').
Proof.
  intros Hrun. unfold retryOperation, MAX_RETRIES. cbn [retryFrom].
  unfold tryCatch at 1. rewrite Hrun. reflexivity.
Qed.

(** An operation that fails on every run with the same error, keeps [I] and
    logs [c] copies of a request each time, is run [remaining] times, with
    the delays of the schedule in between. *)
Lemma retryFrom_exhausted_site {A} (operation : M site A) (I : site -> Prop)
    (e : thrown) (req : request) (c : nat) :
  (forall s, I s -> exists s',
      operation s = (Throw e, s') /\ I s' /\
      requests (net s') = requests (net s) ++ repeat req c /\
      sleeps (net s') = sleeps (net s)) ->
  (forall s delay, I s -> I (asleep s [delay])) ->
  forall retries remaining s, 1 <= remaining <= retries -> I s ->
    exists s',
      retryFrom operation retries remaining s = (Throw e, s') /\ I s' /\
      requests (net s') = requests (net s) ++ repeat req (remaining * c) /\
      sleeps (net s')
      = sleeps (net s) ++ map backoff (seq (retries - remaining) (remaining - 1)).
Proof.
  intros Hop Hsleep retries remaining.
  induction remaining as [ | remaining IH]; intros s Hrem HI; [lia | ].
  destruct (Hop s HI) as (s1 & Hrun & HI1 & Hlog1 & Hsl1).
  cbn [retryFrom]. unfold tryCatch. rewrite Hrun.
  destruct (retries - S remaining =? retries - 1)%nat eqn:Hlast.
  - apply Nat.eqb_eq in Hlast. assert (remaining = 0) by lia. subst remaining.
    exists s1. simpl. rewrite Nat.add_0_r, app_nil_r. auto.
  - apply Nat.eqb_neq in Hlast. unfold bind. rewrite onNet_sleep.
    destruct (IH (asleep s1 [INITIAL_BACKOFF * 2 ^ Z.of_nat (retries - S remaining)])%Z)
      as (s2 & Hrun2 & HI2 & Hlog2 & Hsl2); [lia | apply Hsleep, HI1 | ].
    exists s2. rewrite Hrun2. repeat split; auto.
    + rewrite Hlog2. cbn [asleep net requests]. rewrite Hlog1. simpl.
      rewrite repeat_app, app_assoc. reflexivity.
    + rewrite Hsl2. cbn [asleep net sleeps]. rewrite Hsl1, <- app_assoc. f_equal.
      replace (S remaining - 1) with (S (remaining - 1)) by lia.
      cbn [seq map app]. unfold backoff at 2.
      replace (S (retries - S remaining)) with (retries - remaining) by lia.
      reflexivity.
Qed.

Lemma exhausted_five {A} (operation : M site A) (I : site -> Prop)
    (e : thrown) (req : request) (c : nat) :
  (forall s, I s -> exists s',
      operation s = (Throw e, s') /\ I s' /\
      requests (net s') = requests (net s) ++ repeat req c /\
      sleeps (net s') = sleeps (net s)) ->
  (forall s delay, I s -> I (asleep s [delay])) ->
  forall s, I s ->
    exists s',
      retryOperation operation MAX_RETRIES s = (Throw e, s') /\ I s' /\
      requests (net s') = requests (net s) ++ repeat req (MAX_RETRIES * c) /\
      sleeps (net s') = sleeps (net s) ++ fullBackoff.
Proof.
  intros Hop Hsleep s HI.
  destruct (retryFrom_exhausted_site operation I e req c Hop Hsleep
              MAX_RETRIES MAX_RETRIES s) as (s' & Hrun & HI' & Hlog & Hsl);
    [unfold MAX_RETRIES; lia | exact HI | ].
  exists s'. repeat split; auto.
Qed.

End RetryOnSite.

Section DelegationFacts.
Import Js DataSynchronizer Delegation DispatchSpec DelegationSpec.
Local Open Scope js_scope.

Variable accessToken : string.
Variable JSON_stringify : jsval -> option string.
Variable server : list request -> request -> fetched.
Variable convertToAppleMetadata : jsval -> completion jsval.
Variable writeFails : jsval -> bool.
Variable tempDir : string.
Variable movToMp4 : LivePhoto.Buffer -> completion LivePhoto.Buffer.
Variable parseDate : string -> option Z.
Variable JSON_print : ConflictResolution.heap -> list (string * ConflictResolution.value)
                      -> completion string.
Variable webDAVService
  : option (list WebDAVService.call -> WebDAVService.call -> completion WebDAVService.reply).

Local Abbreviation mkRequest := (DataSynchronizer.mkRequest accessToken JSON_stringify).
Local Abbreviation resolveConflict := (Delegation.resolveConflict parseDate JSON_print).
Local Abbreviation syncLivePhoto :=
  (Delegation.syncLivePhoto accessToken JSON_stringify server convertToAppleMetadata
     writeFails tempDir movToMp4).
Local Abbreviation downloadAndConvertLivePhoto :=
  (Delegation.downloadAndConvertLivePhoto accessToken JSON_stringify server
     convertToAppleMetadata writeFails tempDir movToMp4).
Local Abbreviation syncFile := (Delegation.syncFile webDAVService).
Local Abbreviation tempFile d ext :=
  (LivePhoto.join tempDir ("temp_" ++ decimalN (LivePhoto.clock d) ++ ext)).

(** *** Conflicts *)

(** X19: conflicts through the synchronizer.  A resolution the service
    carries out is returned as it is, at the first attempt and without any
    delay.  A resolution the service refuses on principle -- the manual
    strategy, an unknown strategy name -- is attempted [MAX_RETRIES] times
    all the same, 15 seconds of back-off in all, and then rejected with the
    generic 500 error: the status 409 or 400 of the service never reaches the
    caller. *)
Theorem conflicts_through_the_synchronizer
    (localData cloudData : ConflictResolution.value) (strategyName : string) (s : site) :
  (forall resolved h',
     ConflictResolution.resolveConflict parseDate JSON_print localData cloudData
       strategyName (memory s) = (Return resolved, h') ->
     resolveConflict localData cloudData strategyName s
     = (Return resolved,
        {| net := net s; storage := storage s; memory := h'; traffic := traffic s |}))
  /\
  (strategyName = "manual"
   \/ ConflictResolution.strategies parseDate JSON_print strategyName = None ->
   exists s',
     resolveConflict localData cloudData strategyName s
     = (Throw (AppError "Failed to resolve conflict" 500), s') /\
     sleeps (net s') = sleeps (net s) ++ fullBackoff /\
     requests (net s') = requests (net s)).
Proof.
  split.
  - intros resolved h' Hrun. unfold Delegation.resolveConflict.
    apply retry_first_success. unfold tryCatch, onHeap, Lens.zoom. rewrite Hrun. reflexivity.
  - intros Hrefused. unfold Delegation.resolveConflict.
    destruct (exhausted_five
                (tryCatch
                   (onHeap (ConflictResolution.resolveConflict parseDate JSON_print
                              localData cloudData strategyName))
                   (fun _ => throw (AppError "Failed to resolve conflict" 500)))
                (fun _ => True) (AppError "Failed to resolve conflict" 500)
                (DataSynchronizer.mkRequest EmptyString (fun _ => None) EmptyString JNull
                   EmptyString) 0) with (s := s)
      as (s' & Hrun & _ & Hlog & Hsl); auto.
    + intros s0 _.
      assert (Hthrows : exists e h',
                ConflictResolution.resolveConflict parseDate JSON_print localData cloudData
                  strategyName (memory s0) = (Throw e, h')).
      { destruct Hrefused as [-> | Hunknown].
        - apply manual_never_returns.
        - unfold ConflictResolution.resolveConflict. rewrite Hunknown.
          eexists _, _. reflexivity. }
      destruct Hthrows as (e & h' & Hthrow).
      eexists. unfold tryCatch, onHeap, Lens.zoom. rewrite Hthrow.
      split; [reflexivity | ]. cbn [net]. rewrite app_nil_r. auto.
    + exists s'. rewrite Hrun. simpl in Hlog. rewrite app_nil_r in Hlog. auto.
Qed.

(** *** Live photos *)

Lemma conversion_without_still (jpegPath movPath : string) (d : LivePhoto.disk) :
  LivePhoto.lookupFile jpegPath (LivePhoto.files d) = None ->
  String.eqb jpegPath (tempFile d ".mp4") = false ->
  exists d',
    LivePhoto.convertToAndroidMotionPhoto tempDir movToMp4 jpegPath movPath d
    = (Throw (AppError "Failed to convert Live Photo" 500), d') /\
    LivePhoto.lookupFile jpegPath (LivePhoto.files d') = None /\
    LivePhoto.clock d' = LivePhoto.clock d.
Proof.
  intros Hjpeg Hfresh.
  unfold LivePhoto.convertToAndroidMotionPhoto, tryCatch, LivePhoto.convertMovToMp4.
  unfold bind at 1, gets. cbv beta iota zeta.
  unfold bind at 1, LivePhoto.runFfmpeg.
  unfold bind at 1, LivePhoto.readFile at 1.
  destruct (LivePhoto.lookupFile movPath (LivePhoto.files d)) as [mov | ];
    [ | eexists; split; [reflexivity | split; [exact Hjpeg | reflexivity]]].
  unfold bind at 1, lift.
  destruct (movToMp4 mov) as [mp4 | e];
    [ | eexists; split; [reflexivity | split; [exact Hjpeg | reflexivity]]].
  unfold LivePhoto.writeFile, modify. cbv beta iota zeta.
  unfold bind at 1, LivePhoto.readFile. cbn [LivePhoto.files].
  rewrite lookup_store_other by exact Hfresh. rewrite Hjpeg.
  eexists. split; [reflexivity | ]. cbn [LivePhoto.files LivePhoto.clock].
  split; [ | reflexivity].
  rewrite lookup_store_other by exact Hfresh. exact Hjpeg.
Qed.

(** X20: a live photo whose still image is missing.  [syncLivePhoto] then
    makes no network call at all: the conversion fails, is attempted
    [MAX_RETRIES] times with the full back-off in between, and the promise is
    rejected with the 500 error of the method. *)
Theorem live_photo_without_still_never_reaches_the_network
    (jpegPath movPath : string) (s : site) :
  LivePhoto.lookupFile jpegPath (LivePhoto.files (storage s)) = None ->
  String.eqb jpegPath (tempFile (storage s) ".mp4") = false ->
  exists s',
    syncLivePhoto jpegPath movPath s = (Throw (AppError "Failed to sync Live Photo" 500), s') /\
    requests (net s') = requests (net s) /\
    sleeps (net s') = sleeps (net s) ++ fullBackoff.
Proof.
  intros Hjpeg Hfresh. unfold Delegation.syncLivePhoto.
  match goal with
  | |- context [retryOperation ?op MAX_RETRIES] =>
      destruct (exhausted_five op
                  (fun s0 => LivePhoto.lookupFile jpegPath (LivePhoto.files (storage s0)) = None
                             /\ LivePhoto.clock (storage s0) = LivePhoto.clock (storage s))
                  (AppError "Failed to sync Live Photo" 500)
                  (DataSynchronizer.mkRequest EmptyString (fun _ => None) EmptyString JNull
                   EmptyString) 0) with (s := s)
        as (s' & Hrun & _ & Hlog & Hsl); auto
  end.
  - intros s0 (Habsent & Hclock).
    destruct (conversion_without_still jpegPath movPath (storage s0) Habsent)
      as (d' & Hconv & Habsent' & Hclock'); [rewrite Hclock; exact Hfresh | ].
    eexists. unfold tryCatch, bind, onDisk, Lens.zoom. rewrite Hconv.
    split; [reflexivity | ]. cbn [storage net]. rewrite app_nil_r.
    repeat split; auto. congruence.
  - exists s'. rewrite Hrun. simpl in Hlog. rewrite app_nil_r in Hlog. auto.
Qed.

Lemma singleSync_accepted (endpoint : string) (props : list (string * jsval))
    (method : string) (r : response) (payload : jsval) (w : world) :
  truthy (lookup "metadata" props) = false ->
  server (requests w) (mkRequest endpoint (JObj props) method) = Responded r ->
  ok r = true ->
  json r = Return payload ->
  DataSynchronizer.syncData accessToken JSON_stringify server convertToAppleMetadata writeFails
    endpoint (JObj props) method w
  = (Return {| results := asArray payload; errors := [] |},
     logged w [mkRequest endpoint (JObj props) method]).
Proof.
  intros Hplain Hcall Hok Hjson.
  unfold DataSynchronizer.syncData, DataSynchronizer.singleSync,
    DataSynchronizer.retryOperation, MAX_RETRIES.
  cbn [DataSynchronizer.retryFrom].
  unfold bind, tryCatch, fetchWithTimeout, tryCatch, fetch.
  rewrite Hcall, Hok. simpl. unfold lift. rewrite Hjson.
  unfold persistMetadata, bind, getProp, ret. rewrite Hplain. reflexivity.
Qed.

(** X21: a live photo that goes through.  With both files readable, the
    clip transcoded and the temporary name free, [syncLivePhoto] makes one
    POST to the upload endpoint, whose record has the id [livePhoto_] followed
    by the clock and, as [data], the spliced buffer; when the endpoint accepts
    it the outcome holds the response and no error, nothing is slept and the
    disk is as it was. *)
Theorem live_photo_is_uploaded_in_one_call
    (jpegPath movPath : string) (jpeg mov mp4 : LivePhoto.Buffer) (r : response)
    (payload : jsval) (s : site) :
  let record := JObj [("id", JStr ("livePhoto_" ++ decimalN (LivePhoto.clock (storage s))));
                      ("data", AppleMetadataService.bufferValue
                                 (LivePhoto.embedMp4IntoJpeg jpeg mp4))] in
  let call := mkRequest "photos.icloud.com/upload" record "POST" in
  LivePhoto.lookupFile jpegPath (LivePhoto.files (storage s)) = Some jpeg ->
  LivePhoto.lookupFile movPath (LivePhoto.files (storage s)) = Some mov ->
  movToMp4 mov = Return mp4 ->
  LivePhoto.lookupFile (tempFile (storage s) ".mp4") (LivePhoto.files (storage s)) = None ->
  server (requests (net s)) call = Responded r ->
  ok r = true ->
  json r = Return payload ->
  syncLivePhoto jpegPath movPath s
  = (Return {| results := asArray payload; errors := [] |}, called s [call]).
Proof.
  intros record call Hjpeg Hmov Hcodec Hfree Hcall Hok Hjson.
  unfold Delegation.syncLivePhoto. apply retry_first_success.
  assert (Hfresh : String.eqb jpegPath (tempFile (storage s) ".mp4") = false).
  { destruct (String.eqb_spec jpegPath (tempFile (storage s) ".mp4")) as [Heq | ];
      [ | reflexivity].
    rewrite Heq in Hjpeg. congruence. }
  unfold tryCatch, bind, onDisk, Lens.zoom.
  rewrite (convertToAndroidMotionPhoto_done tempDir movToMp4 jpegPath movPath jpeg mov mp4
             (storage s) Hjpeg Hmov Hcodec Hfresh).
  rewrite (remove_store_absent _ _ _ Hfree).
  unfold gets. cbn [storage LivePhoto.clock net].
  unfold Delegation.syncData, onNet, Lens.zoom. cbn [net].
  rewrite (singleSync_accepted "photos.icloud.com/upload"
             [("id", JStr ("livePhoto_" ++ decimalN (LivePhoto.clock (storage s))));
              ("data", AppleMetadataService.bufferValue (LivePhoto.embedMp4IntoJpeg jpeg mp4))]
             "POST" r payload (net s) eq_refl Hcall Hok Hjson).
  unfold called. cbn [storage memory traffic]. destruct (storage s). reflexivity.
Qed.

(** X22: a download that cannot be converted.  When the endpoint answers
    every call with a body that has no first result with both a [jpeg] and a
    [mov], [downloadAndConvertLivePhoto] repeats the download [MAX_RETRIES]
    times -- five [GET] calls without a body, the full back-off in between --
    and rejects with the 500 error of the method. *)
Theorem incomplete_download_is_fetched_five_times (photoId : string) (s : site) :
  (forall history req, exists r payload,
      server history req = Responded r /\ ok r = true /\ json r = Return payload /\
      incomplete payload = true) ->
  let call := mkRequest ("photos.icloud.com/download/" ++ photoId)
                (JObj [("id", JStr photoId); ("jpeg", JStr EmptyString);
                       ("mov", JStr EmptyString)]) "GET" in
  exists s',
    downloadAndConvertLivePhoto photoId s
    = (Throw (AppError "Failed to download and convert Live Photo" 500), s') /\
    requests (net s') = requests (net s) ++ repeat call MAX_RETRIES /\
    method call = "GET" /\ body call = None /\
    sleeps (net s') = sleeps (net s) ++ fullBackoff.
Proof.
  intros Hserver call. unfold Delegation.downloadAndConvertLivePhoto.
  match goal with
  | |- context [retryOperation ?op MAX_RETRIES] =>
      destruct (exhausted_five op (fun _ => True)
                  (AppError "Failed to download and convert Live Photo" 500) call 1)
        with (s := s) as (s' & Hrun & _ & Hlog & Hsl); auto
  end.
  - intros s0 _.
    destruct (Hserver (requests (net s0)) call) as (r & payload & Hcall & Hok & Hjson & Hbad).
    eexists. unfold tryCatch, bind at 1.
    unfold Delegation.syncData, onNet, Lens.zoom.
    rewrite (singleSync_accepted ("photos.icloud.com/download/" ++ photoId)
               [("id", JStr photoId); ("jpeg", JStr EmptyString); ("mov", JStr EmptyString)]
               "GET" r payload (net s0) eq_refl Hcall Hok Hjson).
    cbn [results].
    assert (Hcheck : forall st : site, exists e,
              (match asArray payload with
               | [] => throw (AppError "Invalid Live Photo data received" 500)
               | first :: _ =>
                   jpeg <- getProp first "jpeg" ;;
                   if negb (truthy jpeg)
                   then throw (AppError "Invalid Live Photo data received" 500)
                   else
                     mov <- getProp first "mov" ;;
                     if negb (truthy mov)
                     then throw (AppError "Invalid Live Photo data received" 500)
                     else onDisk (convertDownloaded tempDir movToMp4 jpeg mov)
               end) st = (Throw e, st)).
    { intros st. unfold incomplete in Hbad.
      destruct (asArray payload) as [ | first rest]; [eexists; reflexivity | ].
      destruct first; simpl in Hbad; try discriminate;
        try (eexists; reflexivity).
      unfold bind, getProp, ret.
      destruct (truthy (lookup "jpeg" props)); simpl in *; [ | eexists; reflexivity].
      rewrite Hbad. eexists; reflexivity. }
    match goal with
    | |- context [match asArray payload with _ => _ end ?st] =>
        destruct (Hcheck st) as (e & ->)
    end.
    split; [reflexivity | ]. cbn [net logged requests sleeps]. auto.
  - exists s'. rewrite Hrun. repeat split; auto.
Qed.

(** *** Files *)

(** X23: files through the synchronizer.  With a WebDAV service, a readable
    local file and a client that answers the upload with a boolean -- [true]
    or [false] -- [syncFile] succeeds at once, after one call to the client.
    With no readable local file, or with no WebDAV service given to the
    constructor, it makes no call to the client, sleeps the full back-off and
    rejects with the 500 error that names both paths. *)
Theorem files_through_the_synchronizer (localPath remotePath : string) (s : site) :
  (forall client content accepted,
     webDAVService = Some client ->
     LivePhoto.lookupFile localPath (LivePhoto.files (storage s)) = Some content ->
     client (traffic s) (WebDAVService.PutFileContents remotePath content)
     = Return (WebDAVService.Value (JBool accepted)) ->
     syncFile localPath remotePath s
     = (Return tt,
        {| net := net s; storage := storage s; memory := memory s;
           traffic := traffic s ++ [WebDAVService.PutFileContents remotePath content] |}))
  /\
  (webDAVService = None
   \/ LivePhoto.lookupFile localPath (LivePhoto.files (storage s)) = None ->
   exists s',
     syncFile localPath remotePath s
     = (Throw (AppError ("Failed to sync file: " ++ localPath ++ " -> " ++ remotePath) 500),
        s') /\
     traffic s' = traffic s /\
     sleeps (net s') = sleeps (net s) ++ fullBackoff).
Proof.
  split.
  - intros client content accepted Hservice Hfile Hanswer.
    unfold Delegation.syncFile. apply retry_first_success.
    rewrite Hservice. unfold tryCatch, onStation, Lens.zoom.
    destruct (uploadFile_outcome client localPath remotePath
                {| WebDAVService.local := storage s; WebDAVService.traffic := traffic s |})
      as [_ Hupload].
    rewrite (Hupload content Hfile). cbn [WebDAVService.traffic WebDAVService.local].
    rewrite Hanswer. reflexivity.
  - intros Hcase. unfold Delegation.syncFile.
    match goal with
    | |- context [retryOperation ?op MAX_RETRIES] =>
        destruct (exhausted_five op
                    (fun s0 => traffic s0 = traffic s /\ storage s0 = storage s)
                    (AppError ("Failed to sync file: " ++ localPath ++ " -> " ++ remotePath)
                              500)
                    (DataSynchronizer.mkRequest EmptyString (fun _ => None) EmptyString JNull
                   EmptyString) 0) with (s := s)
          as (s' & Hrun & (Htraffic & _) & _ & Hsl); auto
    end.
    + intros s0 (Htraffic & Hstorage).
      destruct webDAVService as [client | ] eqn:Hservice.
      * destruct Hcase as [Hnone | Hmissing]; [discriminate | ].
        destruct (uploadFile_outcome client localPath remotePath
                    {| WebDAVService.local := storage s0;
                       WebDAVService.traffic := traffic s0 |}) as [Hupload _].
        eexists. unfold tryCatch, onStation, Lens.zoom.
        rewrite Hupload by (cbn [WebDAVService.local]; rewrite Hstorage; exact Hmissing).
        split; [reflexivity | ]. cbn [traffic storage net WebDAVService.local
                                      WebDAVService.traffic].
        rewrite app_nil_r. auto.
      * eexists. unfold tryCatch, throw. split; [reflexivity | ].
        rewrite app_nil_r. auto.
    + exists s'. rewrite Hrun. auto.
Qed.

End DelegationFacts.

(** * Properties of the middleware and of the routes *)

Section MiddlewareFacts.
Import Js DataSynchronizer AuthMiddleware.

Variable verifyAsync : string -> completion jsval.

Local Abbreviation validateToken := (AuthMiddleware.validateToken verifyAsync).

Lemma appError_is_not_a_token_error (m : string) (status : Z) :
  isJsonWebTokenError (AppError m status) = false.
Proof. reflexivity. Qed.

(** X24: the token is the second word, whatever the first.  For a header
    made of one word, a space and a non-empty token, [validateToken] decides
    on the token alone: the first word -- [Bearer] or anything else -- is
    never looked at.  A verified token lets the request through with its
    payload as [req.user]; an error of [jsonwebtoken] gives 403; any other
    error gives 500, unless it is an [AppError], which is passed on. *)
Theorem token_is_the_second_word_whatever_the_first (scheme token : string) :
  Text.contains " " scheme = false ->
  Text.contains " " token = false ->
  token <> EmptyString ->
  validateToken (Some (scheme ++ String " " token)%string)
  = match verifyAsync token with
    | Return decoded => Next decoded
    | Throw error =>
        if isJsonWebTokenError error then NextError (AppError "Invalid token" 403)
        else if instanceofAppError error then NextError error
        else NextError (AppError "Authentication failed" 500)
    end.
Proof.
  intros Hscheme Htoken Hne.
  unfold AuthMiddleware.validateToken, authenticate, tokenOf.
  assert (Hheader : isEmptyText (scheme ++ String " " token) = false).
  { destruct scheme; reflexivity. }
  rewrite Hheader, (split_app " " scheme token Hscheme), (split_clean " " token Htoken).
  cbn [nth_error].
  assert (Hfull : isEmptyText token = false).
  { unfold isEmptyText. apply String.eqb_neq. exact Hne. }
  rewrite Hfull. reflexivity.
Qed.

(** X25: nothing passes unverified.  [validateToken] calls [next()] only
    for a header whose second word is a non-empty token that [verifyAsync]
    accepts, and sets [req.user] to what it decoded.  Without a header, or
    with an empty one, it hands over the 401 error of the missing header; with
    a header of one word only, the 401 error of the missing token. *)
Theorem nothing_passes_unverified (authorization : option string) :
  (forall user,
     validateToken authorization = Next user ->
     exists authHeader token,
       authorization = Some authHeader /\
       nth_error (Text.split " " authHeader) 1 = Some token /\
       token <> EmptyString /\
       verifyAsync token = Return user)
  /\
  (authorization = None \/ authorization = Some EmptyString ->
   validateToken authorization
   = NextError (AppError "Authorization header is missing" 401))
  /\
  (forall word,
     authorization = Some word -> word <> EmptyString -> Text.contains " " word = false ->
     validateToken authorization = NextError (AppError "Token is missing" 401)).
Proof.
  unfold AuthMiddleware.validateToken, authenticate, tokenOf.
  split; [ | split].
  - intros user Hpass.
    destruct authorization as [authHeader | ]; [ | discriminate].
    destruct (isEmptyText authHeader); [discriminate | ].
    destruct (nth_error (Text.split " " authHeader) 1) as [token | ] eqn:Hword;
      [ | discriminate].
    destruct (isEmptyText token) eqn:Hempty; [discriminate | ].
    exists authHeader, token. split; [reflexivity | split; [exact Hword | split]].
    + apply String.eqb_neq. exact Hempty.
    + destruct (verifyAsync token) as [decoded | e]; [congruence | ].
      destruct (isJsonWebTokenError e); [discriminate | ].
      destruct (instanceofAppError e); discriminate.
  - intros [-> | ->]; reflexivity.
  - intros word -> Hne Hclean.
    assert (Hfull : isEmptyText word = false).
    { unfold isEmptyText. apply String.eqb_neq. exact Hne. }
    rewrite Hfull, (split_clean " " word Hclean). reflexivity.
Qed.

(** X26: a refused request is answered with the status of its refusal.
    Whatever [validateToken] hands to [next] as an error is an [AppError], and
    the last middleware of the application answers it with that status and
    that message.  An error of any other kind that reaches the last middleware
    is answered 500 with [An unexpected error occurred]: the [false] given to
    the constructor there lands in [additionalInfo], so the error stays
    operational and the longer text of [errorHandler] is never sent. *)
Theorem refused_request_is_answered_with_its_own_status :
  (forall authorization e,
     validateToken authorization = NextError e ->
     exists text status,
       e = AppError text status /\
       ErrorHandler.lastMiddleware e
       = {| ErrorHandler.code := status;
            ErrorHandler.body := JObj [("message", JStr text)] |})
  /\
  (forall e,
     instanceofAppError e = false ->
     ErrorHandler.lastMiddleware e
     = {| ErrorHandler.code := 500;
          ErrorHandler.body := JObj [("message", JStr "An unexpected error occurred")] |}).
Proof.
  split.
  - intros authorization e Hrefused.
    unfold AuthMiddleware.validateToken in Hrefused.
    destruct (authenticate verifyAsync authorization) as [decoded | error];
      [discriminate | ].
    destruct (isJsonWebTokenError error).
    + inversion Hrefused. eexists _, _. split; reflexivity.
    + destruct (instanceofAppError error) eqn:Hclass.
      * inversion Hrefused. subst e. destruct error; try discriminate.
        eexists _, _. split; reflexivity.
      * inversion Hrefused. eexists _, _. split; reflexivity.
  - intros e Hclass. destruct e; try discriminate; reflexivity.
Qed.

End MiddlewareFacts.

Section QueueFacts.
Import Js DataSynchronizer SyncOrchestrator RouteSpec.
Local Open Scope js_scope.

Variable State : Type.
Variable Result : Type.
Variable toText : jsval -> string.
Variable syncData : jsval -> string -> jsval -> string -> M State Result.
Variable syncLivePhoto : jsval -> jsval -> jsval -> M State Result.

Local Abbreviation processTask :=
  (SyncOrchestrator.processTask State Result toText syncData syncLivePhoto).
Local Abbreviation processLoop :=
  (SyncOrchestrator.processLoop State Result toText syncData syncLivePhoto).
Local Abbreviation getProcessQueue :=
  (SyncOrchestrator.getProcessQueue State Result toText syncData syncLivePhoto).
Local Abbreviation postEnqueue := (SyncOrchestrator.postEnqueue State Result).

Lemma processLoop_drains (pending : list jsval) :
  forall fuel processingResults services0,
    List.length pending <= fuel ->
    exists entries services',
      processLoop fuel processingResults {| queue := pending; services := services0 |}
      = (Return (processingResults ++ entries), {| queue := []; services := services' |}) /\
      map taskOf entries = pending /\
      Forall (fun entry => exists s1, entry = recorded (taskOf entry)
                                                (fst (processTask (taskOf entry) s1)))
             entries.
Proof.
  induction pending as [ | task pending IH]; intros fuel processingResults services0 Hfuel.
  - exists [], services0. rewrite app_nil_r. destruct fuel; auto.
  - destruct fuel as [ | fuel]; [simpl in Hfuel; lia | ].
    cbn [SyncOrchestrator.processLoop].
    unfold bind at 1, gets. cbn [queue SyncQueue.isEmpty].
    unfold bind at 1. cbn [queue SyncQueue.dequeue services].
    unfold bind at 1, attempt, onServices, Lens.zoom. cbn [services queue].
    destruct (processTask task services0) as [outcome services1] eqn:Hrun.
    assert (Hnext : exists entries services',
              processLoop fuel (processingResults ++ [recorded task outcome])
                {| queue := pending; services := services1 |}
              = (Return ((processingResults ++ [recorded task outcome]) ++ entries),
                 {| queue := []; services := services' |}) /\
              map taskOf entries = pending /\
              Forall (fun entry => exists s1, entry = recorded (taskOf entry)
                                                        (fst (processTask (taskOf entry) s1)))
                     entries).
    { apply IH. simpl in Hfuel. lia. }
    destruct Hnext as (entries & services' & Hloop & Htasks & Hentries).
    exists (recorded task outcome :: entries), services'.
    assert (Htask : taskOf (recorded task outcome) = task) by (destruct outcome; reflexivity).
    split; [ | split].
    + destruct outcome as [result | e]; cbn [recorded] in *;
        rewrite Hloop, <- app_assoc; reflexivity.
    + simpl. rewrite Htask, Htasks. reflexivity.
    + constructor; [ | exact Hentries].
      exists services0. rewrite Htask, Hrun. reflexivity.
Qed.

(** X27: the queue is drained in order.  Whatever the tasks and whatever
    the synchronizer does with each, [GET /process-queue] answers 200 with one
    entry per task that was waiting, in the order the tasks were enqueued, and
    leaves the queue empty.  Each entry records how [processTask] ended for
    its task: a task that fails is recorded as failed, with the message of its
    error, and never keeps the tasks behind it from being processed. *)
Theorem queue_is_drained_in_order (r : router State) :
  exists entries services',
    getProcessQueue r
    = (Return {| code := 200; success := true; message := "Queue processed";
                 results := entries |},
       {| queue := []; services := services' |}) /\
    map taskOf entries = queue r /\
    Forall (fun entry => exists s1, entry = recorded (taskOf entry)
                                              (fst (processTask (taskOf entry) s1)))
           entries.
Proof.
  destruct r as [pending services0].
  destruct (processLoop_drains pending (List.length pending) [] services0 (le_n _))
    as (entries & services' & Hloop & Htasks & Hentries).
  exists entries, services'. split; [ | split; [exact Htasks | exact Hentries]].
  unfold SyncOrchestrator.getProcessQueue, bind, gets. cbn [queue].
  rewrite Hloop. reflexivity.
Qed.

Lemma postEnqueue_readable (body : jsval) (r : router State) :
  SyncSpec.readable body = true ->
  postEnqueue body r
  = (Return {| code := 200; success := true; message := "Sync task enqueued";
               results := [] |},
     {| queue := queue r ++ [taskFrom body]; services := services r |}).
Proof.
  intros Hbody. unfold SyncOrchestrator.postEnqueue, bind, destructure, modify, ret.
  destruct body; try discriminate; reflexivity.
Qed.

Lemma enqueueAll_readable (bodies : list jsval) :
  forall r : router State,
    forallb SyncSpec.readable bodies = true ->
    enqueueAll Result bodies r
    = (Return tt, {| queue := queue r ++ map taskFrom bodies; services := services r |}).
Proof.
  unfold enqueueAll.
  induction bodies as [ | body bodies IH]; intros r Hbodies.
  - simpl. rewrite app_nil_r. destruct r; reflexivity.
  - simpl in Hbodies. apply andb_true_iff in Hbodies. destruct Hbodies as [Hbody Hrest].
    cbn [ICloudService.forEach]. unfold bind at 1. unfold bind at 1.
    rewrite (postEnqueue_readable body r Hbody). unfold ret.
    rewrite (IH _ Hrest). cbn [queue services map]. rewrite <- app_assoc. reflexivity.
Qed.

Lemma processTask_unknown (task : jsval) (services0 : State) :
  SyncSpec.readable task = true ->
  unknownTask task = true ->
  processTask task services0 = (Throw (AppError "Unknown sync type" 400), services0).
Proof.
  intros Hreadable Hunknown.
  unfold SyncOrchestrator.processTask, bind, destructure, ret.
  unfold unknownTask in Hunknown.
  destruct task; try discriminate; cbn [field] in *;
    try (destruct (lookup "type" props); try reflexivity);
    try reflexivity.
  unfold knownType in Hunknown. apply negb_true_iff in Hunknown.
  apply orb_false_iff in Hunknown. destruct Hunknown as [Hunknown Hlive].
  apply orb_false_iff in Hunknown. destruct Hunknown as [Hunknown Hcontact].
  apply orb_false_iff in Hunknown. destruct Hunknown as [Hdrive Hphoto].
  rewrite Hdrive, Hphoto, Hcontact, Hlive. reflexivity.
Qed.

(** X28: first in, first out, and a type is checked only when served.
    [POST /enqueue] accepts any readable body, whatever its [type], and keeps
    its [accessToken], [type] and [data] as a task.  Bodies enqueued one after
    the other on an empty queue are served by the next [GET /process-queue] in
    the order they came, and the queue is empty again.  A task whose type is
    none of [drive], [photo], [contact] and [live-photo] is then recorded as
    failed with [Unknown sync type]. *)
Theorem tasks_are_served_first_in_first_out (bodies : list jsval) (services0 : State) :
  forallb SyncSpec.readable bodies = true ->
  exists entries services',
    bind (enqueueAll Result bodies) (fun _ => getProcessQueue)
      {| queue := []; services := services0 |}
    = (Return {| code := 200; success := true; message := "Queue processed";
                 results := entries |},
       {| queue := []; services := services' |}) /\
    map taskOf entries = map taskFrom bodies /\
    (forall body,
       In body bodies -> unknownTask (taskFrom body) = true ->
       In (Failed (taskFrom body) "Unknown sync type") entries).
Proof.
  intros Hbodies. unfold bind at 1.
  rewrite (enqueueAll_readable bodies _ Hbodies). cbn [queue services].
  rewrite app_nil_l.
  destruct (processLoop_drains (map taskFrom bodies) (List.length (map taskFrom bodies)) []
              services0 (le_n _)) as (entries & services' & Hloop & Htasks & Hentries).
  exists entries, services'. split; [ | split; [exact Htasks | ]].
  - unfold SyncOrchestrator.getProcessQueue, bind, gets. cbn [queue].
    rewrite Hloop. reflexivity.
  - intros body Hin Hunknown.
    assert (Htask : In (taskFrom body) (map taskOf entries)).
    { rewrite Htasks. apply in_map, Hin. }
    apply in_map_iff in Htask. destruct Htask as (entry & Hentry & Hmember).
    rewrite Forall_forall in Hentries. destruct (Hentries entry Hmember) as (s1 & Hrecorded).
    rewrite Hentry in Hrecorded.
    rewrite (processTask_unknown (taskFrom body) s1 eq_refl Hunknown) in Hrecorded.
    cbn [fst recorded instanceofError Js.message] in Hrecorded.
    rewrite <- Hrecorded. exact Hmember.
Qed.

End QueueFacts.

Section ContactFacts.
Import Js DataSynchronizer ICloudService.
Local Open Scope js_scope.

Variable State : Type.
Variable toText : jsval -> string.
Variable syncData : jsval -> string -> jsval -> string -> M State SyncResult.

Local Abbreviation syncContact := (ICloudService.syncContact State toText syncData).
Local Abbreviation postContactsSync := (ICloudService.postContactsSync State toText syncData).

Lemma forEach_app {S A} (f : A -> M S unit) (before after : list A) (s : S) :
  forEach (before ++ after) f s
  = match forEach before f s with
    | (Return _, s1) => forEach after f s1
    | (Throw e, s1) => (Throw e, s1)
    end.
Proof.
  revert s. induction before as [ | x before IH]; intros s; [reflexivity | ].
  change (forEach ((x :: before) ++ after) f s)
    with (bind (f x) (fun _ => forEach (before ++ after) f) s).
  change (forEach (x :: before) f s) with (bind (f x) (fun _ => forEach before f) s).
  unfold bind. destruct (f x s) as [[[] | e] s1]; [apply IH | reflexivity].
Qed.

(** X29: the contacts are synchronized one by one, up to the first
    failure.  When every contact is synchronized, [POST /contacts/sync]
    answers 200.  When one fails, the answer is the 500 error of the route and
    the state is the one the failed call left: the contacts after it in the
    list are never sent. *)
Theorem contacts_stop_at_the_first_failure
    (accessToken : jsval) (contacts : list jsval) (s : State) :
  let body := JObj [("accessToken", accessToken); ("contacts", JArr contacts)] in
  (forall s',
     forEach contacts (syncContact accessToken) s = (Return tt, s') ->
     postContactsSync body s
     = (Return {| ErrorHandler.code := 200;
                  ErrorHandler.body := JObj [("success", JBool true);
                                             ("message", JStr "Contacts sync initiated")] |},
        s'))
  /\
  (forall before bad after s1 s2 e,
     contacts = before ++ bad :: after ->
     forEach before (syncContact accessToken) s = (Return tt, s1) ->
     syncContact accessToken bad s1 = (Throw e, s2) ->
     postContactsSync body s
     = (Return {| ErrorHandler.code := 500;
                  ErrorHandler.body :=
                    JObj [("message", JStr "Failed to sync contacts to iCloud")] |},
        s2)).
Proof.
  intros body. unfold ICloudService.postContactsSync, body.
  unfold bind at 1, SyncOrchestrator.destructure, ret.
  cbn [SyncOrchestrator.field lookup String.eqb Ascii.eqb Bool.eqb].
  unfold tryCatch, bind, iterate, ret. split.
  - intros s' Hall. rewrite Hall. reflexivity.
  - intros before bad after s1 s2 e -> Hbefore Hbad.
    rewrite forEach_app, Hbefore. cbn [forEach]. unfold bind. rewrite Hbad. reflexivity.
Qed.

End ContactFacts.

Section DownloadFacts.
Import Js DataSynchronizer ICloudService SyncSpec.
Local Open Scope js_scope.

Variable JSON_stringify : jsval -> option string.
Variable server : list request -> request -> fetched.
Variable convertToAppleMetadata : jsval -> completion jsval.
Variable writeFails : jsval -> bool.
Variable storagePath : string.
Variable pathJoin : string -> string -> string.
Variable JSON_parse : jsval -> completion jsval.

Local Abbreviation getDriveDownload :=
  (ICloudService.getDriveDownload JSON_stringify server convertToAppleMetadata writeFails
     storagePath pathJoin JSON_parse).

(** X30: a drive download never succeeds.  [GET /drive/download] hands
    [null] to [syncData] as the data of its [GET]; the dispatcher makes the
    call, reads the metadata of its data afterwards and throws.  So for every
    token and path, whatever the endpoint answers, the route makes between one
    and [MAX_RETRIES] calls and answers 500; with a parameter that is not a
    string it answers 400 without any call. *)
Theorem drive_download_never_succeeds (accessToken filePath : query) (s : Delegation.site) :
  (forall token path,
     accessToken = Some token -> filePath = Some path ->
     exists s' k,
       getDriveDownload accessToken filePath s
       = (Return {| ErrorHandler.code := 500;
                    ErrorHandler.body :=
                      JObj [("message", JStr "Failed to download from iCloud Drive")] |},
          s') /\
       1 <= k <= MAX_RETRIES /\
       requests (Delegation.net s')
       = requests (Delegation.net s)
         ++ repeat (mkRequest token JSON_stringify ("webdav.icloud.com" ++ path) JNull "GET")
                   k)
  /\
  (accessToken = None \/ filePath = None ->
   getDriveDownload accessToken filePath s
   = (Return {| ErrorHandler.code := 400;
                ErrorHandler.body := JObj [("message", JStr "Invalid parameters")] |}, s)).
Proof.
  split.
  - intros token path -> ->.
    destruct (singleSync_unreadable token JSON_stringify server convertToAppleMetadata
                writeFails ("webdav.icloud.com" ++ path) JNull "GET" (Delegation.net s)
                eq_refl) as (w' & Hrun).
    destruct (singleSync_log token JSON_stringify server convertToAppleMetadata writeFails
                ("webdav.icloud.com" ++ path) JNull "GET" (Delegation.net s))
      as (k & Hk & Hlog).
    rewrite Hrun in Hlog. simpl in Hlog.
    eexists _, k. split; [ | split; [exact Hk | ]].
    + unfold ICloudService.getDriveDownload, tryCatch, bind at 1.
      unfold Delegation.onNet, Lens.zoom, DataSynchronizer.syncData, bind.
      rewrite Hrun. reflexivity.
    + exact Hlog.
  - intros [-> | ->]; [reflexivity | ]. destruct accessToken; reflexivity.
Qed.

End DownloadFacts.
(** * Concrete runs of the further properties *)

Section DispatcherEdgeRuns.
Import Js DataSynchronizer SyncSpec DispatchSpec Scenario.

Local Abbreviation run server :=
  (DataSynchronizer.syncData "test-token" stringify server keepMetadata diskHealthy).
Local Abbreviation mkRequest := (DataSynchronizer.mkRequest "test-token" stringify).

(** [syncData] on [null], against an endpoint that answers every call. *)
Lemma unreadable_data_is_sent_and_rejected_witness :
  exists w' k,
    run healthy "files" JNull "POST" emptyWorld = (Throw syncFailure, w') /\
    1 <= k <= MAX_RETRIES /\
    requests w' = requests emptyWorld ++ repeat (mkRequest "files" JNull "POST") k.
Proof.
  apply (unreadable_data_is_sent_and_rejected "test-token" stringify healthy keepMetadata
           diskHealthy "files" JNull "POST" emptyWorld).
  reflexivity.
Defined.

(** The 250 records of the batching tests, against an endpoint that answers
    every call: three calls. *)
Lemma healthy_batched_run_makes_one_call_per_batch_witness :
  exists out w',
    run healthy "test-endpoint" (JArr largeDataset) "POST" emptyWorld = (Return out, w') /\
    errors out = [] /\
    requests w' = requests emptyWorld
                  ++ map (fun batch => mkRequest "test-endpoint" (JArr batch) "POST")
                         (batchesOf largeDataset) /\
    sleeps w' = sleeps emptyWorld /\
    List.concat (batchesOf largeDataset) = largeDataset /\
    Forall (fun batch => 1 <= List.length batch <= BATCH_SIZE) (batchesOf largeDataset) /\
    List.length largeDataset <= List.length (batchesOf largeDataset) * BATCH_SIZE
                             < List.length largeDataset + BATCH_SIZE.
Proof.
  apply (healthy_batched_run_makes_one_call_per_batch "test-token" stringify healthy
           keepMetadata diskHealthy "test-endpoint" largeDataset "POST" emptyWorld).
  - intros history req. exists accepted, (JObj [("success", JBool true)]).
    repeat split.
  - vm_compute. reflexivity.
  - vm_compute. lia.
Defined.

(** A record whose metadata names no creation date, with the converter of
    the metadata service: the endpoint accepts it and the conversion throws. *)
Lemma accepted_record_fails_when_its_metadata_cannot_be_kept_witness :
  let convert := AppleMetadataService.convertToAppleMetadata MetadataScenario.dateTime
                   MetadataScenario.isoString
                   (MetadataScenario.parseAmong MetadataScenario.sampleJSON) in
  let record := [("id", JStr "file-1"); ("metadata", MetadataScenario.undated)] in
  DataSynchronizer.syncData "test-token" stringify healthy convert diskHealthy
    "files" (JObj record) "POST" emptyWorld
  = (Throw syncFailure, logged emptyWorld [mkRequest "files" (JObj record) "POST"]).
Proof.
  intros convert record.
  apply (accepted_record_fails_when_its_metadata_cannot_be_kept "test-token" stringify
           healthy convert diskHealthy "files" record "POST" accepted
           (JObj [("success", JBool true)]) emptyWorld).
  - reflexivity.
  - reflexivity.
  - reflexivity.
  - reflexivity.
  - left. exists (JsError "RangeError" "Invalid time value"). vm_compute. reflexivity.
Defined.

End DispatcherEdgeRuns.

Section ConflictEdgeRuns.
Import Js ConflictResolution ConflictScenario MergeSpec MergeEdges.

Local Abbreviation resolveConflict := (ConflictResolution.resolveConflict parseUtc noPrinter).

(** The circular record of the test-suite. *)
Lemma merge_terminates_and_spares_its_inputs_witness :
  (exists h',
     resolveConflict (VRef 0) (VRef 1) "merge" selfReferential
     = (Return (VRef (List.length selfReferential)), h') /\
     firstn (List.length selfReferential) h' = selfReferential)
  \/
  (exists h',
     resolveConflict (VRef 0) (VRef 1) "merge" selfReferential
     = (Throw (AppError "Failed to resolve conflict" 500), h') /\
     objectsOnly selfReferential = false).
Proof.
  apply (merge_terminates_and_spares_its_inputs parseUtc noPrinter selfReferential 0 (VRef 1)).
  - reflexivity.
  - simpl. lia.
Defined.

(** Tags that only the local record has. *)
Lemma merge_rejects_an_array_the_cloud_lacks_witness :
  exists h',
    resolveConflict (VRef 0) (VRef 2) "merge" tagsOnlyLocal
    = (Throw (AppError "Failed to resolve conflict" 500), h').
Proof.
  apply (merge_rejects_an_array_the_cloud_lacks parseUtc noPrinter tagsOnlyLocal 0 2 1
           [("id", VStr "1"); ("tags", VRef 1)] [("id", VStr "1")] "tags" [VStr "a"]);
    reflexivity.
Defined.

End ConflictEdgeRuns.

Section PhotoEdgeRuns.
Import Js LivePhoto PhotoSpec PhotoScenario PhotoEdges.


(** A clip whose still image is not on the disk. *)
Lemma failed_conversion_leaves_the_temporary_clip_witness :
  exists d',
    convertToAndroidMotionPhoto "/tmp" lossless "missing.jpg" "photo.mov" camera
    = (Throw (AppError "Failed to convert Live Photo" 500), d') /\
    lookupFile (join "/tmp" ("temp_" ++ decimalN (clock camera) ++ ".mp4")) (files d')
    = Some clip /\
    (forall path,
       String.eqb path (join "/tmp" ("temp_" ++ decimalN (clock camera) ++ ".mp4")) = false ->
       lookupFile path (files d') = lookupFile path (files camera)).
Proof.
  apply (failed_conversion_leaves_the_temporary_clip "/tmp" lossless "missing.jpg"
           "photo.mov" clip clip camera); reflexivity.
Defined.


End PhotoEdgeRuns.

Section MetadataRuns.
Import Js DataSynchronizer AppleMetadataService MetadataSpec MetadataScenario.

Local Abbreviation saveMetadata :=
  (AppleMetadataService.saveMetadata "/storage" flatJoin Scenario.stringify noDenial).
Local Abbreviation getMetadata :=
  (AppleMetadataService.getMetadata "/storage" flatJoin (parseAmong documents)).
Local Abbreviation updateMetadata :=
  (AppleMetadataService.updateMetadata "/storage" flatJoin Scenario.stringify
     (parseAmong documents) noDenial).
Local Abbreviation filePathOf := (AppleMetadataService.filePathOf "/storage" flatJoin).

(** The sample of the metadata tests goes to Android and comes back without
    its icon. *)
Lemma apple_to_android_and_back_witness :
  exists android,
    Android.value (convertToAndroidMetadata dateTime Scenario.stringify sampleMetadata)
    = Some android /\
    convertToAppleMetadata dateTime isoString (parseAmong sampleJSON) android
    = Return (appleValue (withoutIcon sampleMetadata)).
Proof.
  apply (apple_to_android_and_back dateTime isoString Scenario.stringify
           (parseAmong sampleJSON) sampleMetadata
           1688385600000 1688389200000 1688382000000).
  - repeat split; vm_compute; reflexivity.
  - repeat split; vm_compute; reflexivity.
  - repeat split; vm_compute; reflexivity.
  - discriminate.
  - repeat constructor.
  - discriminate.
  - exists (Scenario.render (JArr [JStr "user1"; JStr "user2"])).
    split; [reflexivity | split; [discriminate | vm_compute; reflexivity]].
  - exists (Scenario.render (JObj [("key", JStr "value")])).
    split; [reflexivity | split; [discriminate | vm_compute; reflexivity]].
Defined.

(** Metadata without a creation date, an [acl] that is not JSON, and
    metadata with its two dates only. *)
Lemma what_the_apple_conversion_requires_witness :
  appleConverter undated = Throw (JsError "RangeError" "Invalid time value")
  /\
  appleConverter (JObj unparsableAcl)
  = Throw (JsError "SyntaxError" "Unexpected token in JSON")
  /\
  (exists out,
     appleConverter (JObj datedOnly) = Return out /\
     lookup "creationDate" (ownProps out) = JStr "2023-07-03T12:00:00.000Z" /\
     lookup "contentCreationDate" (ownProps out) = JStr "2023-07-03T12:00:00.000Z").
Proof.
  split; [ | split].
  - apply (what_the_apple_conversion_requires dateTime isoString (parseAmong sampleJSON)
             [("label", JStr "Holiday")]).
    reflexivity.
  - apply (what_the_apple_conversion_requires dateTime isoString (parseAmong sampleJSON)
             unparsableAcl) with (created := 1688385600000%Z) (modified := 1688389200000%Z);
      reflexivity.
  - destruct (appleConverter (JObj datedOnly)) as [out | e] eqn:Hrun;
      [ | vm_compute in Hrun; discriminate].
    exists out. split; [reflexivity | ].
    destruct (what_the_apple_conversion_requires dateTime isoString (parseAmong sampleJSON)
                datedOnly) as (_ & _ & Hfilled).
    destruct (Hfilled out Hrun eq_refl) as (created & Hcreated & Hfirst & Hsecond).
    vm_compute in Hcreated. injection Hcreated as <-.
    split; [exact Hfirst | exact Hsecond].
Defined.

(** A document saved on an empty store and read back. *)
Lemma saved_metadata_is_read_back_witness :
  exists d',
    saveMetadata "file-1" storedLabel emptyDisk = (Return tt, d') /\
    getMetadata "file-1" d' = (Return storedLabel, d') /\
    (forall path, String.eqb path (filePathOf "file-1") = false ->
                  LivePhoto.lookupFile path (LivePhoto.files d')
                  = LivePhoto.lookupFile path (LivePhoto.files emptyDisk)).
Proof.
  apply (saved_metadata_is_read_back "/storage" flatJoin Scenario.stringify
           (parseAmong documents) noDenial "file-1" storedLabel storedLabel
           (Scenario.render storedLabel) emptyDisk); reflexivity.
Defined.

(** A document asked of an empty store. *)
Lemma missing_document_is_reported_witness :
  getMetadata "file-1" emptyDisk
  = (Throw (AppError "Failed to retrieve Apple-specific metadata" 500), emptyDisk) /\
  updateMetadata "file-1" labelUpdate emptyDisk
  = (Throw (AppError "Failed to update Apple-specific metadata" 500), emptyDisk).
Proof.
  apply (missing_document_is_reported "/storage" flatJoin Scenario.stringify
           (parseAmong documents) noDenial "file-1" labelUpdate emptyDisk).
  left. reflexivity.
Defined.

(** The update of the metadata tests: new tags for a stored label. *)
Lemma update_replaces_the_named_fields_witness :
  exists d',
    updateMetadata "file-1" labelUpdate library = (Return tt, d') /\
    LivePhoto.lookupFile (filePathOf "file-1") (LivePhoto.files d')
    = Some (LivePhoto.bytesOf
              (Scenario.render (JObj [("label", JStr "Old");
                                      ("tags", JArr [JStr "newTag"])]))) /\
    (forall k,
       lookup k (ownProps (spread storedLabel labelUpdate))
       = if hasKey k [("tags", JArr [JStr "newTag"])]
         then lookup k [("tags", JArr [JStr "newTag"])]
         else lookup k [("label", JStr "Old"); ("tags", JArr [JStr "tag1"; JStr "tag2"])]).
Proof.
  apply (update_replaces_the_named_fields "/storage" flatJoin Scenario.stringify
           (parseAmong documents) noDenial "file-1"
           [("label", JStr "Old"); ("tags", JArr [JStr "tag1"; JStr "tag2"])]
           [("tags", JArr [JStr "newTag"])]
           (Scenario.render (JObj [("label", JStr "Old"); ("tags", JArr [JStr "newTag"])]))
           library).
  - vm_compute. reflexivity.
  - repeat constructor; simpl; intuition discriminate.
  - repeat constructor; simpl; intuition discriminate.
  - reflexivity.
  - reflexivity.
  - vm_compute. reflexivity.
Defined.

End MetadataRuns.

Section WebDAVRuns.
Import Js DataSynchronizer WebDAVService PhotoEdges.

(** A listing answered with a detailed response. *)
Lemma listing_reads_plain_and_detailed_answers_witness :
  listDirectory detailedClient "/" quay
  = (Return [JStr "/a.txt"; JStr "/b.txt"],
     {| local := local quay; traffic := [GetDirectoryContents "/"] |}).
Proof.
  apply (listing_reads_plain_and_detailed_answers detailedClient "/"
           [entry "/a.txt"; entry "/b.txt"]
           [("data", JArr [entry "/a.txt"; entry "/b.txt"]);
            ("headers", JObj []); ("status", JNum 207)] quay).
  - reflexivity.
  - right. repeat split.
Defined.

(** An upload the client answers with [false]. *)
Lemma upload_accepts_any_boolean_witness :
  uploadFile detailedClient "photo.jpg" "/remote/photo.jpg" quay
  = (Return tt,
     {| local := local quay;
        traffic := [PutFileContents "/remote/photo.jpg" PhotoScenario.still] |}).
Proof.
  destruct (upload_accepts_any_boolean detailedClient "photo.jpg" "/remote/photo.jpg"
              PhotoScenario.still quay) as (_ & Hfound).
  destruct (Hfound eq_refl) as (Haccepted & _).
  apply (Haccepted false). reflexivity.
Defined.

End WebDAVRuns.

Section DelegationRuns.
Import Js DataSynchronizer Delegation DispatchSpec DelegationSpec Scenario PhotoScenario.

Local Abbreviation syncLivePhoto :=
  (Delegation.syncLivePhoto "test-token" stringify healthy keepMetadata diskHealthy "/tmp"
     lossless).
Local Abbreviation downloadAndConvertLivePhoto :=
  (Delegation.downloadAndConvertLivePhoto "test-token" stringify healthy keepMetadata
     diskHealthy "/tmp" lossless).
Local Abbreviation mkRequest := (DataSynchronizer.mkRequest "test-token" stringify).

(** A live photo whose still image is not on the disk. *)
Lemma live_photo_without_still_never_reaches_the_network_witness :
  exists s',
    syncLivePhoto "missing.jpg" "photo.mov" (siteOf camera [])
    = (Throw (AppError "Failed to sync Live Photo" 500), s') /\
    requests (net s') = requests (net (siteOf camera [])) /\
    sleeps (net s') = sleeps (net (siteOf camera [])) ++ fullBackoff.
Proof.
  apply (live_photo_without_still_never_reaches_the_network "test-token" stringify healthy
           keepMetadata diskHealthy "/tmp" lossless "missing.jpg" "photo.mov"
           (siteOf camera [])); reflexivity.
Defined.

(** The live photo of the camera roll, against an endpoint that answers. *)
Lemma live_photo_is_uploaded_in_one_call_witness :
  syncLivePhoto "photo.jpg" "photo.mov" (siteOf camera [])
  = (Return {| results := [JObj [("success", JBool true)]]; errors := [] |},
     called (siteOf camera [])
       [mkRequest "photos.icloud.com/upload"
          (JObj [("id", JStr "livePhoto_1700000000000");
                 ("data", AppleMetadataService.bufferValue
                            (LivePhoto.embedMp4IntoJpeg still clip))])
          "POST"]).
Proof.
  apply (live_photo_is_uploaded_in_one_call "test-token" stringify healthy keepMetadata
           diskHealthy "/tmp" lossless "photo.jpg" "photo.mov" still clip clip accepted
           (JObj [("success", JBool true)]) (siteOf camera [])); reflexivity.
Defined.

(** A download answered without a [jpeg] or a [mov]. *)
Lemma incomplete_download_is_fetched_five_times_witness :
  exists s',
    downloadAndConvertLivePhoto "p1" (siteOf camera [])
    = (Throw (AppError "Failed to download and convert Live Photo" 500), s') /\
    requests (net s')
    = requests (net (siteOf camera []))
      ++ repeat (mkRequest "photos.icloud.com/download/p1"
                   (JObj [("id", JStr "p1"); ("jpeg", JStr EmptyString);
                          ("mov", JStr EmptyString)]) "GET") MAX_RETRIES /\
    DataSynchronizer.method
      (mkRequest "photos.icloud.com/download/p1"
         (JObj [("id", JStr "p1"); ("jpeg", JStr EmptyString);
                ("mov", JStr EmptyString)]) "GET") = "GET" /\
    body (mkRequest "photos.icloud.com/download/p1"
            (JObj [("id", JStr "p1"); ("jpeg", JStr EmptyString);
                   ("mov", JStr EmptyString)]) "GET") = None /\
    sleeps (net s') = sleeps (net (siteOf camera [])) ++ fullBackoff.
Proof.
  apply (incomplete_download_is_fetched_five_times "test-token" stringify healthy
           keepMetadata diskHealthy "/tmp" lossless "p1" (siteOf camera [])).
  intros history req. exists accepted, (JObj [("success", JBool true)]).
  repeat split.
Defined.

(** The manual strategy, asked through the synchronizer. *)
Lemma conflicts_through_the_synchronizer_witness :
  exists s',
    Delegation.resolveConflict ConflictScenario.parseUtc ConflictScenario.noPrinter
      (ConflictResolution.VRef 0) (ConflictResolution.VRef 1) "manual"
      (siteOf camera ConflictScenario.flatRecords)
    = (Throw (AppError "Failed to resolve conflict" 500), s') /\
    sleeps (net s') = sleeps (net (siteOf camera ConflictScenario.flatRecords)) ++ fullBackoff /\
    requests (net s') = requests (net (siteOf camera ConflictScenario.flatRecords)).
Proof.
  destruct (conflicts_through_the_synchronizer ConflictScenario.parseUtc
              ConflictScenario.noPrinter (ConflictResolution.VRef 0)
              (ConflictResolution.VRef 1) "manual"
              (siteOf camera ConflictScenario.flatRecords)) as (_ & Hrefused).
  apply Hrefused. left. reflexivity.
Defined.

(** A file synchronized by a synchronizer that was given no WebDAV service. *)
Lemma files_through_the_synchronizer_witness :
  exists s',
    Delegation.syncFile None "photo.jpg" "/remote/photo.jpg" (siteOf camera [])
    = (Throw (AppError "Failed to sync file: photo.jpg -> /remote/photo.jpg" 500), s') /\
    traffic s' = traffic (siteOf camera []) /\
    sleeps (net s') = sleeps (net (siteOf camera [])) ++ fullBackoff.
Proof.
  destruct (files_through_the_synchronizer None "photo.jpg" "/remote/photo.jpg"
              (siteOf camera [])) as (_ & Hrefused).
  apply Hrefused. left. reflexivity.
Defined.

End DelegationRuns.

Section RouteRuns.
Import Js DataSynchronizer AuthMiddleware SyncOrchestrator RouteSpec RouteScenario.

(** A known token behind a scheme that is not [Bearer]. *)
Lemma token_is_the_second_word_whatever_the_first_witness :
  validateToken verifyKnown (Some "Basic good") = Next (JObj [("userId", JStr "u1")]).
Proof.
  apply (token_is_the_second_word_whatever_the_first verifyKnown "Basic" "good").
  - reflexivity.
  - reflexivity.
  - discriminate.
Defined.

(** A drive task and a task of an unknown type, enqueued and processed. *)
Lemma tasks_are_served_first_in_first_out_witness :
  exists entries services',
    Js.bind (enqueueAll SyncResult [driveBody; calendarBody])
      (fun _ => getProcessQueue (list string) SyncResult textOf loggingSync loggingLivePhoto)
      {| queue := []; services := [] |}
    = (Return {| code := 200; success := true; message := "Queue processed";
                 results := entries |},
       {| queue := []; services := services' |}) /\
    map taskOf entries = map taskFrom [driveBody; calendarBody] /\
    (forall body,
       In body [driveBody; calendarBody] -> unknownTask (taskFrom body) = true ->
       In (Failed (taskFrom body) "Unknown sync type") entries).
Proof.
  apply (tasks_are_served_first_in_first_out (list string) SyncResult textOf loggingSync
           loggingLivePhoto [driveBody; calendarBody] []).
  reflexivity.
Defined.

(** Three contacts, the second of which the synchronizer fails on: the third
    is never sent. *)
Lemma contacts_stop_at_the_first_failure_witness :
  ICloudService.postContactsSync (list string) textOf loggingSync
    (JObj [("accessToken", JStr "test-token");
           ("contacts", JArr [contact "c1"; contact "c2"; contact "c3"])]) []
  = (Return {| ErrorHandler.code := 500;
               ErrorHandler.body :=
                 JObj [("message", JStr "Failed to sync contacts to iCloud")] |},
     ["contacts.icloud.com/c1"; "contacts.icloud.com/c2"]).
Proof.
  destruct (contacts_stop_at_the_first_failure (list string) textOf loggingSync
              (JStr "test-token") [contact "c1"; contact "c2"; contact "c3"] [])
    as (_ & Hstops).
  apply (Hstops [contact "c1"] (contact "c2") [contact "c3"]
           ["contacts.icloud.com/c1"] ["contacts.icloud.com/c1"; "contacts.icloud.com/c2"]
           (AppError "Failed to sync data" 500)); reflexivity.
Defined.

(** A drive download against an endpoint that answers every call. *)
Lemma drive_download_never_succeeds_witness :
  exists s' k,
    ICloudService.getDriveDownload Scenario.stringify Scenario.healthy
      Scenario.keepMetadata Scenario.diskHealthy "/storage" MetadataScenario.flatJoin
      (MetadataScenario.parseAmong MetadataScenario.documents)
      (Some "test-token") (Some "/notes.txt")
      (DelegationSpec.siteOf PhotoScenario.camera [])
    = (Return {| ErrorHandler.code := 500;
                 ErrorHandler.body :=
                   JObj [("message", JStr "Failed to download from iCloud Drive")] |},
       s') /\
    1 <= k <= MAX_RETRIES /\
    requests (Delegation.net s')
    = requests (Delegation.net (DelegationSpec.siteOf PhotoScenario.camera []))
      ++ repeat (mkRequest "test-token" Scenario.stringify "webdav.icloud.com/notes.txt"
                   JNull "GET") k.
Proof.
  destruct (drive_download_never_succeeds Scenario.stringify Scenario.healthy
              Scenario.keepMetadata Scenario.diskHealthy "/storage"
              MetadataScenario.flatJoin
              (MetadataScenario.parseAmong MetadataScenario.documents)
              (Some "test-token") (Some "/notes.txt")
              (DelegationSpec.siteOf PhotoScenario.camera [])) as (Hfails & _).
  apply (Hfails "test-token" "/notes.txt"); reflexivity.
Defined.

End RouteRuns.
